(** * ai_daily.py: feed ingestion and AI curation pipeline

    A shallow embedding of [skills/ai-daily/scripts/ai_daily.py] and the
    properties of its parser, fetcher, time filter, scoring, ranking,
    summarisation and report stages.

    Conventions of the embedding.
    - A Python [str] is the list of its Unicode code points ([str := list N]),
      so that slicing, [chr] and [len] count characters as Python does.
    - Python values that arrive from [json.loads] are kept dynamically typed
      ([json]); every operation that can raise on them returns a [result].
    - A [dict] is an association list in insertion order, with Python's key
      equality ([1 == 1.0 == True]).
    - Library functions the program calls but does not define
      ([ET.fromstring], [html.unescape], [datetime.strptime], the AI
      backend, ...) are variables of the section [Program]. *)

From Stdlib Require Import String Ascii.
From Stdlib Require Import ZArith NArith List Bool Lia.
From Stdlib Require Import Permutation Sorted.
Import ListNotations.

Set Implicit Arguments.
Set Warnings "-register-all".
Open Scope Z_scope.

(* ====================================================================== *)
(** * Python strings *)
(* ====================================================================== *)

Definition str := list N.

(** [lit "abc"] is the Python literal ['abc']. *)
Definition lit (s : string) : str :=
  List.map N_of_ascii (list_ascii_of_string s).

Fixpoint str_eqb (a b : str) : bool :=
  match a, b with
  | [], [] => true
  | x :: a', y :: b' => N.eqb x y && str_eqb a' b'
  | _, _ => false
  end.

(** [s.startswith(p)]; on success the remainder of [s] is returned too. *)
Fixpoint strip_prefix (p s : str) : option str :=
  match p, s with
  | [], _ => Some s
  | x :: p', y :: s' => if N.eqb x y then strip_prefix p' s' else None
  | _ :: _, [] => None
  end.

Definition startswith (s p : str) : bool :=
  match strip_prefix p s with Some _ => true | None => false end.

Definition endswith (s p : str) : bool := startswith (rev s) (rev p).

(** First occurrence of [pat] in [s]: the text before it and the text after
    it ([s.partition(pat)] without the separator). *)
Fixpoint find_sub (pat s : str) : option (str * str) :=
  match strip_prefix pat s with
  | Some rest => Some ([], rest)
  | None =>
      match s with
      | [] => None
      | c :: s' =>
          match find_sub pat s' with
          | Some (before, rest) => Some (c :: before, rest)
          | None => None
          end
      end
  end.

(** [pat in s] *)
Definition str_contains (s pat : str) : bool :=
  match find_sub pat s with Some _ => true | None => false end.

(** [str.isspace] of one character. *)
Definition is_space (c : N) : bool :=
  ((9 <=? c) && (c <=? 13) || (28 <=? c) && (c <=? 32)
   || (c =? 133) || (c =? 160) || (c =? 5760)
   || (8192 <=? c) && (c <=? 8202)
   || (c =? 8232) || (c =? 8233) || (c =? 8239) || (c =? 8287)
   || (c =? 12288))%N.

Fixpoint lstrip (s : str) : str :=
  match s with
  | c :: s' => if is_space c then lstrip s' else s
  | [] => []
  end.

(** [s.strip()] *)
Definition strip (s : str) : str := rev (lstrip (rev (lstrip s))).

(** [s[:n]] for a non-negative constant [n]. *)
Definition str_take (n : nat) (s : str) : str := firstn n s.

(** Truthiness of a [str] or a [list]. *)
Definition nonempty {A} (s : list A) : bool :=
  match s with [] => false | _ :: _ => true end.

(** [a or b] on strings. *)
Definition str_or (a b : str) : str := if nonempty a then a else b.

(* ====================================================================== *)
(** * Exceptions *)
(* ====================================================================== *)

Inductive exn :=
| TypeError | ValueError | OverflowError | AttributeError | OtherError.

Inductive result (A : Type) :=
| Ok (a : A)
| Raise (e : exn).

Arguments Ok {A} a.
Arguments Raise {A} e.

Definition bind {A B} (r : result A) (k : A -> result B) : result B :=
  match r with
  | Ok a => k a
  | Raise e => Raise e
  end.

Notation "x <- r ;; k" := (bind r (fun x => k))
  (at level 61, r at next level, right associativity).

(** [try: body  except Exception: handler] *)
Definition try_except {A} (body : result A) (handler : A) : A :=
  match body with
  | Ok a => a
  | Raise _ => handler
  end.

(** A [for] loop whose body can raise, threading the loop state. *)
Fixpoint for_each {A S} (body : S -> A -> result S) (l : list A) (s : S)
  : result S :=
  match l with
  | [] => Ok s
  | a :: l' => s' <- body s a ;; for_each body l' s'
  end.

(* ====================================================================== *)
(** * Python values decoded from JSON *)
(* ====================================================================== *)

(** A binary float: [FFinite m e] is [m * 2^e]. *)
Inductive pyfloat :=
| FFinite (m e : Z)
| FInf (negative : bool)
| FNaN.

Inductive json :=
| JNull
| JBool (b : bool)
| JInt (z : Z)
| JFloat (f : pyfloat)
| JStr (s : str)
| JArr (l : list json)
| JObj (items : list (str * json)).

(** [int(f)] for a float: truncation toward zero; infinities and NaN raise. *)
Definition float_trunc (f : pyfloat) : result Z :=
  match f with
  | FFinite m e =>
      Ok (if 0 <=? e then m * 2 ^ e else Z.quot m (2 ^ (- e)))
  | FInf _ => Raise OverflowError
  | FNaN => Raise ValueError
  end.

(** The integer a float is equal to, if any. *)
Definition float_integral (f : pyfloat) : option Z :=
  match f with
  | FFinite m e =>
      if 0 <=? e then Some (m * 2 ^ e)
      else if m mod 2 ^ (- e) =? 0 then Some (m / 2 ^ (- e))
      else None
  | _ => None
  end.

(** [==] on floats ([nan != nan]). *)
Definition float_eqb (f g : pyfloat) : bool :=
  match f, g with
  | FFinite m1 e1, FFinite m2 e2 =>
      let e := Z.min e1 e2 in
      m1 * 2 ^ (e1 - e) =? m2 * 2 ^ (e2 - e)
  | FInf a, FInf b => Bool.eqb a b
  | _, _ => false
  end.

(** Lookup in the items of a [dict] decoded from JSON. *)
Fixpoint obj_lookup (k : str) (items : list (str * json)) : option json :=
  match items with
  | [] => None
  | (k', v) :: rest => if str_eqb k' k then Some v else obj_lookup k rest
  end.

(** [v.get(k, default)]: only a [dict] has the method. *)
Definition py_get (v : json) (k : str) (default : json) : result json :=
  match v with
  | JObj items =>
      Ok (match obj_lookup k items with Some x => x | None => default end)
  | _ => Raise AttributeError
  end.

(** [x == 'k'] for an arbitrary decoded value [x]. *)
Definition json_is_str (k : str) (x : json) : bool :=
  match x with JStr s => str_eqb s k | _ => false end.

(** ['k' in v]: key membership for a [dict], element membership for a
    [list], substring test for a [str]; other values are not iterable. *)
Definition py_in (k : str) (v : json) : result bool :=
  match v with
  | JObj items =>
      Ok (match obj_lookup k items with Some _ => true | None => false end)
  | JArr l => Ok (existsb (json_is_str k) l)
  | JStr s => Ok (str_contains s k)
  | _ => Raise TypeError
  end.

(** [v['k']] with a string subscript. *)
Definition py_getitem (v : json) (k : str) : result json :=
  match v with
  | JObj items =>
      match obj_lookup k items with
      | Some x => Ok x
      | None => Raise OtherError
      end
  | _ => Raise TypeError
  end.

(* ====================================================================== *)
(** * Dictionaries keyed by hashable Python values *)
(* ====================================================================== *)

(** Keys up to Python equality: every number equal to an integer is that
    integer ([True] is [1], [2.0] is [2]); [KFloat] holds the other floats. *)
Inductive key :=
| KNone
| KInt (z : Z)
| KStr (s : str)
| KFloat (f : pyfloat).

Definition key_eqb (a b : key) : bool :=
  match a, b with
  | KNone, KNone => true
  | KInt x, KInt y => x =? y
  | KStr s, KStr t => str_eqb s t
  | KFloat f, KFloat g => float_eqb f g
  | _, _ => false
  end.

(** [hash(v)] succeeds: the key under which [v] is stored.  Lists and dicts
    are unhashable. *)
Definition key_of (v : json) : result key :=
  match v with
  | JBool b => Ok (KInt (Z.b2z b))
  | JInt z => Ok (KInt z)
  | JFloat f =>
      Ok (match float_integral f with Some z => KInt z | None => KFloat f end)
  | JStr s => Ok (KStr s)
  | JNull => Ok KNone
  | JArr _ | JObj _ => Raise TypeError
  end.

Definition dict (V : Type) := list (key * V).

Fixpoint dict_get {V} (d : dict V) (k : key) : option V :=
  match d with
  | [] => None
  | (k', v) :: rest => if key_eqb k' k then Some v else dict_get rest k
  end.

(** [d[k] = v]: an existing key keeps its position, a new one is appended.
    Keys are compared with [==] alone, so two [nan] keys are kept apart;
    Python compares identity first and finds again the one [nan] object
    [json.loads] hands out.  Integer keys are not concerned. *)
Fixpoint dict_set {V} (d : dict V) (k : key) (v : V) : dict V :=
  match d with
  | [] => [(k, v)]
  | (k', v') :: rest =>
      if key_eqb k' k then (k', v) :: rest else (k', v') :: dict_set rest k v
  end.

(** [d.update(other)] *)
Definition dict_update {V} (d other : dict V) : dict V :=
  fold_left (fun acc kv => dict_set acc (fst kv) (snd kv)) other d.

(** [d.get(k, default)] *)
Definition dict_get_default {V} (d : dict V) (k : key) (default : V) : V :=
  match dict_get d k with Some v => v | None => default end.

(* ====================================================================== *)
(** * Lists, ranges and slices *)
(* ====================================================================== *)

(** [enumerate(l)] *)
Definition enumerate {A} (l : list A) : list (Z * A) :=
  combine (List.map Z.of_nat (seq 0 (length l))) l.

(** [range(0, stop, step)] *)
Definition range_step (stop step : nat) : list nat :=
  List.map (fun k => (k * step)%nat) (seq 0 ((stop + step - 1) / step)).

(** [l[i:j]] for [0 <= i <= j]. *)
Definition slice {A} (l : list A) (i j : nat) : list A :=
  firstn (j - i) (skipn i l).

(** [[l[i:i + size] for i in range(0, len(l), size)]] *)
Definition chunks {A} (size : nat) (l : list A) : list (list A) :=
  List.map (fun i => slice l i (i + size)) (range_step (length l) size).

(** [l[:n]] for an arbitrary integer [n]: a negative [n] counts from the
    end. *)
Definition slice_to {A} (l : list A) (n : Z) : list A :=
  if 0 <=? n then firstn (Z.to_nat n) l
  else firstn (length l - Z.to_nat (- n)) l.

(** [l.sort(key=key, reverse=True)] and [sorted(l, key=key, reverse=True)]:
    the stable sort by descending key.  [insert_desc] puts an element in
    front of the first one whose key is not greater, so equal keys keep
    their input order; [sort_desc_canonical] shows that every stable
    descending sort returns the same list. *)
Fixpoint insert_desc {A} (key : A -> Z) (x : A) (l : list A) : list A :=
  match l with
  | [] => [x]
  | y :: l' =>
      if key x <? key y then y :: insert_desc key x l' else x :: y :: l'
  end.

Fixpoint sort_desc {A} (key : A -> Z) (l : list A) : list A :=
  match l with
  | [] => []
  | x :: l' => insert_desc key x (sort_desc key l')
  end.

(* ====================================================================== *)
(** * Dates and times *)
(* ====================================================================== *)

(** A [datetime]: [wall] is the number of microseconds from
    1970-01-01T00:00:00 to the date and time its fields show, [tzinfo] the
    UTC offset in microseconds of an aware value ([None] for a naive one). *)
Record datetime := DateTime { wall : Z; tzinfo : option Z }.

(** The instant of an aware [datetime], in microseconds since the epoch. *)
Definition instant_of (w off : Z) : Z := w - off.

(** [d.replace(tzinfo=timezone.utc)]: the fields are kept, the zone is
    overwritten. *)
Definition replace_tzinfo_utc (d : datetime) : datetime :=
  {| wall := wall d; tzinfo := Some 0 |}.

(** [a > b]: two aware values compare by instant, two naive ones by fields;
    mixing them raises. *)
Definition dt_gt (a b : datetime) : result bool :=
  match tzinfo a, tzinfo b with
  | Some oa, Some ob => Ok (instant_of (wall b) ob <? instant_of (wall a) oa)
  | None, None => Ok (wall b <? wall a)
  | _, _ => Raise TypeError
  end.

(** [a - b] as a [timedelta] in microseconds. *)
Definition dt_sub (a b : datetime) : result Z :=
  match tzinfo a, tzinfo b with
  | Some oa, Some ob => Ok (instant_of (wall a) oa - instant_of (wall b) ob)
  | None, None => Ok (wall a - wall b)
  | _, _ => Raise TypeError
  end.

Definition us_per_second : Z := 1000000.
Definition us_per_hour : Z := 3600 * us_per_second.
Definition us_per_day : Z := 24 * us_per_hour.

(** [datetime.now(timezone.utc)] when the clock shows instant [now_us]. *)
Definition utc_now (now_us : Z) : datetime :=
  {| wall := now_us; tzinfo := Some 0 |}.

(** [d - timedelta(hours=h)] *)
Definition minus_hours (d : datetime) (h : Z) : datetime :=
  {| wall := wall d - h * us_per_hour; tzinfo := tzinfo d |}.

(* ====================================================================== *)
(** * Constants and data classes *)
(* ====================================================================== *)

Definition BATCH_SIZE : nat := 10.
Definition MAX_CONCURRENT_REQUESTS : nat := 2.

Definition VALID_CATEGORIES : list str :=
  [lit "ai-ml"; lit "security"; lit "engineering"; lit "tools";
   lit "opinion"; lit "other"].

(** One entry of [RSS_FEEDS]. *)
Record feed_info := FeedInfo { name : str; xmlUrl : str; htmlUrl : str }.

Record Article := MkArticle {
  title : str;
  link : str;
  pub_date : datetime;
  description : str;
  source_name : str;
  source_url : str
}.

(** The score record built in [score_batch]. *)
Record score_data := ScoreData {
  relevance : Z;
  quality : Z;
  timeliness : Z;
  sd_category : str;
  sd_keywords : list json
}.

(** The summary record built in [summarize_batch]; the three values are
    whatever the response carried. *)
Record summary_data := SummaryData {
  titleZh : json;
  sm_summary : json;
  sm_reason : json
}.

Record breakdown := Breakdown { b_relevance : Z; b_quality : Z; b_timeliness : Z }.

Record ScoredArticle := MkScoredArticle {
  sa_title : str;
  sa_link : str;
  sa_pub_date : datetime;
  sa_description : str;
  sa_source_name : str;
  sa_source_url : str;
  score : Z;
  score_breakdown : breakdown;
  category : str;
  keywords : list json;
  title_zh : json;
  summary : json;
  reason : json
}.

(** The entries of [indexed] in [score_articles_with_ai]. *)
Record scoring_item := ScoringItem {
  index : Z;
  i_title : str;
  i_description : str;
  i_sourceName : str
}.

(** The entries of [indexed] in [summarize_articles]. *)
Record summary_item := SummaryItem {
  s_index : Z;
  s_title : str;
  s_description : str;
  s_sourceName : str;
  s_link : str
}.

(** The entries of [scored_articles] in [main_async]. *)
Record scored_entry := ScoredEntry {
  se_article : Article;
  total_score : Z;
  se_score_data : score_data
}.

(** The default score record, written out twice in the source: in the
    handler of [score_batch] and at [scores.get] in [main_async]. *)
Definition default_score : score_data :=
  {| relevance := 5; quality := 5; timeliness := 5;
     sd_category := lit "other"; sd_keywords := [] |}.

Section Program.

Set Default Proof Using "Type".

(* ====================================================================== *)
(** * The outside world *)
(* ====================================================================== *)

(** [int(s)] for a [str] argument; [None] when it raises [ValueError]. *)
Variable int_of_str : str -> option Z.

(** The value of
    [parse_json_response(await ai_client.call(build_scoring_prompt(batch)))],
    or the exception raised on the way (building the prompt, the HTTP call,
    a non-200 status, [json.loads]). *)
Variable scoring_reply : list scoring_item -> result json.

(** The same for
    [parse_json_response(await ai_client.call(build_summary_prompt(batch, lang)))]. *)
Variable summary_reply : str -> list summary_item -> result json.

(* ====================================================================== *)
(** * Scoring stage: [score_articles_with_ai] *)
(* ====================================================================== *)

(** [int(v)] *)
Definition py_int (v : json) : result Z :=
  match v with
  | JInt z => Ok z
  | JBool b => Ok (Z.b2z b)
  | JFloat f => float_trunc f
  | JStr s =>
      match int_of_str s with
      | Some z => Ok z
      | None => Raise ValueError
      end
  | JNull | JArr _ | JObj _ => Raise TypeError
  end.

(** [clamp = lambda v: min(10, max(1, int(v)))] *)
Definition clamp (v : json) : result Z :=
  i <- py_int v ;; Ok (Z.min 10 (Z.max 1 i)).

Definition is_none (v : json) : bool :=
  match v with JNull => true | _ => false end.

(** [if cat not in VALID_CATEGORIES: cat = 'other']; membership in a set
    hashes [cat] first. *)
Definition valid_category (cat : json) : result str :=
  match cat with
  | JStr s =>
      Ok (if existsb (str_eqb s) VALID_CATEGORIES then s else lit "other")
  | JArr _ | JObj _ => Raise TypeError
  | JNull | JBool _ | JInt _ | JFloat _ => Ok (lit "other")
  end.

(** [result.get('keywords', [])[:4] if isinstance(result.get('keywords'), list) else []] *)
Definition keywords_of (entry : json) : result (list json) :=
  kw <- py_get entry (lit "keywords") JNull ;;
  match kw with
  | JArr l => Ok (firstn 4 l)
  | _ => Ok []
  end.

(** The body of [for result in parsed['results']]. *)
Definition score_entry (results : dict score_data) (entry : json)
  : result (dict score_data) :=
  idx <- py_get entry (lit "index") JNull ;;
  if is_none idx then Ok results
  else
    cat <- py_get entry (lit "category") (JStr (lit "other")) ;;
    cat <- valid_category cat ;;
    rel <- (v <- py_get entry (lit "relevance") (JInt 5) ;; clamp v) ;;
    qual <- (v <- py_get entry (lit "quality") (JInt 5) ;; clamp v) ;;
    time <- (v <- py_get entry (lit "timeliness") (JInt 5) ;; clamp v) ;;
    kws <- keywords_of entry ;;
    k <- key_of idx ;;
    Ok (dict_set results k
          {| relevance := rel; quality := qual; timeliness := time;
             sd_category := cat; sd_keywords := kws |}).

(** The [try] block of [score_batch]. *)
Definition score_batch_try (batch : list scoring_item)
  : result (dict score_data) :=
  parsed <- scoring_reply batch ;;
  has <- py_in (lit "results") parsed ;;
  if has then
    rs <- py_getitem parsed (lit "results") ;;
    match rs with
    | JArr l => for_each score_entry l []
    | _ => Ok []
    end
  else Ok [].

(** The [except] block: [{item['index']: default for item in batch}]. *)
Definition default_scores (batch : list scoring_item) : dict score_data :=
  fold_left (fun d item => dict_set d (KInt (index item)) default_score)
    batch [].

Definition score_batch (batch : list scoring_item) : dict score_data :=
  try_except (score_batch_try batch) (default_scores batch).

Definition scoring_indexed (articles : list Article) : list scoring_item :=
  List.map (fun ia =>
         {| index := fst ia; i_title := title (snd ia);
            i_description := description (snd ia);
            i_sourceName := source_name (snd ia) |})
      (enumerate articles).

(** One wave: [asyncio.gather] returns the results in task order, and each
    is merged with [all_scores.update]. *)
Definition merge_wave {V} (all : dict V) (batch_results : list (dict V))
  : dict V :=
  fold_left (fun acc r => dict_update acc r) batch_results all.

Definition score_articles_with_ai (articles : list Article)
  : dict score_data :=
  let batches := chunks BATCH_SIZE (scoring_indexed articles) in
  fold_left
    (fun all_scores batch_group =>
       merge_wave all_scores (List.map score_batch batch_group))
    (chunks MAX_CONCURRENT_REQUESTS batches) [].

(* ====================================================================== *)
(** * Summarisation stage: [summarize_articles] *)
(* ====================================================================== *)

Definition summary_entry (results : dict summary_data) (entry : json)
  : result (dict summary_data) :=
  idx <- py_get entry (lit "index") JNull ;;
  if is_none idx then Ok results
  else
    t <- py_get entry (lit "titleZh") (JStr []) ;;
    s <- py_get entry (lit "summary") (JStr []) ;;
    r <- py_get entry (lit "reason") (JStr []) ;;
    k <- key_of idx ;;
    Ok (dict_set results k {| titleZh := t; sm_summary := s; sm_reason := r |}).

Definition summarize_batch_try (lang : str) (batch : list summary_item)
  : result (dict summary_data) :=
  parsed <- summary_reply lang batch ;;
  has <- py_in (lit "results") parsed ;;
  if has then
    rs <- py_getitem parsed (lit "results") ;;
    match rs with
    | JArr l => for_each summary_entry l []
    | _ => Ok []
    end
  else Ok [].

(** The [except] block:
    [{item['index']: {'titleZh': item['title'], 'summary': item['title'], 'reason': ''} ...}]. *)
Definition fallback_summary (item : summary_item) : summary_data :=
  {| titleZh := JStr (s_title item); sm_summary := JStr (s_title item);
     sm_reason := JStr [] |}.

Definition fallback_summaries (batch : list summary_item)
  : dict summary_data :=
  fold_left (fun d item => dict_set d (KInt (s_index item)) (fallback_summary item))
    batch [].

Definition summarize_batch (lang : str) (batch : list summary_item)
  : dict summary_data :=
  try_except (summarize_batch_try lang batch) (fallback_summaries batch).

Definition summary_indexed (articles : list Article) : list summary_item :=
  List.map (fun ia =>
         {| s_index := fst ia; s_title := title (snd ia);
            s_description := description (snd ia);
            s_sourceName := source_name (snd ia);
            s_link := link (snd ia) |})
      (enumerate articles).

Definition summarize_articles (articles : list Article) (lang : str)
  : dict summary_data :=
  let batches := chunks BATCH_SIZE (summary_indexed articles) in
  fold_left
    (fun summaries batch_group =>
       merge_wave summaries (List.map (summarize_batch lang) batch_group))
    (chunks MAX_CONCURRENT_REQUESTS batches) [].

(* ====================================================================== *)
(** * [main_async]: filter, score, rank, summarise *)
(* ====================================================================== *)

(** [cutoff_time = datetime.now(timezone.utc) - timedelta(hours=args.hours)] *)
Definition cutoff_time (now_us hours : Z) : datetime :=
  minus_hours (utc_now now_us) hours.

(** A list comprehension with a condition that can raise. *)
Fixpoint filter_r {A} (p : A -> result bool) (l : list A) : result (list A) :=
  match l with
  | [] => Ok []
  | a :: l' =>
      keep <- p a ;;
      rest <- filter_r p l' ;;
      Ok (if keep then a :: rest else rest)
  end.

(** [[a for a in all_articles
      if a.pub_date.replace(tzinfo=timezone.utc) > cutoff_time]] *)
Definition recent_articles (now_us hours : Z) (all_articles : list Article)
  : result (list Article) :=
  filter_r (fun a => dt_gt (replace_tzinfo_utc (pub_date a))
                       (cutoff_time now_us hours))
    all_articles.

(** The loop that builds [scored_articles]. *)
Definition scored_articles (recent : list Article) (scores : dict score_data)
  : list scored_entry :=
  List.map (fun ia =>
         let score_data := dict_get_default scores (KInt (fst ia)) default_score in
         {| se_article := snd ia;
            total_score := relevance score_data + quality score_data
                           + timeliness score_data;
            se_score_data := score_data |})
      (enumerate recent).

(** [scored_articles.sort(key=lambda x: x['total_score'], reverse=True)]
    followed by [scored_articles[:args.top_n]]. *)
Definition top_articles_data (scored : list scored_entry) (top_n : Z)
  : list scored_entry :=
  slice_to (sort_desc total_score scored) top_n.

(** The default of [summaries.get(i, ...)] in [main_async]. *)
Definition missing_summary (article : Article) : summary_data :=
  {| titleZh := JStr (title article);
     sm_summary := JStr (str_take 200 (description article));
     sm_reason := JStr [] |}.

(** The loop that builds [final_articles]. *)
Definition final_articles (top : list scored_entry)
  (summaries : dict summary_data) : list ScoredArticle :=
  List.map (fun ii =>
         let item := snd ii in
         let article := se_article item in
         let score_data := se_score_data item in
         let sm := dict_get_default summaries (KInt (fst ii))
                     (missing_summary article) in
         {| sa_title := title article;
            sa_link := link article;
            sa_pub_date := pub_date article;
            sa_description := description article;
            sa_source_name := source_name article;
            sa_source_url := source_url article;
            score := total_score item;
            score_breakdown :=
              {| b_relevance := relevance score_data;
                 b_quality := quality score_data;
                 b_timeliness := timeliness score_data |};
            category := sd_category score_data;
            keywords := sd_keywords score_data;
            title_zh := titleZh sm;
            summary := sm_summary sm;
            reason := sm_reason sm |})
      (enumerate top).

(** Steps 3 and 4 of [main_async] chained: from the time-filtered articles
    to the list handed to the report renderer. *)
Definition curate (recent : list Article) (top_n : Z) (lang : str)
  : list ScoredArticle :=
  let scores := score_articles_with_ai recent in
  let top := top_articles_data (scored_articles recent scores) top_n in
  let summaries := summarize_articles (List.map se_article top) lang in
  final_articles top summaries.

(* ====================================================================== *)
(** * Utility functions of the feed parser *)
(* ====================================================================== *)

(** [html.unescape] *)
Variable html_unescape : str -> str.

(** The value of a character matched by the pattern [\d] (a Unicode decimal
    digit), [None] for every other character. *)
Variable decimal_digit : N -> option Z.

(** [re.sub(r'<[^>]*>', '', text)]: a [<] opens a match when a [>] follows
    somewhere; the match ends at the first [>]. *)
Fixpoint remove_tags_from (inside : bool) (s : str) : str :=
  match s with
  | [] => []
  | c :: s' =>
      if inside then
        if (c =? 62)%N then remove_tags_from false s'
        else remove_tags_from true s'
      else if (c =? 60)%N && existsb (N.eqb 62) s' then
        remove_tags_from true s'
      else c :: remove_tags_from false s'
  end.

Definition remove_tags (s : str) : str := remove_tags_from false s.

(** [chr(code)] *)
Definition py_chr (code : Z) : result str :=
  if code <? 1114112 then Ok [Z.to_N code]
  else if code <=? 2147483647 then Raise ValueError
  else Raise OverflowError.

(** The longest run of digits at the head of [s]: its value read in base
    ten ([int(m.group(1))]), its length and the rest of [s].  The bound
    recent interpreters put on the number of digits [int] accepts is not
    modelled. *)
Fixpoint read_digits (s : str) (acc : Z) (n : nat) : Z * nat * str :=
  match s with
  | c :: s' =>
      match decimal_digit c with
      | Some d => read_digits s' (10 * acc + d) (S n)
      | None => (acc, n, s)
      end
  | [] => (acc, n, [])
  end.

(** A match of [&#(\d+);] at the head of [s]: the number and the length of
    the match. *)
Definition match_numeric (s : str) : option (Z * nat) :=
  match strip_prefix (lit "&#") s with
  | Some s' =>
      match read_digits s' 0 0 with
      | (v, S n, c :: _) => if (c =? 59)%N then Some (v, (n + 4)%nat) else None
      | _ => None
      end
  | None => None
  end.

(** [re.sub(r'&#(\d+);', decode_numeric, text)]; [skip] counts the
    characters of the current match still to be consumed. *)
Fixpoint sub_numeric (skip : nat) (s : str) : result str :=
  match s with
  | [] => Ok []
  | c :: s' =>
      match skip with
      | S k => sub_numeric k s'
      | O =>
          match match_numeric s with
          | Some (code, len) =>
              ch <- py_chr code ;;
              rest <- sub_numeric (len - 1) s' ;;
              Ok (ch ++ rest)
          | None =>
              rest <- sub_numeric 0 s' ;;
              Ok (c :: rest)
          end
      end
  end.

Definition strip_html (text : str) : result str :=
  let text := remove_tags text in
  let text := html_unescape text in
  text <- sub_numeric 0 text ;;
  Ok (strip text).

(** [re.search(r'<!\[CDATA\[([\s\S]*?)\]\]>', text)] *)
Definition extract_cdata (text : str) : str :=
  match find_sub (lit "<![CDATA[") text with
  | Some (_, rest) =>
      match find_sub (lit "]]>") rest with
      | Some (inner, _) => inner
      | None => text
      end
  | None => text
  end.

(** An [xml.etree.ElementTree.Element]; tags carry their namespace in
    Clark notation, [{uri}local]. *)
Inductive element :=
| Element (tag : str) (attrib : list (str * str)) (text : option str)
    (children : list element).

Definition el_tag (e : element) : str :=
  match e with Element t _ _ _ => t end.
Definition el_attrib (e : element) : list (str * str) :=
  match e with Element _ a _ _ => a end.
Definition el_text (e : element) : option str :=
  match e with Element _ _ t _ => t end.
Definition el_children (e : element) : list element :=
  match e with Element _ _ _ c => c end.

(** [ET.fromstring] on the text [fetch_feed] hands to the parser; [None]
    when it raises [ET.ParseError].  That text comes from
    [decode('utf-8', errors='ignore')] and so holds no surrogate code
    point; on a [str] that holds one [ET.fromstring] raises
    [UnicodeEncodeError], an outcome left out here. *)
Variable ET_fromstring : str -> option element.

(** [element.findall(tag)] and [element.find(tag)] for a plain tag: the
    direct children that carry it. *)
Definition findall (e : element) (tag : str) : list element :=
  filter (fun c => str_eqb (el_tag c) tag) (el_children e).

Definition find (e : element) (tag : str) : option element :=
  match findall e tag with
  | c :: _ => Some c
  | [] => None
  end.

(** [f'{{{namespace}}}{tag_name}'] *)
Definition qualified (namespace tag_name : str) : str :=
  lit "{" ++ namespace ++ lit "}" ++ tag_name.

(** [element.findall(name, {'': namespace} if namespace else {})], the
    default namespace being applied to the unprefixed [name], and the
    repeated lookup that follows it in the source.  Tags are compared
    literally: the wildcard reading ElementTree gives the namespace [*]
    (a document that declares [xmlns='*']) is left out. *)
Definition findall_ns (e : element) (name namespace : str) : list element :=
  let found :=
    findall e (if nonempty namespace then qualified namespace name else name) in
  if negb (nonempty found) && nonempty namespace
  then findall e (qualified namespace name)
  else found.

(** [element.get(attr_name, '')] *)
Fixpoint attr_lookup (attrs : list (str * str)) (attr_name : str) : str :=
  match attrs with
  | [] => []
  | (k, v) :: rest => if str_eqb k attr_name then v else attr_lookup rest attr_name
  end.

Definition el_get (e : element) (attr_name : str) : str :=
  attr_lookup (el_attrib e) attr_name.

Definition get_tag_content (e : element) (tag_name namespace : str) : str :=
  let tag_name :=
    if nonempty namespace then qualified namespace tag_name else tag_name in
  match find e tag_name with
  | Some child =>
      match el_text child with
      | Some t => if nonempty t then extract_cdata t else []
      | None => []
      end
  | None => []
  end.

(** [datetime.strptime(date_str, fmt)]; [None] when it raises
    [ValueError]. *)
Variable strptime : str -> str -> option datetime.

(** [email.utils.parsedate_to_datetime]; [None] when it raises. *)
Variable parsedate_to_datetime : str -> option datetime.

Definition date_formats : list str :=
  [lit "%a, %d %b %Y %H:%M:%S %Z";
   lit "%a, %d %b %Y %H:%M:%S %z";
   lit "%a, %d %b %Y %H:%M:%S";
   lit "%Y-%m-%dT%H:%M:%S%z";
   lit "%Y-%m-%dT%H:%M:%SZ";
   lit "%Y-%m-%dT%H:%M:%S";
   lit "%Y-%m-%d"].

Fixpoint try_formats (date_str : str) (formats : list str) : option datetime :=
  match formats with
  | [] => None
  | fmt :: rest =>
      match strptime date_str fmt with
      | Some d => Some d
      | None => try_formats date_str rest
      end
  end.

Definition parse_date (date_str : str) : option datetime :=
  if nonempty date_str then
    match try_formats date_str date_formats with
    | Some d => Some d
    | None => parsedate_to_datetime date_str
    end
  else None.

(* ====================================================================== *)
(** * Feed parser: [parse_feed_xml] *)
(* ====================================================================== *)

(** The instant [datetime.now(timezone.utc)] shows when entry number [k] of
    a feed is parsed. *)
Variable now_reading : feed_info -> nat -> Z.

(** The [for link_elem in link_elems] loop of the Atom branch, with its
    [break]. *)
Fixpoint atom_link (link_elems : list element) : str :=
  match link_elems with
  | [] => []
  | link_elem :: rest =>
      let rel := el_get link_elem (lit "rel") in
      let href := el_get link_elem (lit "href") in
      if nonempty href && (str_eqb rel (lit "alternate") || negb (nonempty rel))
      then href
      else atom_link rest
  end.

Definition date_or_now (feed : feed_info) (k : nat) (pub_date_str : str)
  : datetime :=
  match parse_date pub_date_str with
  | Some d => d
  | None => utc_now (now_reading feed k)
  end.

(** One iteration of [for entry in entries]: the article appended, if
    any. *)
Definition parse_atom_entry (feed : feed_info) (namespace : str)
  (k : nat) (entry : element) : result (option Article) :=
  title <- strip_html (get_tag_content entry (lit "title") namespace) ;;
  let link := atom_link (findall_ns entry (lit "link") namespace) in
  let pub_date_str :=
    str_or (get_tag_content entry (lit "published") namespace)
           (get_tag_content entry (lit "updated") namespace) in
  let pub_date := date_or_now feed k pub_date_str in
  description <-
    strip_html (str_or (get_tag_content entry (lit "summary") namespace)
                       (get_tag_content entry (lit "content") namespace)) ;;
  let description := str_take 500 description in
  Ok (if nonempty title || nonempty link then
        Some {| title := title; link := link; pub_date := pub_date;
                description := description; source_name := name feed;
                source_url := htmlUrl feed |}
      else None).

(** One iteration of [for item in items]. *)
Definition parse_rss_item (feed : feed_info) (namespace : str)
  (k : nat) (item : element) : result (option Article) :=
  title <- strip_html (get_tag_content item (lit "title") namespace) ;;
  let link :=
    str_or (get_tag_content item (lit "link") namespace)
           (get_tag_content item (lit "guid") namespace) in
  let pub_date_str :=
    str_or (get_tag_content item (lit "pubDate") namespace)
      (str_or (get_tag_content item (lit "dc:date") namespace)
              (get_tag_content item (lit "date") namespace)) in
  let pub_date := date_or_now feed k pub_date_str in
  let description :=
    if nonempty namespace then
      match find item (qualified namespace (lit "content")) with
      | Some content_elem =>
          match el_text content_elem with
          | Some t => t
          | None => []
          end
      | None => []
      end
    else [] in
  let description :=
    str_or description (get_tag_content item (lit "description") namespace) in
  description <- strip_html description ;;
  let description := str_take 500 description in
  Ok (if nonempty title || nonempty link then
        Some {| title := title; link := link; pub_date := pub_date;
                description := description; source_name := name feed;
                source_url := htmlUrl feed |}
      else None).

(** A loop that appends to [articles]. *)
Fixpoint collect {A B} (body : nat -> A -> result (option B)) (k : nat)
  (l : list A) : result (list B) :=
  match l with
  | [] => Ok []
  | a :: l' =>
      r <- body k a ;;
      rest <- collect body (S k) l' ;;
      Ok (match r with Some b => b :: rest | None => rest end)
  end.

(** [s.index(c)] *)
Fixpoint str_index (s : str) (c : N) : option nat :=
  match s with
  | [] => None
  | x :: s' =>
      if (x =? c)%N then Some O
      else match str_index s' c with Some i => Some (S i) | None => None end
  end.

(** [namespace = root.tag[1:root.tag.index('}')]] when the tag starts with
    a brace. *)
Definition namespace_of (root_tag : str) : result str :=
  if startswith root_tag (lit "{") then
    match str_index root_tag 125 with
    | Some i => Ok (slice root_tag 1 i)
    | None => Raise ValueError
    end
  else Ok [].

Definition parse_feed_xml (xml_content : str) (feed : feed_info)
  : result (list Article) :=
  match ET_fromstring xml_content with
  | None => Ok []
  | Some root =>
      let is_atom :=
        endswith (el_tag root) (lit "feed")
        || str_contains (el_tag root) (lit "http://www.w3.org/2005/Atom") in
      namespace <- namespace_of (el_tag root) ;;
      if is_atom then
        collect (parse_atom_entry feed namespace) 0
          (findall_ns root (lit "entry") namespace)
      else
        collect (parse_rss_item feed namespace) 0
          (findall_ns root (lit "item") namespace)
  end.

(* ====================================================================== *)
(** * Feed fetcher: [fetch_feed], [fetch_all_feeds] *)
(* ====================================================================== *)

(** The document [urlopen] delivers for a feed, decoded: [Some] when the
    request completes with status 200, [None] when it raises ([HTTPError],
    [URLError], a timeout, any other exception). *)
Variable http_fetch : feed_info -> option str.

Definition fetch_feed (feed : feed_info) : list Article :=
  match http_fetch feed with
  | Some xml_content => try_except (parse_feed_xml xml_content feed) []
  | None => []
  end.

(** [completed] is the order in which [as_completed] yields the futures, one
    per feed of the catalog. *)
Definition fetch_all_feeds (completed : list feed_info)
  : list Article * Z * Z :=
  fold_left
    (fun acc feed =>
       let '(all_articles, success_count, fail_count) := acc in
       let articles := fetch_feed feed in
       if nonempty articles
       then (all_articles ++ articles, success_count + 1, fail_count)
       else (all_articles, success_count, fail_count + 1))
    completed ([], 0, 0).

(* ====================================================================== *)
(** * Report renderer: [humanize_time], [generate_digest_report] *)
(* ====================================================================== *)

(** The four shapes of the string [humanize_time] returns: minutes, hours
    or days ago, or the date [pub_date.strftime('%Y-%m-%d')], kept as the
    day number of the fields of [pub_date]. *)
Inductive age :=
| MinutesAgo (n : Z)
| HoursAgo (n : Z)
| DaysAgo (n : Z)
| OnDate (day : Z).

(** [diff_mins = int(diff.total_seconds() / 60)] truncates toward zero;
    [//] rounds down.  The quotient is taken exactly: the two float
    divisions of the source give the same minutes for every age a float
    holds to the microsecond (below 2^53 microseconds, some 285 years). *)
Definition humanize_time (now_us : Z) (pub_date : datetime) : result age :=
  let now := utc_now now_us in
  let pub_date :=
    match tzinfo pub_date with
    | None => replace_tzinfo_utc pub_date
    | Some _ => pub_date
    end in
  diff <- dt_sub now pub_date ;;
  let diff_mins := Z.quot diff (60 * us_per_second) in
  let diff_hours := diff_mins / 60 in
  let diff_days := diff_hours / 24 in
  Ok (if diff_mins <? 60 then MinutesAgo diff_mins
      else if diff_hours <? 24 then HoursAgo diff_hours
      else if diff_days <? 7 then DaysAgo diff_days
      else OnDate (wall pub_date / us_per_day)).

(** The report as the sequence of pieces appended to it; each piece stands
    for the text the source formats from the values it carries. *)
Inductive block :=
| Heading (total_feeds : Z) (top : nat)
| Highlights (text : str)
| ShowcaseHeading
| ShowcaseEntry (i : nat) (a : ScoredArticle)
| ShowcaseEnd
| CategoryHeading (cat_id : str)
| ListEntry (global_index : nat) (score_total : Z) (a : ScoredArticle)
| Footer.

(** [if a.category not in cat_groups: cat_groups[a.category] = []]
    then [cat_groups[a.category].append(a)]. *)
Fixpoint group_add (cat_groups : list (str * list ScoredArticle))
  (a : ScoredArticle) : list (str * list ScoredArticle) :=
  match cat_groups with
  | [] => [(category a, [a])]
  | (c, members) :: rest =>
      if str_eqb c (category a) then (c, members ++ [a]) :: rest
      else (c, members) :: group_add rest a
  end.

Definition cat_groups (articles : list ScoredArticle)
  : list (str * list ScoredArticle) :=
  fold_left group_add articles [].

(** [sorted(cat_groups.items(), key=lambda x: len(x[1]), reverse=True)] *)
Definition sorted_cats (articles : list ScoredArticle)
  : list (str * list ScoredArticle) :=
  sort_desc (fun g => Z.of_nat (length (snd g))) (cat_groups articles).

Definition score_total_of (a : ScoredArticle) : Z :=
  b_relevance (score_breakdown a) + b_quality (score_breakdown a)
  + b_timeliness (score_breakdown a).

(** [for a in cat_articles], [global_index] being the count so far. *)
Fixpoint list_entries (global_index : nat) (cat_articles : list ScoredArticle)
  : list block :=
  match cat_articles with
  | [] => []
  | a :: rest =>
      ListEntry (S global_index) (score_total_of a) a
      :: list_entries (S global_index) rest
  end.

(** [for cat_id, cat_articles in sorted_cats] *)
Fixpoint category_sections (global_index : nat)
  (cats : list (str * list ScoredArticle)) : list block :=
  match cats with
  | [] => []
  | (cat_id, cat_articles) :: rest =>
      CategoryHeading cat_id
      :: list_entries global_index cat_articles
      ++ category_sections (global_index + length cat_articles) rest
  end.

(** [for i in range(min(3, len(articles)))] *)
Definition showcase_entries (articles : list ScoredArticle) : list block :=
  List.map (fun ia => ShowcaseEntry (fst ia) (snd ia))
    (combine (seq 0 (Nat.min 3 (length articles))) articles).

Definition generate_digest_report (articles : list ScoredArticle)
  (highlights : str) (total_feeds : Z) : list block :=
  [Heading total_feeds (length articles)]
  ++ (if nonempty highlights then [Highlights highlights] else [])
  ++ (if (3 <=? length articles)%nat
      then ShowcaseHeading :: showcase_entries articles ++ [ShowcaseEnd]
      else [])
  ++ category_sections 0 (sorted_cats articles)
  ++ [Footer].

(** What a reader finds in a report: the articles of the showcase, and the
    category sections with the articles listed under each heading. *)
Fixpoint showcase_of (report : list block) : list ScoredArticle :=
  match report with
  | [] => []
  | ShowcaseEntry _ a :: rest => a :: showcase_of rest
  | _ :: rest => showcase_of rest
  end.

Fixpoint listed_of (report : list block) : list ScoredArticle :=
  match report with
  | [] => []
  | ListEntry _ _ a :: rest => a :: listed_of rest
  | _ :: rest => listed_of rest
  end.

(** The list entries at the head of [report], up to the next piece of
    another kind. *)
Fixpoint leading_entries (report : list block) : list ScoredArticle :=
  match report with
  | ListEntry _ _ a :: rest => a :: leading_entries rest
  | _ => []
  end.

Fixpoint sections_of (report : list block) : list (str * list ScoredArticle) :=
  match report with
  | [] => []
  | CategoryHeading c :: rest => (c, leading_entries rest) :: sections_of rest
  | _ :: rest => sections_of rest
  end.

(** The highlights sections of a report. *)
Fixpoint highlights_of (report : list block) : list str :=
  match report with
  | [] => []
  | Highlights text :: rest => text :: highlights_of rest
  | _ :: rest => highlights_of rest
  end.

(* ====================================================================== *)
(** * Properties: lists, slices and dictionaries *)
(* ====================================================================== *)

Lemma str_eqb_eq (a b : str) : str_eqb a b = true <-> a = b.
Proof.
  revert b. induction a as [|x a IH]; intros [|y b]; simpl; split;
    intros H; try discriminate; auto.
  - apply andb_true_iff in H. destruct H as (Hx & Hab).
    apply N.eqb_eq in Hx. apply IH in Hab. now subst.
  - inversion H; subst. rewrite N.eqb_refl. simpl. now apply IH.
Qed.

Lemma str_eqb_refl (a : str) : str_eqb a a = true.
Proof. now apply str_eqb_eq. Qed.

Lemma str_eqb_sym (a b : str) : str_eqb a b = str_eqb b a.
Proof.
  destruct (str_eqb a b) eqn:E, (str_eqb b a) eqn:E'; auto.
  - apply str_eqb_eq in E. subst. now rewrite str_eqb_refl in E'.
  - apply str_eqb_eq in E'. subst. now rewrite str_eqb_refl in E.
Qed.

Lemma str_eqb_neq (a b : str) : str_eqb a b = false <-> a <> b.
Proof.
  split; intros H.
  - intros ->. now rewrite str_eqb_refl in H.
  - destruct (str_eqb a b) eqn:E; auto. apply str_eqb_eq in E. contradiction.
Qed.

Lemma bind_ok {A B} (r : result A) (k : A -> result B) (b : B) :
  bind r k = Ok b -> exists a, r = Ok a /\ k a = Ok b.
Proof.
  destruct r as [a|e]; simpl; intros H; [exists a; auto | discriminate].
Qed.

Ltac bind_inv H :=
  let a := fresh "x" in
  let Ha := fresh "Hx" in
  apply bind_ok in H; destruct H as (a & Ha & H).

Lemma in_enumerate {A} (l : list A) (i : Z) (a : A) :
  In (i, a) (enumerate l) -> In a l.
Proof.
  unfold enumerate. intros H. eapply in_combine_r; eauto.
Qed.

Lemma enumerate_length {A} (l : list A) : length (enumerate l) = length l.
Proof.
  unfold enumerate. rewrite length_combine, length_map, length_seq.
  apply Nat.min_id.
Qed.

Lemma map_snd_combine {A B} (l1 : list A) (l2 : list B) :
  length l1 = length l2 -> List.map snd (combine l1 l2) = l2.
Proof.
  revert l2; induction l1 as [|x l1 IH]; intros [|y l2] H; simpl in *;
    try discriminate; auto.
  f_equal. apply IH. lia.
Qed.

Lemma map_snd_enumerate {A} (l : list A) : List.map snd (enumerate l) = l.
Proof.
  unfold enumerate. apply map_snd_combine.
  now rewrite length_map, length_seq.
Qed.

Lemma nth_error_combine_seq {A} (l : list A) (s i : nat) (a : A) :
  nth_error l i = Some a ->
  nth_error (combine (List.map Z.of_nat (seq s (length l))) l) i
  = Some (Z.of_nat (s + i), a).
Proof.
  revert s i. induction l as [|x l IH]; intros s [|i] H; simpl in *;
    try discriminate.
  - inversion H; subst. now rewrite Nat.add_0_r.
  - rewrite (IH (S s) i H). do 3 f_equal. lia.
Qed.

Lemma nth_error_enumerate {A} (l : list A) (i : nat) (a : A) :
  nth_error l i = Some a ->
  nth_error (enumerate l) i = Some (Z.of_nat i, a).
Proof.
  intros H. unfold enumerate. now rewrite (nth_error_combine_seq l 0 i H).
Qed.

Lemma in_firstn {A} (n : nat) (l : list A) (a : A) :
  In a (firstn n l) -> In a l.
Proof.
  intros H. rewrite <- (firstn_skipn n l). apply in_or_app. now left.
Qed.

Lemma in_slice_to {A} (l : list A) (n : Z) (a : A) :
  In a (slice_to l n) -> In a l.
Proof.
  unfold slice_to. destruct (0 <=? n); apply in_firstn.
Qed.

Lemma in_insert_desc {A} (key : A -> Z) (x a : A) (l : list A) :
  In a (insert_desc key x l) <-> a = x \/ In a l.
Proof.
  induction l as [|y l IH]; simpl.
  - intuition.
  - destruct (key x <? key y); simpl; rewrite ?IH; intuition.
Qed.

Lemma in_sort_desc {A} (key : A -> Z) (a : A) (l : list A) :
  In a (sort_desc key l) <-> In a l.
Proof.
  induction l as [|x l IH]; simpl; [tauto|].
  rewrite in_insert_desc, IH. intuition.
Qed.

(** Every value stored in a dictionary. *)
Definition dict_all {V} (P : V -> Prop) (d : dict V) : Prop :=
  Forall (fun kv => P (snd kv)) d.

Lemma dict_all_set {V} (P : V -> Prop) (d : dict V) (k : key) (v : V) :
  dict_all P d -> P v -> dict_all P (dict_set d k v).
Proof.
  unfold dict_all. induction d as [|[k' v'] d IH]; simpl; intros Hd Hv.
  - constructor; auto.
  - inversion Hd; subst. destruct (key_eqb k' k); constructor; auto.
Qed.

Lemma dict_all_update {V} (P : V -> Prop) (d other : dict V) :
  dict_all P d -> dict_all P other -> dict_all P (dict_update d other).
Proof.
  unfold dict_update. revert d.
  induction other as [|[k v] other IH]; simpl; intros d Hd Ho; auto.
  inversion Ho; subst. apply IH; auto. apply dict_all_set; auto.
Qed.

Lemma dict_all_get {V} (P : V -> Prop) (d : dict V) (k : key) (v : V) :
  dict_all P d -> dict_get d k = Some v -> P v.
Proof.
  unfold dict_all. induction d as [|[k' v'] d IH]; simpl; intros Hd Hg.
  - discriminate.
  - inversion Hd; subst. destruct (key_eqb k' k); auto.
    inversion Hg; subst; auto.
Qed.

Lemma dict_all_get_default {V} (P : V -> Prop) (d : dict V) (k : key)
  (default : V) :
  dict_all P d -> P default -> P (dict_get_default d k default).
Proof.
  unfold dict_get_default. intros Hd Hdef.
  destruct (dict_get d k) eqn:E; auto. eapply dict_all_get; eauto.
Qed.

Lemma dict_all_merge_wave {V} (P : V -> Prop) (rs : list (dict V)) :
  forall all, dict_all P all -> Forall (dict_all P) rs ->
    dict_all P (merge_wave all rs).
Proof.
  unfold merge_wave. induction rs as [|r rs IH]; simpl; intros all Ha Hr; auto.
  inversion Hr; subst. apply IH; auto. apply dict_all_update; auto.
Qed.

Lemma dict_all_waves {V A} (P : V -> Prop) (f : A -> dict V)
  (waves : list (list A)) :
  (forall a, dict_all P (f a)) ->
  forall all, dict_all P all ->
    dict_all P (fold_left (fun acc g => merge_wave acc (List.map f g)) waves all).
Proof.
  intros Hf. induction waves as [|g waves IH]; simpl; intros all Ha; auto.
  apply IH. apply dict_all_merge_wave; auto.
  apply Forall_forall. intros r Hr. apply in_map_iff in Hr.
  destruct Hr as (a & <- & _). apply Hf.
Qed.

Lemma for_each_invariant {A S} (I : S -> Prop) (body : S -> A -> result S)
  (l : list A) :
  (forall s a s', I s -> body s a = Ok s' -> I s') ->
  forall s s', I s -> for_each body l s = Ok s' -> I s'.
Proof.
  intros Hb. induction l as [|a l IH]; simpl; intros s s' Hs H.
  - inversion H; subst; auto.
  - bind_inv H. eauto.
Qed.

(* ====================================================================== *)
(** * Properties of the scoring stage *)
(* ====================================================================== *)

(** The three dimensions of a score record lie in [1, 10]. *)
Definition in_range (sd : score_data) : Prop :=
  1 <= relevance sd <= 10 /\ 1 <= quality sd <= 10
  /\ 1 <= timeliness sd <= 10.

(** A score record as the scoring stage stores it: dimensions in range, a
    category of the closed set, at most four keywords. *)
Definition normalised (sd : score_data) : Prop :=
  in_range sd
  /\ In (sd_category sd) VALID_CATEGORIES
  /\ (length (sd_keywords sd) <= 4)%nat.

Lemma clamp_range (v : json) (z : Z) : clamp v = Ok z -> 1 <= z <= 10.
Proof.
  unfold clamp. intros H. bind_inv H. inversion H; subst. lia.
Qed.

Lemma valid_category_in_set (cat : json) (c : str) :
  valid_category cat = Ok c -> In c VALID_CATEGORIES.
Proof.
  assert (Hother : In (lit "other") VALID_CATEGORIES)
    by (unfold VALID_CATEGORIES; do 5 right; now left).
  unfold valid_category.
  destruct cat as [| b | z | f | s | l | items]; intros H;
    try discriminate; try (inversion H; subst; exact Hother).
  destruct (existsb (str_eqb s) VALID_CATEGORIES) eqn:E;
    inversion H; subst; [|exact Hother].
  apply existsb_exists in E. destruct E as (c' & Hin & Heq).
  apply str_eqb_eq in Heq. rewrite Heq. exact Hin.
Qed.

Lemma keywords_of_length (entry : json) (kws : list json) :
  keywords_of entry = Ok kws -> (length kws <= 4)%nat.
Proof.
  unfold keywords_of. intros H. bind_inv H.
  destruct x; injection H as <-; try (simpl; lia).
  exact (firstn_le_length 4 l).
Qed.

Lemma default_score_normalised : normalised default_score.
Proof.
  unfold normalised, in_range, default_score; simpl.
  split; [lia|]. split; [|lia].
  unfold VALID_CATEGORIES. do 5 right. now left.
Qed.

Lemma score_entry_normalised (results results' : dict score_data)
  (entry : json) :
  dict_all normalised results -> score_entry results entry = Ok results' ->
  dict_all normalised results'.
Proof.
  unfold score_entry. intros Hr H.
  bind_inv H. destruct (is_none x).
  - inversion H; subst; auto.
  - do 2 bind_inv H.
    bind_inv H. bind_inv Hx2.
    bind_inv H. bind_inv Hx4.
    bind_inv H. bind_inv Hx6.
    do 2 bind_inv H.
    inversion H; subst. apply dict_all_set; auto.
    unfold normalised, in_range; simpl.
    split; [repeat split; eapply clamp_range; eauto|].
    split; [eapply valid_category_in_set; eauto|].
    eapply keywords_of_length; eauto.
Qed.

Lemma default_scores_all (P : score_data -> Prop) (batch : list scoring_item) :
  P default_score -> dict_all P (default_scores batch).
Proof.
  intros Hd. unfold default_scores.
  assert (G : forall d, dict_all P d ->
    dict_all P (fold_left
      (fun d item => dict_set d (KInt (index item)) default_score) batch d)).
  { induction batch as [|item batch IH]; simpl; intros d Hdd; auto.
    apply IH. apply dict_all_set; auto. }
  apply G. constructor.
Qed.

Lemma score_batch_normalised (batch : list scoring_item) :
  dict_all normalised (score_batch batch).
Proof.
  unfold score_batch, try_except.
  destruct (score_batch_try batch) as [r|e] eqn:E.
  - unfold score_batch_try in E.
    do 2 bind_inv E. destruct x0.
    + bind_inv E. destruct x0; try (inversion E; subst; constructor).
      eapply for_each_invariant with (I := dict_all normalised); eauto.
      * intros; eapply score_entry_normalised; eauto.
      * constructor.
    + inversion E; subst. constructor.
  - apply default_scores_all, default_score_normalised.
Qed.

Lemma score_articles_normalised (articles : list Article) :
  dict_all normalised (score_articles_with_ai articles).
Proof.
  unfold score_articles_with_ai.
  apply dict_all_waves; [apply score_batch_normalised | constructor].
Qed.

(** Every entry of [scored_articles] carries the sum of the three
    dimensions of a normalised record. *)
Definition sound_entry (e : scored_entry) : Prop :=
  total_score e = relevance (se_score_data e) + quality (se_score_data e)
                  + timeliness (se_score_data e)
  /\ normalised (se_score_data e).

Lemma scored_articles_sound (recent : list Article) (scores : dict score_data)
  (e : scored_entry) :
  dict_all normalised scores -> In e (scored_articles recent scores) ->
  sound_entry e.
Proof.
  unfold scored_articles. intros Hs He.
  apply in_map_iff in He. destruct He as ([i a] & <- & _).
  split; simpl; auto.
  apply dict_all_get_default; auto. apply default_score_normalised.
Qed.

Lemma curate_sound (recent : list Article) (top_n : Z) (lang : str)
  (a : ScoredArticle) :
  In a (curate recent top_n lang) ->
  exists e, sound_entry e
            /\ score a = total_score e
            /\ score_breakdown a
               = {| b_relevance := relevance (se_score_data e);
                    b_quality := quality (se_score_data e);
                    b_timeliness := timeliness (se_score_data e) |}
            /\ category a = sd_category (se_score_data e)
            /\ keywords a = sd_keywords (se_score_data e).
Proof.
  unfold curate, final_articles. intros H.
  apply in_map_iff in H. destruct H as ([i item] & <- & Hin).
  apply in_enumerate in Hin. unfold top_articles_data in Hin.
  apply in_slice_to, in_sort_desc in Hin.
  apply scored_articles_sound in Hin; [|apply score_articles_normalised].
  exists item. simpl. auto.
Qed.

(** C1.  Every article handed to the report renderer has a total score equal
    to the sum of its relevance, quality and timeliness, each of which lies
    in [1, 10], whatever the AI replied (values out of range, of another
    type, or an exception): so the total lies in [3, 30], and it is the
    total the renderer prints. *)
Theorem total_score_is_sum_of_clamped_dimensions
  (recent : list Article) (top_n : Z) (lang : str) (a : ScoredArticle) :
  In a (curate recent top_n lang) ->
  score a = b_relevance (score_breakdown a) + b_quality (score_breakdown a)
            + b_timeliness (score_breakdown a)
  /\ 1 <= b_relevance (score_breakdown a) <= 10
  /\ 1 <= b_quality (score_breakdown a) <= 10
  /\ 1 <= b_timeliness (score_breakdown a) <= 10
  /\ 3 <= score a <= 30
  /\ score_total_of a = score a.
Proof.
  intros H. apply curate_sound in H.
  destruct H as (e & (Hsum & (Hr & Hq & Ht) & _) & Hscore & Hb & _).
  unfold score_total_of. rewrite Hscore, Hb, Hsum; simpl.
  repeat split; lia.
Qed.

(** Every article handed to the report renderer has a category of the closed
    set and at most four keywords. *)
Theorem category_in_closed_set_keywords_capped
  (recent : list Article) (top_n : Z) (lang : str) (a : ScoredArticle) :
  In a (curate recent top_n lang) ->
  In (category a) VALID_CATEGORIES /\ (length (keywords a) <= 4)%nat.
Proof.
  intros H. apply curate_sound in H.
  destruct H as (e & (_ & _ & Hc & Hk) & _ & _ & -> & ->). auto.
Qed.

(* ====================================================================== *)
(** * Properties: lookups, batches and waves *)
(* ====================================================================== *)

Lemma key_eqb_int (k : key) (i : Z) : key_eqb k (KInt i) = true <-> k = KInt i.
Proof.
  destruct k; simpl; split; intros H; try discriminate.
  - apply Z.eqb_eq in H. now subst.
  - inversion H. apply Z.eqb_refl.
Qed.

Lemma key_eqb_int_trans (k k' : key) (i : Z) :
  key_eqb k' k = true -> key_eqb k' (KInt i) = key_eqb k (KInt i).
Proof.
  intros H.
  destruct (key_eqb k (KInt i)) eqn:E.
  - apply key_eqb_int in E. subst k. exact H.
  - destruct (key_eqb k' (KInt i)) eqn:E'; auto.
    apply key_eqb_int in E'. subst k'.
    destruct k; simpl in *; try discriminate.
    now rewrite Z.eqb_sym, H in E.
Qed.

Lemma dict_get_set_int {V} (d : dict V) (k : key) (v : V) (i : Z) :
  dict_get (dict_set d k v) (KInt i)
  = if key_eqb k (KInt i) then Some v else dict_get d (KInt i).
Proof.
  induction d as [|[k' v'] d IH]; simpl.
  - reflexivity.
  - destruct (key_eqb k' k) eqn:E; simpl.
    + rewrite (key_eqb_int_trans _ _ i E).
      now destruct (key_eqb k (KInt i)).
    + rewrite IH. destruct (key_eqb k' (KInt i)) eqn:E'; auto.
      destruct (key_eqb k (KInt i)) eqn:E''; auto.
      apply key_eqb_int in E', E''. subst.
      simpl in E. now rewrite Z.eqb_refl in E.
Qed.

Lemma dict_get_update_none {V} (other d : dict V) (i : Z) :
  dict_get other (KInt i) = None ->
  dict_get (dict_update d other) (KInt i) = dict_get d (KInt i).
Proof.
  unfold dict_update. revert d.
  induction other as [|[k v] other IH]; simpl; intros d H; auto.
  destruct (key_eqb k (KInt i)) eqn:E; [discriminate|].
  rewrite IH by assumption. now rewrite dict_get_set_int, E.
Qed.

Lemma dict_get_update_some {V} (other d : dict V) (i : Z) :
  dict_get other (KInt i) <> None ->
  exists v, In (KInt i, v) other
            /\ dict_get (dict_update d other) (KInt i) = Some v.
Proof.
  unfold dict_update. revert d.
  induction other as [|[k v] other IH]; simpl; intros d H.
  - congruence.
  - destruct (dict_get other (KInt i)) eqn:E.
    + destruct (IH (dict_set d k v)) as (w & Hw & Hg); [congruence|].
      exists w; auto.
    + exists v.
      pose proof (dict_get_update_none other (dict_set d k v) i E) as Hn.
      unfold dict_update in Hn. rewrite Hn, dict_get_set_int.
      destruct (key_eqb k (KInt i)) eqn:Ek; [|congruence].
      apply key_eqb_int in Ek. subst k. auto.
Qed.

Lemma dict_set_entries {V} (d : dict V) (j : Z) (v : V) (k0 : key) (v0 : V) :
  In (k0, v0) (dict_set d (KInt j) v) ->
  In (k0, v0) d \/ (k0 = KInt j /\ v0 = v).
Proof.
  induction d as [|[k' v'] d IH]; simpl; intros H.
  - destruct H as [H|[]]. inversion H; auto.
  - destruct (key_eqb k' (KInt j)) eqn:E; simpl in H.
    + apply key_eqb_int in E. subst k'.
      destruct H as [H|H]; [inversion H; auto | auto].
    + destruct H as [H|H]; auto. destruct (IH H); auto.
Qed.

(** The entries of a dictionary comprehension. *)
Lemma fold_set_entries {A V} (idx : A -> Z) (val : A -> V) (l : list A)
  (k0 : key) (v0 : V) :
  forall d,
    In (k0, v0)
      (fold_left (fun d x => dict_set d (KInt (idx x)) (val x)) l d) ->
    In (k0, v0) d \/ exists x, In x l /\ k0 = KInt (idx x) /\ v0 = val x.
Proof.
  induction l as [|y l IH]; simpl; intros d H; auto.
  destruct (IH _ H) as [Hd|(x & Hx & Hk & Hv)].
  - destruct (dict_set_entries _ _ _ _ _ Hd) as [Hd'|(Hk & Hv)]; auto.
    right. exists y. auto.
  - right. exists x. auto.
Qed.

Lemma dict_all_values {V} (P : V -> Prop) (d : dict V) (v : V) :
  dict_all P d -> In v (List.map snd d) -> P v.
Proof.
  unfold dict_all. intros Hd Hv. apply in_map_iff in Hv.
  destruct Hv as (kv & <- & Hin). rewrite Forall_forall in Hd. auto.
Qed.

(** A dictionary comprehension keyed by the index of every item. *)
Lemma dict_get_fold_set {A V} (idx : A -> Z) (val : A -> V) (l : list A)
  (i : Z) :
  In i (List.map idx l) ->
  forall d, exists b, In b l /\ idx b = i /\
    dict_get (fold_left (fun d x => dict_set d (KInt (idx x)) (val x)) l d)
      (KInt i) = Some (val b).
Proof.
  induction l as [|x l IH]; simpl; intros Hi d; [tauto|].
  destruct (in_dec Z.eq_dec i (List.map idx l)) as [Hin|Hout].
  - destruct (IH Hin (dict_set d (KInt (idx x)) (val x))) as (b & Hb & Hib & Hg).
    exists b. auto.
  - destruct Hi as [Hi|Hi]; [|tauto].
    exists x. split; auto. split; auto.
    assert (G : forall d',
      dict_get (fold_left (fun d x => dict_set d (KInt (idx x)) (val x)) l d')
        (KInt i) = dict_get d' (KInt i)).
    { clear IH. induction l as [|y l IHl]; simpl; intros d'; auto.
      rewrite IHl.
      - rewrite dict_get_set_int. simpl.
        destruct (idx y =? i) eqn:E; auto.
        apply Z.eqb_eq in E. exfalso. apply Hout. simpl. auto.
      - intros Hc. apply Hout. simpl. auto. }
    rewrite G, dict_get_set_int. simpl. rewrite Hi. now rewrite Z.eqb_refl.
Qed.

Lemma firstn_add {A} (a b : nat) (l : list A) :
  firstn (a + b) l = firstn a l ++ firstn b (skipn a l).
Proof.
  revert l. induction a as [|a IH]; intros l; simpl; auto.
  destruct l as [|x l]; simpl.
  - now rewrite firstn_nil.
  - now rewrite IH.
Qed.

Lemma concat_chunks_upto {A} (size : nat) (l : list A) (m : nat) :
  concat (List.map (fun i => slice l i (i + size))
            (List.map (fun k => (k * size)%nat) (seq 0 m)))
  = firstn (m * size) l.
Proof.
  induction m as [|m IH].
  - reflexivity.
  - rewrite seq_S, !map_app, concat_app, IH. simpl.
    rewrite app_nil_r. unfold slice.
    replace (m * size + size - m * size)%nat with size by lia.
    replace (size + m * size)%nat with (m * size + size)%nat by lia.
    now rewrite firstn_add.
Qed.

(** The batches partition the list, in order. *)
Lemma concat_chunks {A} (size : nat) (l : list A) :
  (0 < size)%nat -> concat (chunks size l) = l.
Proof.
  intros Hs. unfold chunks, range_step. rewrite concat_chunks_upto.
  apply firstn_all2.
  pose proof (Nat.div_mod_eq (length l + size - 1) size) as E.
  pose proof (Nat.mod_upper_bound (length l + size - 1) size) as U.
  nia.
Qed.

Lemma in_some_chunk {A} (size : nat) (l : list A) (a : A) :
  (0 < size)%nat -> In a l ->
  exists batch, In batch (chunks size l) /\ In a batch.
Proof.
  intros Hs Ha. rewrite <- (concat_chunks l Hs) in Ha.
  apply in_concat in Ha. destruct Ha as (batch & Hb & Hin). eauto.
Qed.

Lemma fold_waves {V A} (f : A -> dict V) (waves : list (list A)) :
  forall all,
    fold_left (fun acc g => merge_wave acc (List.map f g)) waves all
    = fold_left (fun acc r => dict_update acc r) (List.map f (concat waves)) all.
Proof.
  induction waves as [|g waves IH]; simpl; intros all; auto.
  rewrite IH, map_app, fold_left_app. reflexivity.
Qed.

(** The waves merge the batch results one after the other, in batch
    order. *)
Lemma score_articles_as_fold (articles : list Article) :
  score_articles_with_ai articles
  = fold_left (fun acc r => dict_update acc r)
      (List.map score_batch (chunks BATCH_SIZE (scoring_indexed articles))) [].
Proof.
  unfold score_articles_with_ai. rewrite fold_waves, concat_chunks; auto.
  unfold MAX_CONCURRENT_REQUESTS. lia.
Qed.

Lemma fold_update_none {V} (rs : list (dict V)) (i : Z) :
  Forall (fun r => dict_get r (KInt i) = None) rs ->
  forall all,
    dict_get (fold_left (fun acc r => dict_update acc r) rs all) (KInt i)
    = dict_get all (KInt i).
Proof.
  induction rs as [|r rs IH]; simpl; intros H all; auto.
  inversion H; subst. rewrite IH by assumption.
  now apply dict_get_update_none.
Qed.

Lemma default_scores_lookup (batch : list scoring_item) (item : scoring_item) :
  In item batch ->
  dict_get (default_scores batch) (KInt (index item)) = Some default_score.
Proof.
  intros Hin. unfold default_scores.
  destruct (dict_get_fold_set index (fun _ => default_score) batch
              (index item) (in_map index _ _ Hin) []) as (b & _ & _ & Hg).
  exact Hg.
Qed.

Lemma score_batch_raise (batch : list scoring_item) (e : exn) :
  score_batch_try batch = Raise e -> score_batch batch = default_scores batch.
Proof. unfold score_batch. now intros ->. Qed.

Lemma scored_articles_articles (recent : list Article)
  (scores : dict score_data) :
  List.map se_article (scored_articles recent scores) = recent.
Proof.
  unfold scored_articles. rewrite map_map. simpl.
  apply map_snd_enumerate.
Qed.

Lemma scored_articles_nth (recent : list Article) (scores : dict score_data)
  (i : nat) (a : Article) :
  nth_error recent i = Some a ->
  nth_error (scored_articles recent scores) i
  = Some (let sd := dict_get_default scores (KInt (Z.of_nat i)) default_score in
          {| se_article := a;
             total_score := relevance sd + quality sd + timeliness sd;
             se_score_data := sd |}).
Proof.
  intros H. unfold scored_articles.
  erewrite map_nth_error; [|apply nth_error_enumerate; eassumption].
  reflexivity.
Qed.

Lemma scoring_indexed_nth (recent : list Article) (i : nat) (a : Article) :
  nth_error recent i = Some a ->
  exists item, In item (scoring_indexed recent) /\ index item = Z.of_nat i.
Proof.
  intros H. unfold scoring_indexed.
  eexists. split.
  - eapply nth_error_In. eapply map_nth_error.
    apply nth_error_enumerate. eassumption.
  - reflexivity.
Qed.

(** The number of entries of [d] stored under the integer key [i]. *)
Definition count_int {V} (i : Z) (d : dict V) : nat :=
  length (filter (fun kv => key_eqb (fst kv) (KInt i)) d).

(** A dictionary built by assignments holds every integer key once. *)
Definition single_keys {V} (d : dict V) : Prop :=
  forall i, (count_int i d <= 1)%nat.

Lemma count_int_set {V} (d : dict V) (k : key) (v : V) (i : Z) :
  count_int i (dict_set d k v) = count_int i d
  \/ (count_int i d = 0%nat /\ key_eqb k (KInt i) = true
      /\ count_int i (dict_set d k v) = 1%nat).
Proof.
  unfold count_int. induction d as [|[k' v'] d IH]; simpl.
  - destruct (key_eqb k (KInt i)) eqn:E; simpl; auto.
  - destruct (key_eqb k' k) eqn:E; simpl.
    + left. now destruct (key_eqb k' (KInt i)).
    + destruct IH as [IH|(I0 & Ik & I1)].
      * left. destruct (key_eqb k' (KInt i)); simpl; now rewrite IH.
      * destruct (key_eqb k' (KInt i)) eqn:E'.
        -- exfalso. apply key_eqb_int in E', Ik. subst.
           simpl in E. rewrite Z.eqb_refl in E. discriminate.
        -- right. auto.
Qed.

Lemma single_keys_set {V} (d : dict V) (k : key) (v : V) :
  single_keys d -> single_keys (dict_set d k v).
Proof.
  intros H i. specialize (H i).
  destruct (count_int_set d k v i) as [E|(_ & _ & E)]; rewrite E; lia.
Qed.

Lemma single_keys_nil {V} : single_keys (@nil (key * V)).
Proof. intros i. unfold count_int. simpl. lia. Qed.

Lemma count_int_zero {V} (d : dict V) (i : Z) :
  count_int i d = 0%nat -> dict_get d (KInt i) = None.
Proof.
  unfold count_int. induction d as [|[k v] d IH]; simpl; auto.
  destruct (key_eqb k (KInt i)); simpl; [discriminate|exact IH].
Qed.

(** [d.update(other)], seen from one integer key. *)
Lemma dict_get_update_single {V} (other d : dict V) (i : Z) :
  (count_int i other <= 1)%nat ->
  dict_get (dict_update d other) (KInt i)
  = match dict_get other (KInt i) with
    | Some v => Some v
    | None => dict_get d (KInt i)
    end.
Proof.
  unfold dict_update. revert d.
  induction other as [|[k v] other IH]; intros d H; [reflexivity|].
  unfold count_int in H. simpl in H. simpl.
  destruct (key_eqb k (KInt i)) eqn:E; simpl in H.
  - assert (Z0 : count_int i other = 0%nat) by (unfold count_int; lia).
    pose proof (@dict_get_update_none V other (dict_set d k v) i
                  (count_int_zero other i Z0)) as Hn.
    unfold dict_update in Hn. rewrite Hn, dict_get_set_int, E. reflexivity.
  - rewrite IH by exact H. now rewrite dict_get_set_int, E.
Qed.

(** What the last of [results] that reports index [i] holds for it. *)
Fixpoint last_report {V} (i : Z) (results : list (dict V)) : option V :=
  match results with
  | [] => None
  | r :: rest =>
      match last_report i rest with
      | Some v => Some v
      | None => dict_get r (KInt i)
      end
  end.

Lemma fold_update_last {V} (i : Z) (rs : list (dict V)) :
  Forall single_keys rs ->
  forall all,
    dict_get (fold_left (fun acc r => dict_update acc r) rs all) (KInt i)
    = match last_report i rs with
      | Some v => Some v
      | None => dict_get all (KInt i)
      end.
Proof.
  induction rs as [|r rs IH]; intros H all; [reflexivity|].
  inversion H as [|? ? Hr Hrs]; subst. simpl.
  rewrite (IH Hrs), (dict_get_update_single r all i (Hr i)).
  destruct (last_report i rs); [reflexivity|].
  now destruct (dict_get r (KInt i)).
Qed.

Lemma last_report_app {V} (i : Z) (l1 l2 : list (dict V)) :
  last_report i (l1 ++ l2)
  = match last_report i l2 with
    | Some v => Some v
    | None => last_report i l1
    end.
Proof.
  induction l1 as [|r l1 IH]; simpl.
  - now destruct (last_report i l2).
  - rewrite IH. now destruct (last_report i l2).
Qed.

Lemma last_report_none {V} (i : Z) (l : list (dict V)) :
  Forall (fun r => dict_get r (KInt i) = None) l -> last_report i l = None.
Proof.
  induction 1 as [|r l Hr Hl IH]; simpl; auto. now rewrite IH.
Qed.

Lemma single_keys_fold_set {A V} (idx : A -> Z) (val : A -> V) (l : list A) :
  forall d, single_keys d ->
    single_keys (fold_left (fun d x => dict_set d (KInt (idx x)) (val x)) l d).
Proof.
  induction l as [|x l IH]; simpl; intros d H; auto.
  apply IH, single_keys_set, H.
Qed.

Lemma score_entry_single (results results' : dict score_data) (entry : json) :
  single_keys results -> score_entry results entry = Ok results' ->
  single_keys results'.
Proof.
  unfold score_entry. intros Hr H.
  bind_inv H. destruct (is_none x).
  - inversion H; subst; auto.
  - do 7 bind_inv H. inversion H; subst. apply single_keys_set, Hr.
Qed.

Lemma score_batch_single (batch : list scoring_item) :
  single_keys (score_batch batch).
Proof.
  unfold score_batch, try_except.
  destruct (score_batch_try batch) as [r|e] eqn:E.
  - unfold score_batch_try in E.
    do 2 bind_inv E. destruct x0.
    + bind_inv E.
      destruct x0; try (inversion E; subst; apply single_keys_nil).
      eapply for_each_invariant with (I := @single_keys score_data); eauto.
      * intros; eapply score_entry_single; eauto.
      * apply single_keys_nil.
    + inversion E; subst. apply single_keys_nil.
  - unfold default_scores. apply single_keys_fold_set, single_keys_nil.
Qed.

Lemma summary_entry_single (results results' : dict summary_data)
  (entry : json) :
  single_keys results -> summary_entry results entry = Ok results' ->
  single_keys results'.
Proof.
  unfold summary_entry. intros Hr H.
  bind_inv H. destruct (is_none x).
  - inversion H; subst; auto.
  - do 4 bind_inv H. inversion H; subst. apply single_keys_set, Hr.
Qed.

Lemma summarize_batch_single (lang : str) (batch : list summary_item) :
  single_keys (summarize_batch lang batch).
Proof.
  unfold summarize_batch, try_except.
  destruct (summarize_batch_try lang batch) as [r|e] eqn:E.
  - unfold summarize_batch_try in E.
    do 2 bind_inv E. destruct x0.
    + bind_inv E.
      destruct x0; try (inversion E; subst; apply single_keys_nil).
      eapply for_each_invariant with (I := @single_keys summary_data); eauto.
      * intros; eapply summary_entry_single; eauto.
      * apply single_keys_nil.
    + inversion E; subst. apply single_keys_nil.
  - unfold fallback_summaries. apply single_keys_fold_set, single_keys_nil.
Qed.

(** The entry [scored_articles] builds for article [a] from the record
    [sd]. *)
Definition entry_with (a : Article) (sd : score_data) : scored_entry :=
  {| se_article := a;
     total_score := relevance sd + quality sd + timeliness sd;
     se_score_data := sd |}.

Lemma scores_lookup (recent : list Article) (i : Z) :
  dict_get (score_articles_with_ai recent) (KInt i)
  = last_report i
      (List.map score_batch (chunks BATCH_SIZE (scoring_indexed recent))).
Proof.
  rewrite score_articles_as_fold, fold_update_last.
  - now destruct (last_report i _).
  - apply Forall_forall. intros r Hr. apply in_map_iff in Hr.
    destruct Hr as (b & <- & _). apply score_batch_single.
Qed.

(** C2, as the code has it.  [scored_articles] has one entry per input
    article, in input order, and every input index is sent in one batch.
    A batch whose AI call raises (while building the prompt, calling or
    parsing) maps, in its own result, every one of its indices to the
    default score record (5, 5, 5, "other", no keywords).  The batch
    results are merged by index, a later batch overwriting an earlier one,
    and no index of a reply is checked against the batch that was sent.  So
    the record consumed for article [i] is the one reported by the last
    batch, in batch order, whose result has an entry for [i], and the
    default record when no batch has one.  The default of a raising batch
    reaches the consumer when no later batch reports that index; a record
    a later batch reports for it replaces the default. *)
Theorem consumed_score_is_last_report_or_default (recent : list Article) :
  let batches := chunks BATCH_SIZE (scoring_indexed recent) in
  let scores := score_articles_with_ai recent in
  let scored := scored_articles recent scores in
  List.map se_article scored = recent
  /\ (forall i a, nth_error recent i = Some a ->
        exists batch item,
          In batch batches /\ In item batch /\ index item = Z.of_nat i)
  /\ (forall batch e item,
        score_batch_try batch = Raise e -> In item batch ->
        dict_get (score_batch batch) (KInt (index item)) = Some default_score)
  /\ (forall i a, nth_error recent i = Some a ->
        nth_error scored i
        = Some (entry_with a
                  match last_report (Z.of_nat i)
                          (List.map score_batch batches) with
                  | Some sd => sd
                  | None => default_score
                  end))
  /\ (forall pre batch post sd i a,
        batches = pre ++ batch :: post ->
        dict_get (score_batch batch) (KInt (Z.of_nat i)) = Some sd ->
        Forall (fun later => dict_get (score_batch later) (KInt (Z.of_nat i)) = None)
          post ->
        nth_error recent i = Some a ->
        nth_error scored i = Some (entry_with a sd))
  /\ (forall pre batch post e item i a,
        batches = pre ++ batch :: post ->
        score_batch_try batch = Raise e ->
        In item batch -> index item = Z.of_nat i ->
        Forall (fun later => dict_get (score_batch later) (KInt (Z.of_nat i)) = None)
          post ->
        nth_error recent i = Some a ->
        nth_error scored i = Some (entry_with a default_score)).
Proof.
  intros batches scores scored.
  assert (Hnth : forall i a, nth_error recent i = Some a ->
            nth_error scored i
            = Some (entry_with a
                      match last_report (Z.of_nat i)
                              (List.map score_batch batches) with
                      | Some sd => sd
                      | None => default_score
                      end)).
  { intros i a H. subst scored. rewrite (scored_articles_nth _ _ _ H).
    unfold dict_get_default, scores. rewrite scores_lookup. reflexivity. }
  assert (Hraise : forall batch e item,
            score_batch_try batch = Raise e -> In item batch ->
            dict_get (score_batch batch) (KInt (index item))
            = Some default_score).
  { intros batch e item Hr Hin. rewrite (score_batch_raise _ Hr).
    now apply default_scores_lookup. }
  assert (Hlast : forall pre batch post sd i a,
            batches = pre ++ batch :: post ->
            dict_get (score_batch batch) (KInt (Z.of_nat i)) = Some sd ->
            Forall (fun later =>
                      dict_get (score_batch later) (KInt (Z.of_nat i)) = None)
              post ->
            nth_error recent i = Some a ->
            nth_error scored i = Some (entry_with a sd)).
  { intros pre batch post sd i a Hsplit Hb Hpost H.
    rewrite (Hnth i a H), Hsplit, map_app, last_report_app. simpl.
    rewrite last_report_none.
    - now rewrite Hb.
    - apply Forall_forall. intros r Hr. apply in_map_iff in Hr.
      destruct Hr as (later & <- & Hin).
      rewrite Forall_forall in Hpost. auto. }
  split; [apply scored_articles_articles|].
  split.
  { intros i a H. destruct (scoring_indexed_nth recent i H) as (item & Hin & Hi).
    destruct (in_some_chunk (size := BATCH_SIZE) (scoring_indexed recent) item)
      as (batch & Hb & Hib); auto.
    - unfold BATCH_SIZE; lia.
    - exists batch, item. auto. }
  split; [exact Hraise|].
  split; [exact Hnth|].
  split; [exact Hlast|].
  intros pre batch post e item i a Hsplit Hr Hin Hidx Hpost H.
  apply (Hlast pre batch post default_score i a Hsplit); auto.
  rewrite <- Hidx. exact (Hraise batch e item Hr Hin).
Qed.

(* ====================================================================== *)
(** * Properties of ranking *)
(* ====================================================================== *)

Lemma StronglySorted_R_ext_local {A} (R1 R2 : A -> A -> Prop) (l : list A) :
  (forall a b, R1 a b -> R2 a b) -> StronglySorted R1 l -> StronglySorted R2 l.
Proof.
  intros H. induction 1 as [|a l Hs IH Hall]; constructor; auto.
  eapply Forall_impl; [|exact Hall]. auto.
Qed.

Section SortDesc.

Context {A : Type} (key : A -> Z).

Lemma insert_desc_perm (x : A) (l : list A) :
  Permutation (insert_desc key x l) (x :: l).
Proof.
  induction l as [|y l IH]; simpl; auto.
  destruct (key x <? key y); auto.
  rewrite IH. apply perm_swap.
Qed.

Lemma sort_desc_perm (l : list A) : Permutation (sort_desc key l) l.
Proof.
  induction l as [|x l IH]; simpl; auto.
  rewrite insert_desc_perm. now constructor.
Qed.

Lemma sort_desc_length (l : list A) : length (sort_desc key l) = length l.
Proof. apply Permutation_length, sort_desc_perm. Qed.

(** [descending a b]: [a] may stand before [b]. *)
Definition descending (a b : A) : Prop := key b <= key a.

Lemma insert_desc_sorted (x : A) (l : list A) :
  StronglySorted descending l -> StronglySorted descending (insert_desc key x l).
Proof.
  induction l as [|y l IH]; simpl; intros Hs.
  - repeat constructor.
  - apply StronglySorted_inv in Hs. destruct Hs as (Hs & Hy).
    destruct (key x <? key y) eqn:E.
    + apply Z.ltb_lt in E. constructor; auto.
      apply Forall_forall. intros z Hz. apply in_insert_desc in Hz.
      destruct Hz as [->|Hz]; [unfold descending; lia|].
      rewrite Forall_forall in Hy. auto.
    + apply Z.ltb_ge in E. constructor.
      * constructor; auto.
      * constructor; [exact E|].
        eapply Forall_impl; [|exact Hy]. unfold descending. intros; lia.
Qed.

Lemma sort_desc_sorted (l : list A) : StronglySorted descending (sort_desc key l).
Proof.
  induction l as [|x l IH]; simpl; [constructor|].
  now apply insert_desc_sorted.
Qed.

Lemma sorted_pairwise (l : list A) :
  StronglySorted descending l ->
  forall l1 x l2 y l3, l = l1 ++ x :: l2 ++ y :: l3 -> key y <= key x.
Proof.
  intros Hs l1. revert l Hs.
  induction l1 as [|z l1 IH]; intros l Hs x l2 y l3 ->; simpl in Hs;
    apply StronglySorted_inv in Hs; destruct Hs as (Hs & Hall).
  - rewrite Forall_forall in Hall. apply Hall.
    apply in_or_app. right. now left.
  - eapply IH; eauto.
Qed.

Lemma insert_desc_filter (s : Z) (x : A) (l : list A) :
  filter (fun a => key a =? s) (insert_desc key x l)
  = filter (fun a => key a =? s) (x :: l).
Proof.
  induction l as [|y l IH]; simpl; auto.
  destruct (key x <? key y) eqn:E; simpl; auto.
  rewrite IH. simpl.
  destruct (key x =? s) eqn:Ex, (key y =? s) eqn:Ey; auto.
  apply Z.ltb_lt in E. apply Z.eqb_eq in Ex, Ey. lia.
Qed.

(** Stability: the elements of any one key keep their input order. *)
Lemma sort_desc_stable (s : Z) (l : list A) :
  filter (fun a => key a =? s) (sort_desc key l)
  = filter (fun a => key a =? s) l.
Proof.
  induction l as [|x l IH]; simpl; auto.
  rewrite insert_desc_filter. simpl. now rewrite IH.
Qed.

Lemma filter_key_in (s : Z) (l : list A) (x : A) :
  In x l -> key x = s -> In x (filter (fun a => key a =? s) l).
Proof. intros Hin Hk. apply filter_In. split; auto. now apply Z.eqb_eq. Qed.

Lemma sorted_head_max (x : A) (l : list A) (z : A) :
  StronglySorted descending (x :: l) -> In z (x :: l) -> key z <= key x.
Proof.
  intros Hs Hz. apply StronglySorted_inv in Hs. destruct Hs as (_ & Hall).
  destruct Hz as [->|Hz]; [lia|].
  rewrite Forall_forall in Hall. now apply Hall.
Qed.

(** A descending list is determined by the elements of each key in their
    order: there is one stable descending sort of a list. *)
Lemma stable_descending_unique (l1 l2 : list A) :
  StronglySorted descending l1 -> StronglySorted descending l2 ->
  (forall s, filter (fun a => key a =? s) l1 = filter (fun a => key a =? s) l2) ->
  l1 = l2.
Proof.
  revert l2. induction l1 as [|x l1 IH]; intros l2 Hs1 Hs2 Hf.
  - destruct l2 as [|y l2]; auto.
    specialize (Hf (key y)). simpl in Hf. rewrite Z.eqb_refl in Hf.
    discriminate.
  - destruct l2 as [|y l2].
    { specialize (Hf (key x)). simpl in Hf. rewrite Z.eqb_refl in Hf.
      discriminate. }
    assert (Hxy : key x <= key y).
    { apply (sorted_head_max Hs2).
      eapply proj1. apply filter_In. rewrite <- (Hf (key x)).
      apply filter_key_in; [now left | reflexivity]. }
    assert (Hyx : key y <= key x).
    { apply (sorted_head_max Hs1).
      eapply proj1. apply filter_In. rewrite (Hf (key y)).
      apply filter_key_in; [now left | reflexivity]. }
    assert (Hk : key y = key x) by lia.
    pose proof (Hf (key x)) as Hh. simpl in Hh.
    rewrite Hk, Z.eqb_refl in Hh. inversion Hh; subst y.
    f_equal. apply IH.
    + now apply StronglySorted_inv in Hs1.
    + now apply StronglySorted_inv in Hs2.
    + intros s. specialize (Hf s). simpl in Hf.
      destruct (key x =? s); [now inversion Hf | exact Hf].
Qed.

(** Any sort that is descending and stable returns what [sort_desc]
    returns. *)
Lemma sort_desc_canonical (l sorted : list A) :
  StronglySorted descending sorted ->
  (forall s, filter (fun a => key a =? s) sorted
             = filter (fun a => key a =? s) l) ->
  sorted = sort_desc key l.
Proof.
  intros Hs Hf. apply stable_descending_unique; auto.
  - apply sort_desc_sorted.
  - intros s. now rewrite Hf, sort_desc_stable.
Qed.

End SortDesc.

(** C3.  Ranking sorts the scored articles by descending total score with a
    stable sort (an article with a strictly greater total never stands
    behind one with a smaller total, and articles of equal total keep their
    input order) and then selects the first N, which is the whole list when
    fewer than N articles are available. *)
Theorem ranking_is_stable_descending_top_n
  (scored : list scored_entry) (top_n : Z) :
  0 <= top_n ->
  let ranked := sort_desc total_score scored in
  Permutation ranked scored
  /\ (forall l1 x l2 y l3,
        ranked = l1 ++ x :: l2 ++ y :: l3 -> total_score y <= total_score x)
  /\ (forall l1 x l2 y l3,
        ranked = l1 ++ x :: l2 ++ y :: l3 -> ~ total_score x < total_score y)
  /\ (forall s,
        filter (fun e => total_score e =? s) ranked
        = filter (fun e => total_score e =? s) scored)
  /\ top_articles_data scored top_n = firstn (Z.to_nat top_n) ranked
  /\ (Z.of_nat (length scored) <= top_n ->
      top_articles_data scored top_n = ranked).
Proof.
  intros Hn ranked.
  assert (Hp : forall l1 x l2 y l3,
             ranked = l1 ++ x :: l2 ++ y :: l3 -> total_score y <= total_score x).
  { apply sorted_pairwise, sort_desc_sorted. }
  assert (Ht : top_articles_data scored top_n = firstn (Z.to_nat top_n) ranked).
  { unfold top_articles_data, slice_to.
    destruct (0 <=? top_n) eqn:E; auto. apply Z.leb_gt in E. lia. }
  split; [apply sort_desc_perm|].
  split; [exact Hp|].
  split; [intros l1 x l2 y l3 H Hlt; specialize (Hp _ _ _ _ _ H); lia|].
  split; [intros s; apply sort_desc_stable|].
  split; [exact Ht|].
  intros Hlen. rewrite Ht. apply firstn_all2.
  unfold ranked. rewrite sort_desc_length. lia.
Qed.

(* ====================================================================== *)
(** * Properties of the time filter and of [humanize_time] *)
(* ====================================================================== *)

(** The instant a [datetime] denotes, in microseconds since the epoch: an
    aware value is its fields minus its UTC offset, a naive one is read as
    UTC. *)
Definition instant (d : datetime) : Z :=
  match tzinfo d with
  | Some off => instant_of (wall d) off
  | None => wall d
  end.

(** The time filter in the words of the specification: the articles whose
    publish timestamp is strictly after (now - window). *)
Definition published_after_cutoff (now_us hours : Z) (all : list Article)
  : list Article :=
  filter (fun a => instant (cutoff_time now_us hours) <? instant (pub_date a))
    all.

(** The string [humanize_time] builds from the age [diff] (microseconds) and
    the fields of the publication date. *)
Definition age_of (diff fields : Z) : age :=
  let diff_mins := Z.quot diff (60 * us_per_second) in
  let diff_hours := diff_mins / 60 in
  let diff_days := diff_hours / 24 in
  if diff_mins <? 60 then MinutesAgo diff_mins
  else if diff_hours <? 24 then HoursAgo diff_hours
  else if diff_days <? 7 then DaysAgo diff_days
  else OnDate (fields / us_per_day).

Lemma filter_r_ok {A} (p : A -> result bool) (q : A -> bool) (l : list A) :
  (forall a, p a = Ok (q a)) -> filter_r p l = Ok (filter q l).
Proof.
  intros H. induction l as [|a l IH]; simpl; auto.
  rewrite H, IH. simpl. now destruct (q a).
Qed.

(** The comparison of the filter never raises, and reads the fields of the
    publication date only. *)
Lemma recent_articles_by_fields (now_us hours : Z) (all : list Article) :
  recent_articles now_us hours all
  = Ok (filter (fun a => now_us - hours * us_per_hour <? wall (pub_date a)) all).
Proof.
  unfold recent_articles. apply filter_r_ok. intros a.
  unfold dt_gt, replace_tzinfo_utc, cutoff_time, minus_hours, utc_now,
    instant_of; simpl.
  now rewrite !Z.sub_0_r.
Qed.

(** On naive and on UTC timestamps the filter keeps exactly the articles
    published strictly after the cutoff. *)
Lemma recent_articles_utc (now_us hours : Z) (all : list Article) :
  (forall a, In a all ->
     tzinfo (pub_date a) = None \/ tzinfo (pub_date a) = Some 0) ->
  recent_articles now_us hours all
  = Ok (published_after_cutoff now_us hours all).
Proof.
  intros H. rewrite recent_articles_by_fields. f_equal.
  unfold published_after_cutoff. apply filter_ext_in. intros a Ha.
  unfold instant, cutoff_time, minus_hours, utc_now, instant_of; simpl.
  destruct (H a Ha) as [-> | ->]; now rewrite ?Z.sub_0_r.
Qed.

Lemma recent_articles_strict (now_us hours : Z) (all kept : list Article)
  (a : Article) :
  recent_articles now_us hours all = Ok kept ->
  (In a kept <-> In a all /\ now_us - hours * us_per_hour < wall (pub_date a)).
Proof.
  rewrite recent_articles_by_fields. intros H. inversion H; subst.
  rewrite filter_In, Z.ltb_lt. tauto.
Qed.

Lemma humanize_time_age (now_us : Z) (d : datetime) :
  humanize_time now_us d = Ok (age_of (now_us - instant d) (wall d)).
Proof.
  unfold humanize_time, instant, age_of, dt_sub, utc_now, replace_tzinfo_utc,
    instant_of.
  destruct d as [w [off|]]; simpl; now rewrite !Z.sub_0_r.
Qed.

(** The ages for which [humanize_time] stands for the source: the source
    divides in floating point ([diff.total_seconds() / 60]), which gives
    the exact whole minutes as long as the age, in microseconds, is below
    2^53 (some 285 years) in absolute value. *)
Definition exact_age (diff : Z) : Prop := Z.abs diff < 2 ^ 53.



(* ====================================================================== *)
(** * Properties of the summarisation stage *)
(* ====================================================================== *)

Lemma nodup_map_eq {A B} (f : A -> B) (l : list A) (a b : A) :
  NoDup (List.map f l) -> In a l -> In b l -> f a = f b -> a = b.
Proof.
  induction l as [|x l IH]; simpl; intros Hn Ha Hb Hf; [tauto|].
  inversion Hn as [|? ? Hx Hn']; subst.
  destruct Ha as [->|Ha], Hb as [->|Hb]; auto.
  - exfalso. apply Hx. rewrite Hf. now apply in_map.
  - exfalso. apply Hx. rewrite <- Hf. now apply in_map.
Qed.

Lemma dict_get_fold_set_nodup {A V} (idx : A -> Z) (val : A -> V)
  (l : list A) (a : A) :
  NoDup (List.map idx l) -> In a l ->
  dict_get (fold_left (fun d x => dict_set d (KInt (idx x)) (val x)) l [])
    (KInt (idx a)) = Some (val a).
Proof.
  intros Hn Ha.
  destruct (dict_get_fold_set idx val l (idx a) (in_map idx _ _ Ha) [])
    as (b & Hb & Hi & Hg).
  rewrite Hg. f_equal. f_equal. eapply nodup_map_eq; eauto.
Qed.

Lemma nodup_slice {A} (l : list A) (i j : nat) :
  NoDup l -> NoDup (slice l i j).
Proof.
  unfold slice. intros H.
  rewrite <- (firstn_skipn i l) in H. apply NoDup_app_remove_l in H.
  rewrite <- (firstn_skipn (j - i) (skipn i l)) in H.
  now apply NoDup_app_remove_r in H.
Qed.

Lemma map_slice {A B} (f : A -> B) (l : list A) (i j : nat) :
  List.map f (slice l i j) = slice (List.map f l) i j.
Proof. unfold slice. now rewrite skipn_map, firstn_map. Qed.

Lemma nodup_chunk {A B} (f : A -> B) (size : nat) (l batch : list A) :
  NoDup (List.map f l) -> In batch (chunks size l) -> NoDup (List.map f batch).
Proof.
  unfold chunks. intros Hn Hb. apply in_map_iff in Hb.
  destruct Hb as (i & <- & _). rewrite map_slice. now apply nodup_slice.
Qed.

Lemma map_fst_enumerate {A} (l : list A) :
  List.map fst (enumerate l) = List.map Z.of_nat (seq 0 (length l)).
Proof.
  unfold enumerate. generalize (seq 0 (length l)), (eq_sym (length_seq (length l) 0)).
  intros s. revert s.
  induction l as [|x l IH]; intros [|k s] H; simpl in *; try discriminate; auto.
  f_equal. apply IH. lia.
Qed.

Lemma nodup_map_injective {A B} (f : A -> B) (l : list A) :
  (forall a b, f a = f b -> a = b) -> NoDup l -> NoDup (List.map f l).
Proof.
  intros Hf. induction 1 as [|x l Hx Hn IH]; simpl; constructor; auto.
  intros Hin. apply in_map_iff in Hin. destruct Hin as (y & Hy & Hin).
  apply Hf in Hy. now subst.
Qed.

Lemma nodup_indices (n : nat) : NoDup (List.map Z.of_nat (seq 0 n)).
Proof.
  apply nodup_map_injective; [apply Nat2Z.inj | apply seq_NoDup].
Qed.

Lemma summary_indices (articles : list Article) :
  NoDup (List.map s_index (summary_indexed articles)).
Proof.
  unfold summary_indexed. rewrite map_map. simpl.
  change (fun x : Z * Article => fst x) with (@fst Z Article).
  rewrite map_fst_enumerate. apply nodup_indices.
Qed.

Lemma summarize_batch_raise (lang : str) (batch : list summary_item) (e : exn) :
  summarize_batch_try lang batch = Raise e ->
  summarize_batch lang batch = fallback_summaries batch.
Proof. unfold summarize_batch. now intros ->. Qed.

Lemma summarize_articles_as_fold (articles : list Article) (lang : str) :
  summarize_articles articles lang
  = fold_left (fun acc r => dict_update acc r)
      (List.map (summarize_batch lang)
         (chunks BATCH_SIZE (summary_indexed articles))) [].
Proof.
  unfold summarize_articles. rewrite fold_waves, concat_chunks; auto.
  unfold MAX_CONCURRENT_REQUESTS. lia.
Qed.

Lemma summary_indexed_nth (articles : list Article) (i : nat) (a : Article) :
  nth_error articles i = Some a ->
  nth_error (summary_indexed articles) i
  = Some {| s_index := Z.of_nat i; s_title := title a;
            s_description := description a; s_sourceName := source_name a;
            s_link := link a |}.
Proof.
  intros H. unfold summary_indexed.
  erewrite map_nth_error; [|apply nth_error_enumerate; eassumption].
  reflexivity.
Qed.

Lemma final_articles_nth (top : list scored_entry)
  (summaries : dict summary_data) (i : nat) (e : scored_entry) :
  nth_error top i = Some e ->
  exists fa,
    nth_error (final_articles top summaries) i = Some fa
    /\ sa_title fa = title (se_article e)
    /\ sa_description fa = description (se_article e)
    /\ (let sm := dict_get_default summaries (KInt (Z.of_nat i))
                    (missing_summary (se_article e)) in
        title_zh fa = titleZh sm /\ summary fa = sm_summary sm
        /\ reason fa = sm_reason sm).
Proof.
  intros H. unfold final_articles.
  eexists. split.
  - eapply map_nth_error. apply nth_error_enumerate. eassumption.
  - simpl. auto.
Qed.

(** C5, as the code has it.  Two fallbacks exist.  A batch whose AI call
    raises maps, in its own result, each of its articles to: translated
    title = original title, summary = original title, rationale = empty.
    An article whose index is absent from the summaries (no batch reported
    it) gets, when the mapping is consumed: translated title = original
    title, summary = the first 200 characters of its description, rationale
    = empty.  The batch results are merged by index, a later batch
    overwriting an earlier one, and no index of a reply is checked against
    the batch that was sent: the summary of article [i] in the report is
    the one reported by the last batch whose result has an entry for [i].
    So the first fallback reaches the report when no later batch reports
    that index, and not otherwise. *)
Theorem summary_fallbacks (top : list scored_entry) (lang : str) :
  let articles := List.map se_article top in
  let batches := chunks BATCH_SIZE (summary_indexed articles) in
  let summaries := summarize_articles articles lang in
  let final := final_articles top summaries in
  (forall batch e item,
      In batch batches -> summarize_batch_try lang batch = Raise e ->
      In item batch ->
      dict_get (summarize_batch lang batch) (KInt (s_index item))
      = Some {| titleZh := JStr (s_title item);
                sm_summary := JStr (s_title item);
                sm_reason := JStr [] |})
  /\ (forall i entry,
        nth_error top i = Some entry ->
        dict_get summaries (KInt (Z.of_nat i)) = None ->
        exists fa,
          nth_error final i = Some fa
          /\ title_zh fa = JStr (sa_title fa)
          /\ summary fa = JStr (str_take 200 (sa_description fa))
          /\ reason fa = JStr [])
  /\ (forall pre batch post e i entry,
        batches = pre ++ batch :: post ->
        summarize_batch_try lang batch = Raise e ->
        In (Z.of_nat i) (List.map s_index batch) ->
        Forall (fun later =>
                  dict_get (summarize_batch lang later) (KInt (Z.of_nat i)) = None)
          post ->
        nth_error top i = Some entry ->
        exists fa,
          nth_error final i = Some fa
          /\ title_zh fa = JStr (sa_title fa)
          /\ summary fa = JStr (sa_title fa)
          /\ reason fa = JStr [])
  /\ (forall i entry,
        nth_error top i = Some entry ->
        exists fa,
          nth_error final i = Some fa
          /\ (let sm :=
                match last_report (Z.of_nat i)
                        (List.map (summarize_batch lang) batches) with
                | Some sm => sm
                | None => missing_summary (se_article entry)
                end in
              title_zh fa = titleZh sm /\ summary fa = sm_summary sm
              /\ reason fa = sm_reason sm)).
Proof.
  intros articles batches summaries final.
  assert (Hlookup : forall i,
            dict_get summaries (KInt i)
            = last_report i (List.map (summarize_batch lang) batches)).
  { intros i. subst summaries. rewrite summarize_articles_as_fold.
    fold batches. rewrite fold_update_last.
    - now destruct (last_report i _).
    - apply Forall_forall. intros r Hr. apply in_map_iff in Hr.
      destruct Hr as (b & <- & _). apply summarize_batch_single. }
  assert (Hbatch : forall batch item,
            In batch batches -> In item batch ->
            dict_get (fallback_summaries batch) (KInt (s_index item))
            = Some (fallback_summary item)).
  { intros batch item Hb Hin. unfold fallback_summaries.
    apply dict_get_fold_set_nodup; auto.
    eapply nodup_chunk; [apply summary_indices | exact Hb]. }
  split.
  { intros batch e item Hb Hr Hin. rewrite (summarize_batch_raise _ _ Hr).
    now apply Hbatch. }
  split.
  { intros i entry H Hnone.
    destruct (final_articles_nth top summaries i H)
      as (fa & Hfa & Ht & Hd & Hsm).
    exists fa. split; auto.
    unfold dict_get_default in Hsm. rewrite Hnone in Hsm. simpl in Hsm.
    rewrite Ht, Hd. exact Hsm. }
  split.
  2:{ intros i entry H.
      destruct (final_articles_nth top summaries i H)
        as (fa & Hfa & _ & _ & Hsm).
      exists fa. split; [exact Hfa|].
      unfold dict_get_default in Hsm. rewrite Hlookup in Hsm. exact Hsm. }
  intros pre batch post e i entry Hsplit Hr Hin Hpost H.
  destruct (final_articles_nth top summaries i H)
    as (fa & Hfa & Ht & Hd & Hsm).
  exists fa. split; auto.
  apply in_map_iff in Hin. destruct Hin as (item & Hidx & Hin).
  assert (Hb : In batch batches) by (rewrite Hsplit; apply in_elt).
  assert (Hitem : s_title item = title (se_article entry)).
  { assert (Hall : In item (summary_indexed articles)).
    { rewrite <- (@concat_chunks _ BATCH_SIZE (summary_indexed articles))
        by (unfold BATCH_SIZE; lia).
      apply in_concat. exists batch. auto. }
    assert (Hnth : nth_error articles i = Some (se_article entry)).
    { unfold articles. now apply map_nth_error. }
    apply summary_indexed_nth in Hnth. apply nth_error_In in Hnth.
    assert (E : item = {| s_index := Z.of_nat i;
                          s_title := title (se_article entry);
                          s_description := description (se_article entry);
                          s_sourceName := source_name (se_article entry);
                          s_link := link (se_article entry) |}).
    { eapply nodup_map_eq with (f := s_index);
        [apply summary_indices | exact Hall | exact Hnth | exact Hidx]. }
    now rewrite E. }
  assert (Hget : dict_get summaries (KInt (Z.of_nat i))
                 = Some (fallback_summary item)).
  { subst summaries. rewrite summarize_articles_as_fold.
    fold batches. rewrite Hsplit, map_app, fold_left_app. simpl.
    rewrite fold_update_none.
    2:{ rewrite Forall_forall in *. intros r Hrin.
        apply in_map_iff in Hrin. destruct Hrin as (b & <- & Hbin). auto. }
    rewrite (summarize_batch_raise _ _ Hr).
    match goal with |- dict_get (dict_update ?d _) _ = _ =>
      destruct (dict_get_update_some (fallback_summaries batch) d (Z.of_nat i))
        as (v & Hv & Hg) end.
    - rewrite <- Hidx, Hbatch by assumption. discriminate.
    - rewrite Hg. f_equal.
      unfold fallback_summaries in Hv.
      apply fold_set_entries in Hv.
      destruct Hv as [[]|(x & Hx & Hk & ->)].
      inversion Hk as [Hk']. f_equal.
      eapply nodup_map_eq with (f := s_index);
        [eapply nodup_chunk; [apply summary_indices | exact Hb]
        | exact Hx | exact Hin | congruence]. }
  unfold dict_get_default in Hsm. rewrite Hget in Hsm. simpl in Hsm.
  rewrite Ht, <- Hitem. exact Hsm.
Qed.

(* ====================================================================== *)
(** * Properties of the report renderer *)
(* ====================================================================== *)

(** The members of category [c], in the order of [articles]. *)
Definition of_category (c : str) (articles : list ScoredArticle)
  : list ScoredArticle :=
  filter (fun a => str_eqb (category a) c) articles.

Lemma Permutation_concat {A} (l l' : list (list A)) :
  Permutation l l' -> Permutation (concat l) (concat l').
Proof.
  induction 1; simpl; auto.
  - now apply Permutation_app_head.
  - rewrite !app_assoc. apply Permutation_app_tail, Permutation_app_comm.
  - etransitivity; eauto.
Qed.

Lemma group_add_keys (groups : list (str * list ScoredArticle))
  (a : ScoredArticle) :
  List.map fst (group_add groups a)
  = if existsb (fun c => str_eqb c (category a)) (List.map fst groups)
    then List.map fst groups
    else List.map fst groups ++ [category a].
Proof.
  induction groups as [|[c m] groups IH]; simpl; auto.
  destruct (str_eqb c (category a)) eqn:E; simpl; auto.
  rewrite IH. now destruct (existsb _ _).
Qed.

Lemma existsb_str_in (c : str) (l : list str) :
  existsb (fun c' => str_eqb c' c) l = true <-> In c l.
Proof.
  rewrite existsb_exists. split.
  - intros (x & Hx & E). apply str_eqb_eq in E. now subst.
  - intros H. exists c. split; auto. apply str_eqb_refl.
Qed.

Lemma group_add_in (groups : list (str * list ScoredArticle))
  (a : ScoredArticle) (c : str) (m : list ScoredArticle) :
  NoDup (List.map fst groups) ->
  In (c, m) (group_add groups a) ->
  (c <> category a /\ In (c, m) groups)
  \/ (c = category a
      /\ ((exists m0, In (c, m0) groups /\ m = m0 ++ [a])
          \/ (~ In c (List.map fst groups) /\ m = [a]))).
Proof.
  induction groups as [|[c' m'] groups IH]; simpl; intros Hnd H.
  - destruct H as [H|[]]. inversion H; subst. right. split; auto.
  - inversion Hnd as [|? ? Hc' Hnd']; subst.
    destruct (str_eqb c' (category a)) eqn:E; simpl in H.
    + apply str_eqb_eq in E. subst c'.
      destruct H as [H|H].
      * inversion H; subst. right. split; auto. left. exists m'. auto.
      * left. split; auto. intros ->. apply Hc'.
        apply in_map_iff. exists (category a, m). auto.
    + apply str_eqb_neq in E.
      destruct H as [H|H].
      * inversion H; subst. left. auto.
      * destruct (IH Hnd' H) as [(Hn & Hin)|(He & [(m0 & Hin & Hm)|(Hni & Hm)])].
        -- left. auto.
        -- right. split; auto. left. exists m0. auto.
        -- right. split; auto. right. split; auto.
           intros [Hc|Hc]; [subst; congruence | contradiction].
Qed.

Lemma group_add_perm (groups : list (str * list ScoredArticle))
  (a : ScoredArticle) :
  Permutation (concat (List.map snd (group_add groups a)))
    (concat (List.map snd groups) ++ [a]).
Proof.
  induction groups as [|[c m] groups IH]; simpl; auto.
  destruct (str_eqb c (category a)); simpl.
  - rewrite <- !app_assoc. apply Permutation_app_head.
    apply Permutation_app_comm.
  - rewrite <- app_assoc. now apply Permutation_app_head.
Qed.

Lemma cat_groups_snoc (articles : list ScoredArticle) (a : ScoredArticle) :
  cat_groups (articles ++ [a]) = group_add (cat_groups articles) a.
Proof. unfold cat_groups. now rewrite fold_left_app. Qed.

Lemma of_category_snoc (c : str) (articles : list ScoredArticle)
  (a : ScoredArticle) :
  of_category c (articles ++ [a])
  = of_category c articles ++ (if str_eqb (category a) c then [a] else []).
Proof. unfold of_category. now rewrite filter_app. Qed.

(** The groups: one per category that occurs, each holding the articles of
    its category in their order. *)
Lemma cat_groups_spec (articles : list ScoredArticle) :
  NoDup (List.map fst (cat_groups articles))
  /\ (forall c m, In (c, m) (cat_groups articles) ->
        m <> [] /\ m = of_category c articles)
  /\ (forall c, ~ In c (List.map fst (cat_groups articles)) ->
        of_category c articles = [])
  /\ Permutation (concat (List.map snd (cat_groups articles))) articles.
Proof.
  induction articles as [|a articles IH] using rev_ind.
  - simpl. split; [constructor|]. split; [intros c m []|]. split; auto.
  - destruct IH as (Hnd & Hin & Hout & Hperm).
    rewrite cat_groups_snoc.
    assert (Hkeys := group_add_keys (cat_groups articles) a).
    split; [|split; [|split]].
    + rewrite Hkeys.
      destruct (existsb _ _) eqn:E; auto.
      apply NoDup_app; auto.
      * repeat constructor; auto.
      * intros x Hx [<-|[]].
        assert (E' : existsb (fun c' => str_eqb c' (category a))
                       (List.map fst (cat_groups articles)) = true)
          by now apply existsb_str_in.
        congruence.
    + intros c m H. rewrite of_category_snoc.
      apply group_add_in in H; auto.
      destruct H as [(Hn & H)|(-> & [(m0 & H & ->)|(Hni & ->)])].
      * destruct (Hin _ _ H) as (Hne & ->).
        assert (E : str_eqb (category a) c = false)
          by (apply str_eqb_neq; congruence).
        rewrite E, app_nil_r. auto.
      * destruct (Hin _ _ H) as (Hne & ->).
        rewrite str_eqb_refl. split; auto.
        intros Hc. apply app_eq_nil in Hc. destruct Hc; discriminate.
      * rewrite (Hout _ Hni), str_eqb_refl. simpl. split; auto. discriminate.
    + intros c Hc. rewrite of_category_snoc.
      assert (Hc' : ~ In c (List.map fst (cat_groups articles))
                    /\ c <> category a).
      { rewrite Hkeys in Hc. destruct (existsb _ _) eqn:E.
        - split; auto. intros ->. apply Hc. now apply existsb_str_in.
        - rewrite in_app_iff in Hc. simpl in Hc. split.
          + intros Hk. apply Hc. now left.
          + intros ->. apply Hc. right. now left. }
      destruct Hc' as (Hc1 & Hc2). rewrite (Hout _ Hc1).
      assert (E : str_eqb (category a) c = false)
        by (apply str_eqb_neq; congruence).
      now rewrite E.
    + rewrite group_add_perm. now apply Permutation_app_tail.
Qed.

Lemma showcase_of_app (l1 l2 : list block) :
  showcase_of (l1 ++ l2) = showcase_of l1 ++ showcase_of l2.
Proof.
  induction l1 as [|b l1 IH]; simpl; auto.
  destruct b; simpl; now rewrite ?IH.
Qed.

Lemma listed_of_app (l1 l2 : list block) :
  listed_of (l1 ++ l2) = listed_of l1 ++ listed_of l2.
Proof.
  induction l1 as [|b l1 IH]; simpl; auto.
  destruct b; simpl; now rewrite ?IH.
Qed.

Lemma listed_of_list_entries (k : nat) (l : list ScoredArticle) :
  listed_of (list_entries k l) = l.
Proof.
  revert k. induction l as [|a l IH]; intros k; simpl; auto. now rewrite IH.
Qed.

Lemma showcase_of_list_entries (k : nat) (l : list ScoredArticle) :
  showcase_of (list_entries k l) = [].
Proof. revert k. induction l as [|a l IH]; intros k; simpl; auto. Qed.

Lemma listed_of_category_sections (k : nat)
  (cats : list (str * list ScoredArticle)) :
  listed_of (category_sections k cats) = concat (List.map snd cats).
Proof.
  revert k. induction cats as [|[c m] cats IH]; intros k; simpl; auto.
  now rewrite listed_of_app, listed_of_list_entries, IH.
Qed.

Lemma showcase_of_category_sections (k : nat)
  (cats : list (str * list ScoredArticle)) :
  showcase_of (category_sections k cats) = [].
Proof.
  revert k. induction cats as [|[cat m] cats IH]; intros k; simpl; auto.
  now rewrite showcase_of_app, showcase_of_list_entries, IH.
Qed.

Lemma showcase_of_entries (articles : list ScoredArticle) :
  showcase_of (showcase_entries articles) = firstn 3 articles.
Proof.
  unfold showcase_entries.
  destruct articles as [|a1 [|a2 [|a3 l]]]; reflexivity.
Qed.

Lemma listed_of_showcase_entries (articles : list ScoredArticle) :
  listed_of (showcase_entries articles) = [].
Proof.
  unfold showcase_entries.
  destruct articles as [|a1 [|a2 [|a3 l]]]; reflexivity.
Qed.

(** The first piece of a list is not a list entry. *)
Definition starts_section (l : list block) : Prop :=
  match l with
  | ListEntry _ _ _ :: _ => False
  | _ => True
  end.

Lemma leading_list_entries (k : nat) (m : list ScoredArticle)
  (rest : list block) :
  starts_section rest -> leading_entries (list_entries k m ++ rest) = m.
Proof.
  intros Hr. revert k. induction m as [|a m IH]; intros k; simpl.
  - destruct rest as [|[] rest]; simpl in *; auto; contradiction.
  - now rewrite IH.
Qed.

Lemma sections_of_list_entries (k : nat) (m : list ScoredArticle)
  (rest : list block) :
  sections_of (list_entries k m ++ rest) = sections_of rest.
Proof. revert k. induction m as [|a m IH]; intros k; simpl; auto. Qed.

Lemma starts_section_category_sections (k : nat)
  (cats : list (str * list ScoredArticle)) (rest : list block) :
  starts_section rest -> starts_section (category_sections k cats ++ rest).
Proof. destruct cats as [|[c m] cats]; simpl; auto. Qed.

Lemma sections_of_category_sections (k : nat)
  (cats : list (str * list ScoredArticle)) :
  sections_of (category_sections k cats ++ [Footer]) = cats.
Proof.
  revert k. induction cats as [|[c m] cats IH]; intros k; simpl; auto.
  rewrite <- app_assoc, leading_list_entries, sections_of_list_entries, IH; auto.
  apply starts_section_category_sections. exact I.
Qed.

Definition not_heading (b : block) : Prop :=
  match b with CategoryHeading _ => False | _ => True end.

Lemma sections_of_skip (pre rest : list block) :
  Forall not_heading pre -> sections_of (pre ++ rest) = sections_of rest.
Proof.
  induction 1 as [|b pre Hb Hpre IH]; simpl; auto.
  destruct b; simpl in *; auto; contradiction.
Qed.

Lemma showcase_entries_not_heading (articles : list ScoredArticle) :
  Forall not_heading (showcase_entries articles).
Proof.
  unfold showcase_entries. apply Forall_forall. intros b Hb.
  apply in_map_iff in Hb. destruct Hb as (ia & <- & _). exact I.
Qed.

Lemma sorted_cats_perm (articles : list ScoredArticle) :
  Permutation (sorted_cats articles) (cat_groups articles).
Proof. apply sort_desc_perm. Qed.

(** The structure of the report: what the showcase shows and what the
    category sections list. *)
Lemma report_structure (articles : list ScoredArticle) (highlights : str)
  (total_feeds : Z) :
  let report := generate_digest_report articles highlights total_feeds in
  showcase_of report
  = (if (3 <=? length articles)%nat then firstn 3 articles else [])
  /\ listed_of report = concat (List.map snd (sorted_cats articles))
  /\ sections_of report = sorted_cats articles.
Proof.
  unfold generate_digest_report.
  split; [|split].
  - rewrite !showcase_of_app, showcase_of_category_sections.
    destruct (nonempty highlights), (3 <=? length articles)%nat;
      cbn [showcase_of app];
      now rewrite ?showcase_of_app, ?showcase_of_entries, ?app_nil_r.
  - rewrite !listed_of_app, listed_of_category_sections.
    destruct (nonempty highlights), (3 <=? length articles)%nat;
      cbn [listed_of app];
      now rewrite ?listed_of_app, ?listed_of_showcase_entries, ?app_nil_r.
  - rewrite !app_assoc.
    rewrite <- (app_assoc _ (category_sections _ _) [Footer]).
    rewrite sections_of_skip; [apply sections_of_category_sections|].
    repeat (apply Forall_app; split).
    + repeat constructor.
    + destruct (nonempty highlights); repeat constructor.
    + destruct (3 <=? length articles)%nat; [|constructor].
      constructor; [exact I|]. apply Forall_app. split.
      * apply showcase_entries_not_heading.
      * repeat constructor.
Qed.

(** C6, as the code has it.  The report shows a top-3 showcase only when at
    least 3 articles qualify (then the first three, in rank order); the
    category sections that follow list every article of the report, the
    three of the showcase included, each exactly once under the heading of
    its category; categories stand in descending order of member count, and
    the articles of a category in their ranked order. *)
Theorem report_showcase_and_category_listing
  (articles : list ScoredArticle) (highlights : str) (total_feeds : Z) :
  let report := generate_digest_report articles highlights total_feeds in
  showcase_of report
  = (if (3 <=? length articles)%nat then firstn 3 articles else [])
  /\ Permutation (listed_of report) articles
  /\ listed_of report = concat (List.map snd (sections_of report))
  /\ StronglySorted
       (fun g h => (length (snd h) <= length (snd g))%nat)
       (sections_of report)
  /\ NoDup (List.map fst (sections_of report))
  /\ (forall c members,
        In (c, members) (sections_of report) ->
        members <> []
        /\ members = filter (fun a => str_eqb (category a) c) articles).
Proof.
  intros report.
  destruct (report_structure articles highlights total_feeds)
    as (Hshow & Hlisted & Hsections).
  fold report in Hshow, Hlisted, Hsections.
  destruct (cat_groups_spec articles) as (Hnd & Hin & _ & Hperm).
  pose proof (sorted_cats_perm articles) as Hsp.
  rewrite Hsections, Hlisted.
  split; [exact Hshow|].
  split.
  { etransitivity; [|exact Hperm].
    apply Permutation_concat, Permutation_map, Hsp. }
  split; [reflexivity|].
  split.
  { eapply StronglySorted_R_ext_local; [|apply sort_desc_sorted].
    unfold descending. intros g h. simpl. lia. }
  split.
  { eapply Permutation_NoDup; [|exact Hnd].
    apply Permutation_map. now symmetry. }
  intros c members H. apply Hin. eapply Permutation_in; eauto.
Qed.

Lemma highlights_of_app (l1 l2 : list block) :
  highlights_of (l1 ++ l2) = highlights_of l1 ++ highlights_of l2.
Proof.
  induction l1 as [|b l1 IH]; simpl; auto.
  destruct b; simpl; now rewrite ?IH.
Qed.

Lemma highlights_of_list_entries (k : nat) (l : list ScoredArticle) :
  highlights_of (list_entries k l) = [].
Proof. revert k. induction l as [|a l IH]; intros k; simpl; auto. Qed.

Lemma highlights_of_category_sections (k : nat)
  (cats : list (str * list ScoredArticle)) :
  highlights_of (category_sections k cats) = [].
Proof.
  revert k. induction cats as [|[cat m] cats IH]; intros k; simpl; auto.
  now rewrite highlights_of_app, highlights_of_list_entries, IH.
Qed.

Lemma highlights_of_showcase_entries (articles : list ScoredArticle) :
  highlights_of (showcase_entries articles) = [].
Proof.
  unfold showcase_entries.
  destruct articles as [|a1 [|a2 [|a3 l]]]; reflexivity.
Qed.

(** The report holds a highlights section exactly when the highlights text
    is not empty, and then it holds that text once. *)
Theorem empty_highlights_omit_the_section
  (articles : list ScoredArticle) (highlights : str) (total_feeds : Z) :
  highlights_of (generate_digest_report articles highlights total_feeds)
  = match highlights with
    | [] => []
    | _ :: _ => [highlights]
    end.
Proof.
  unfold generate_digest_report.
  rewrite !highlights_of_app, highlights_of_category_sections.
  destruct highlights as [|c h], (3 <=? length articles)%nat;
    cbn [highlights_of app nonempty];
    now rewrite ?highlights_of_app, ?highlights_of_showcase_entries.
Qed.

(* ====================================================================== *)
(** * Properties of the feed fetcher *)
(* ====================================================================== *)

(** The number of feeds of [l] that satisfy [p]. *)
Definition count_feeds (p : feed_info -> bool) (l : list feed_info) : Z :=
  Z.of_nat (length (filter p l)).

Lemma fetch_all_feeds_fold (completed : list feed_info) :
  forall all s f,
    fold_left
      (fun acc feed =>
         let '(all_articles, success_count, fail_count) := acc in
         let articles := fetch_feed feed in
         if nonempty articles
         then (all_articles ++ articles, success_count + 1, fail_count)
         else (all_articles, success_count, fail_count + 1))
      completed (all, s, f)
    = (all ++ concat (List.map fetch_feed completed),
       s + count_feeds (fun feed => nonempty (fetch_feed feed)) completed,
       f + count_feeds (fun feed => negb (nonempty (fetch_feed feed))) completed).
Proof.
  unfold count_feeds.
  induction completed as [|feed completed IH]; intros all s f; simpl.
  - now rewrite app_nil_r, !Z.add_0_r.
  - destruct (fetch_feed feed) as [|a articles] eqn:E; simpl; rewrite IH.
    + repeat (f_equal; try lia).
    + rewrite <- app_assoc. simpl. repeat (f_equal; try lia).
Qed.

Lemma count_feeds_split (p : feed_info -> bool) (l : list feed_info) :
  count_feeds p l + count_feeds (fun x => negb (p x)) l = Z.of_nat (length l).
Proof.
  unfold count_feeds.
  assert (H : (length (filter p l) + length (filter (fun x => negb (p x)) l)
               = length l)%nat).
  { induction l as [|x l IH]; simpl; auto. destruct (p x); simpl; lia. }
  lia.
Qed.

(** C7, as the code has it.  [fetch_all_feeds] never aborts: it returns the
    articles of all feeds flattened in completion order, with two counters
    that add up to the number of feeds.  A feed counts as a success exactly
    when it contributes at least one article, as a failure otherwise.  A
    feed whose retrieval fails (network error, timeout, status other than
    200), whose document fails XML parsing, or whose parsing raises,
    contributes zero articles and so counts as a failure; a feed retrieved
    and parsed without error contributes what the parser returned, and
    counts as a failure too when that is nothing. *)
Theorem fetch_counts_feeds_with_articles (completed : list feed_info) :
  fetch_all_feeds completed
  = (concat (List.map fetch_feed completed),
     count_feeds (fun feed => nonempty (fetch_feed feed)) completed,
     count_feeds (fun feed => negb (nonempty (fetch_feed feed))) completed)
  /\ snd (fst (fetch_all_feeds completed)) + snd (fetch_all_feeds completed)
     = Z.of_nat (length completed)
  /\ (forall feed, http_fetch feed = None -> fetch_feed feed = [])
  /\ (forall feed xml,
        http_fetch feed = Some xml -> ET_fromstring xml = None ->
        fetch_feed feed = [])
  /\ (forall feed xml e,
        http_fetch feed = Some xml -> parse_feed_xml xml feed = Raise e ->
        fetch_feed feed = [])
  /\ (forall feed xml articles,
        http_fetch feed = Some xml -> parse_feed_xml xml feed = Ok articles ->
        fetch_feed feed = articles).
Proof.
  assert (E : fetch_all_feeds completed
    = (concat (List.map fetch_feed completed),
       count_feeds (fun feed => nonempty (fetch_feed feed)) completed,
       count_feeds (fun feed => negb (nonempty (fetch_feed feed))) completed)).
  { unfold fetch_all_feeds. now rewrite fetch_all_feeds_fold. }
  split; [exact E|].
  split; [rewrite E; simpl; apply count_feeds_split|].
  unfold fetch_feed.
  split; [now intros feed ->|].
  split; [intros feed xml -> Hp; unfold parse_feed_xml; now rewrite Hp|].
  split; [now intros feed xml e -> ->|].
  now intros feed xml articles -> ->.
Qed.

(* ====================================================================== *)
(** * Properties of the feed parser *)
(* ====================================================================== *)

(** A link element the loop of the Atom branch accepts: it has a non-empty
    [href], and its [rel] is ["alternate"] or empty (an absent attribute
    reads as the empty string). *)
Definition eligible_link (link_elem : element) : bool :=
  nonempty (el_get link_elem (lit "href"))
  && (str_eqb (el_get link_elem (lit "rel")) (lit "alternate")
      || negb (nonempty (el_get link_elem (lit "rel")))).

(** The link in the words of the specification: the [href] of the first link
    element whose [rel] attribute is ["alternate"] or absent. *)
Definition has_attr (e : element) (attr_name : str) : bool :=
  existsb (fun kv => str_eqb (fst kv) attr_name) (el_attrib e).

Definition alternate_or_no_rel (link_elem : element) : bool :=
  str_eqb (el_get link_elem (lit "rel")) (lit "alternate")
  || negb (has_attr link_elem (lit "rel")).

Definition first_alternate_href (link_elems : list element) : str :=
  match List.find alternate_or_no_rel link_elems with
  | Some link_elem => el_get link_elem (lit "href")
  | None => []
  end.

Lemma atom_link_find (link_elems : list element) :
  atom_link link_elems
  = match List.find eligible_link link_elems with
    | Some link_elem => el_get link_elem (lit "href")
    | None => []
    end.
Proof.
  induction link_elems as [|e rest IH]; simpl; auto.
  unfold eligible_link at 1.
  now destruct (nonempty (el_get e (lit "href"))
                && (str_eqb (el_get e (lit "rel")) (lit "alternate")
                    || negb (nonempty (el_get e (lit "rel"))))).
Qed.

(** C8, as the code has it.  The link of an Atom entry is the [href] of the
    first link element that has a non-empty [href] and whose [rel] is
    ["alternate"], absent or empty (the empty string when there is none); in
    particular a [rel="self"] link followed by a [rel="alternate"] link with
    an [href] resolves to the alternate one. *)
Theorem atom_link_first_eligible (link_elems : list element) :
  atom_link link_elems
  = match List.find eligible_link link_elems with
    | Some link_elem => el_get link_elem (lit "href")
    | None => []
    end
  /\ (forall self alt rest,
        link_elems = self :: alt :: rest ->
        el_get self (lit "rel") = lit "self" ->
        el_get alt (lit "rel") = lit "alternate" ->
        nonempty (el_get alt (lit "href")) = true ->
        atom_link link_elems = el_get alt (lit "href"))
  /\ (forall feed namespace k entry article,
        link_elems = findall_ns entry (lit "link") namespace ->
        parse_atom_entry feed namespace k entry = Ok (Some article) ->
        link article = atom_link link_elems).
Proof.
  split; [apply atom_link_find|].
  split.
  - intros self alt rest -> Hs Ha Hh. simpl.
    rewrite Hs, Ha, Hh.
    destruct (nonempty (el_get self (lit "href"))); reflexivity.
  - intros feed namespace k entry article -> H.
    unfold parse_atom_entry in H. do 2 bind_inv H.
    inversion H as [H']. destruct (_ || _); inversion H'. reflexivity.
Qed.

(** [strip_html] raises as soon as the text left by [html.unescape] holds a
    numeric reference beyond the last code point. *)
Lemma strip_html_raises (text : str) (e : exn) :
  sub_numeric 0 (html_unescape (remove_tags text)) = Raise e ->
  strip_html text = Raise e.
Proof. unfold strip_html. now intros ->. Qed.

(** An exception of [strip_html] on the title of the first entry leaves
    [parse_feed_xml]: nothing between the two catches it. *)
Lemma parse_feed_xml_propagates (xml_content : str) (feed : feed_info)
  (root entry : element) (others : list element) (namespace : str) (e : exn) :
  ET_fromstring xml_content = Some root ->
  endswith (el_tag root) (lit "feed") = true ->
  namespace_of (el_tag root) = Ok namespace ->
  findall_ns root (lit "entry") namespace = entry :: others ->
  strip_html (get_tag_content entry (lit "title") namespace) = Raise e ->
  parse_feed_xml xml_content feed = Raise e.
Proof.
  intros Hroot Hfeed Hns Hentries Htitle.
  unfold parse_feed_xml. rewrite Hroot, Hfeed, Hns. simpl.
  rewrite Hentries. simpl. unfold parse_atom_entry. now rewrite Htitle.
Qed.

(* ====================================================================== *)
(** * Properties of the text helpers: [strip_html], [extract_cdata] *)
(* ====================================================================== *)

(** What the pattern [<[^>]*>] matches somewhere in [s]: a [<] with a [>]
    after it. *)
Fixpoint has_tag (s : str) : bool :=
  match s with
  | [] => false
  | c :: s' => ((c =? 60)%N && existsb (N.eqb 62) s') || has_tag s'
  end.

Lemma remove_tags_from_gt (s : str) :
  forall inside,
    existsb (N.eqb 62) s = false ->
    existsb (N.eqb 62) (remove_tags_from inside s) = false.
Proof.
  induction s as [|c s IH]; intros inside H; simpl in *; auto.
  apply Bool.orb_false_iff in H. destruct H as [Hc Hs].
  destruct inside.
  - destruct (c =? 62)%N; auto.
  - rewrite Hs, Bool.andb_false_r. simpl. rewrite Hc. simpl. auto.
Qed.

Lemma remove_tags_from_clean (s : str) :
  forall inside, has_tag (remove_tags_from inside s) = false.
Proof.
  induction s as [|c s IH]; intros inside; simpl; auto.
  destruct inside.
  - destruct (c =? 62)%N; auto.
  - destruct (c =? 60)%N eqn:Ec; simpl.
    + destruct (existsb (N.eqb 62) s) eqn:Es; auto.
      simpl. rewrite Ec, IH. simpl.
      rewrite remove_tags_from_gt by assumption. reflexivity.
    + rewrite Ec, IH. reflexivity.
Qed.

Lemma remove_tags_fixed (s : str) :
  has_tag s = false -> remove_tags_from false s = s.
Proof.
  induction s as [|c s IH]; simpl; auto.
  intros H. apply Bool.orb_false_iff in H. destruct H as [Hc Hs].
  rewrite Hc, IH by assumption. reflexivity.
Qed.

Lemma has_tag_lt (s : str) :
  existsb (N.eqb 60) s = false -> has_tag s = false.
Proof.
  induction s as [|c s IH]; cbn [has_tag existsb]; auto.
  intros H. apply Bool.orb_false_iff in H. destruct H as [Hc Hs].
  rewrite (N.eqb_sym c 60), Hc, IH by assumption. reflexivity.
Qed.

(** X5.  The tag removal of [strip_html] leaves no tag behind: in its
    result no [<] has a [>] after it, so a second removal changes nothing;
    and a text that holds no tag (in particular one without any [<]) is
    returned as it is. *)
Theorem remove_tags_leaves_no_tag (s : str) :
  has_tag (remove_tags s) = false
  /\ remove_tags (remove_tags s) = remove_tags s
  /\ (has_tag s = false -> remove_tags s = s)
  /\ (existsb (N.eqb 60) s = false -> remove_tags s = s).
Proof.
  unfold remove_tags.
  split; [apply remove_tags_from_clean|].
  split; [apply remove_tags_fixed, remove_tags_from_clean|].
  split; [apply remove_tags_fixed|].
  intros H. apply remove_tags_fixed, has_tag_lt, H.
Qed.

(** Whether [s] begins with a whitespace character. *)
Definition starts_with_space (s : str) : bool :=
  match s with
  | c :: _ => is_space c
  | [] => false
  end.

(** No whitespace at either end. *)
Definition trimmed (s : str) : Prop :=
  starts_with_space s = false /\ starts_with_space (rev s) = false.

Lemma lstrip_head (s : str) : starts_with_space (lstrip s) = false.
Proof.
  induction s as [|c s IH]; simpl; auto.
  destruct (is_space c) eqn:E; auto.
Qed.

Lemma lstrip_suffix (s : str) : exists pre, s = pre ++ lstrip s.
Proof.
  induction s as [|c s [pre IH]]; simpl.
  - now exists [].
  - destruct (is_space c).
    + exists (c :: pre). simpl. now f_equal.
    + now exists [].
Qed.

Lemma strip_trimmed (s : str) : trimmed (strip s).
Proof.
  unfold trimmed, strip. split.
  - destruct (lstrip_suffix (rev (lstrip s))) as [pre E].
    apply (f_equal (@rev N)) in E. rewrite rev_involutive, rev_app_distr in E.
    pose proof (lstrip_head s) as H. rewrite E in H.
    destruct (rev (lstrip (rev (lstrip s)))); auto.
  - rewrite rev_involutive. apply lstrip_head.
Qed.

Lemma lstrip_fixed (s : str) : starts_with_space s = false -> lstrip s = s.
Proof. destruct s as [|c s]; simpl; auto. now intros ->. Qed.

Lemma strip_fixed (s : str) : trimmed s -> strip s = s.
Proof.
  intros [H1 H2]. unfold strip.
  now rewrite (lstrip_fixed s H1), (lstrip_fixed (rev s) H2), rev_involutive.
Qed.

Lemma match_numeric_other (c : N) (s : str) :
  (38 =? c)%N = false -> match_numeric (c :: s) = None.
Proof.
  intros H. unfold match_numeric.
  change (lit "&#") with [38%N; 35%N]. cbn [strip_prefix]. now rewrite H.
Qed.

Lemma sub_numeric_plain (s : str) :
  existsb (N.eqb 38) s = false -> sub_numeric 0 s = Ok s.
Proof.
  induction s as [|c s IH]; intros H; [reflexivity|].
  simpl in H. apply Bool.orb_false_iff in H. destruct H as [Hc Hs].
  cbn [sub_numeric]. rewrite (match_numeric_other c s Hc), (IH Hs).
  reflexivity.
Qed.

Lemma py_chr_raises (code : Z) (e : exn) :
  py_chr code = Raise e -> e = ValueError \/ e = OverflowError.
Proof.
  unfold py_chr. destruct (code <? 1114112); [discriminate|].
  destruct (code <=? 2147483647); intros H; inversion H; auto.
Qed.

Lemma sub_numeric_raises (s : str) :
  forall skip e,
    sub_numeric skip s = Raise e -> e = ValueError \/ e = OverflowError.
Proof.
  induction s as [|c s IH]; intros skip e H; [discriminate|].
  cbn [sub_numeric] in H. destruct skip as [|k]; [|exact (IH _ _ H)].
  destruct (match_numeric (c :: s)) as [[code len]|].
  - destruct (py_chr code) as [ch|e1] eqn:Ec; simpl in H.
    + destruct (sub_numeric (len - 1) s) as [rest|e2] eqn:Er; simpl in H;
        [discriminate|].
      inversion H; subst. exact (IH _ _ Er).
    + inversion H; subst. exact (@py_chr_raises _ _ Ec).
  - destruct (sub_numeric 0 s) as [rest|e2] eqn:Er; simpl in H;
      [discriminate|].
    inversion H; subst. exact (IH _ _ Er).
Qed.

(** X6.  [strip_html] either returns a text with no whitespace at either
    end, or raises [ValueError] or [OverflowError] (from [chr]); it returns,
    with the tags removed, the entities decoded and the ends trimmed,
    whenever the text holds no [&] once [html.unescape] has run. *)
Theorem strip_html_outcome (text : str) :
  match strip_html text with
  | Ok t => trimmed t
  | Raise e => e = ValueError \/ e = OverflowError
  end
  /\ (existsb (N.eqb 38) (html_unescape (remove_tags text)) = false ->
      strip_html text = Ok (strip (html_unescape (remove_tags text)))).
Proof.
  unfold strip_html. split.
  - destruct (sub_numeric 0 (html_unescape (remove_tags text))) as [t|e] eqn:E;
      simpl.
    + apply strip_trimmed.
    + exact (@sub_numeric_raises _ _ _ E).
  - intros H. now rewrite (sub_numeric_plain _ H).
Qed.

Lemma strip_prefix_app (p r : str) : strip_prefix p (p ++ r) = Some r.
Proof. induction p as [|x p IH]; simpl; auto. now rewrite N.eqb_refl. Qed.

Lemma strip_prefix_some (p s r : str) :
  strip_prefix p s = Some r -> s = p ++ r.
Proof.
  revert s. induction p as [|x p IH]; intros s H; simpl in *.
  - now inversion H.
  - destruct s as [|y s]; [discriminate|].
    destruct (x =? y)%N eqn:E; [|discriminate].
    apply N.eqb_eq in E. subst y. now rewrite (IH _ H).
Qed.

(** No proper prefix of [pat] is a suffix of it. *)
Definition borderless (pat : str) : bool :=
  forallb
    (fun k => negb (str_eqb (firstn k pat) (skipn (length pat - k) pat)))
    (seq 1 (length pat - 1)).

Lemma borderless_no_border (pat pre l l' : str) :
  borderless pat = true -> pat = pre ++ l -> pat = l ++ l' ->
  pre = [] \/ l = [].
Proof.
  intros Hb E1 E2.
  destruct pre as [|c pre]; [now left|].
  destruct l as [|d l]; [now right|]. exfalso.
  unfold borderless in Hb. rewrite forallb_forall in Hb.
  specialize (Hb (length (d :: l))).
  assert (Hin : In (length (d :: l)) (seq 1 (length pat - 1))).
  { apply in_seq. rewrite E1 at 1. rewrite length_app. simpl. lia. }
  specialize (Hb Hin).
  assert (F : firstn (length (d :: l)) pat = d :: l).
  { rewrite E2 at 1. rewrite firstn_app, Nat.sub_diag, firstn_all. simpl.
    now rewrite app_nil_r. }
  assert (S' : skipn (length pat - length (d :: l)) pat = d :: l).
  { rewrite E1 at 1. rewrite length_app.
    replace (length (c :: pre) + length (d :: l) - length (d :: l))%nat
      with (length (c :: pre)) by lia.
    rewrite E1. rewrite skipn_app, Nat.sub_diag, skipn_all. reflexivity. }
  rewrite F, S', str_eqb_refl in Hb. discriminate.
Qed.

Lemma find_sub_unfold (pat s : str) :
  find_sub pat s
  = match strip_prefix pat s with
    | Some rest => Some ([], rest)
    | None =>
        match s with
        | [] => None
        | c :: s' =>
            match find_sub pat s' with
            | Some (before, rest) => Some (c :: before, rest)
            | None => None
            end
        end
    end.
Proof. destruct s; reflexivity. Qed.

(** The first occurrence of a borderless pattern: after a text that does
    not hold it, it is found where it was put. *)
Lemma find_sub_first (pat pre rest : str) :
  borderless pat = true -> find_sub pat pre = None ->
  find_sub pat (pre ++ pat ++ rest) = Some (pre, rest).
Proof.
  intros Hb. induction pre as [|c pre IH]; intros H.
  - simpl app. rewrite find_sub_unfold. now rewrite strip_prefix_app.
  - cbn [find_sub] in H.
    destruct (strip_prefix pat (c :: pre)) as [x|] eqn:Ep; [discriminate|].
    destruct (find_sub pat pre) as [[b r]|] eqn:Ef; [discriminate|].
    simpl app. cbn [find_sub]. fold (pre ++ pat ++ rest).
    destruct (strip_prefix pat (c :: pre ++ pat ++ rest)) as [x|] eqn:Eq.
    + exfalso. apply strip_prefix_some in Eq.
      change (c :: pre ++ pat ++ rest) with ((c :: pre) ++ pat ++ rest) in Eq.
      apply app_eq_app in Eq. destruct Eq as [l [[E1 E2]|[E1 E2]]].
      * rewrite E1, strip_prefix_app in Ep. discriminate.
      * symmetry in E2. apply app_eq_app in E2.
        destruct E2 as [l' [[E3 E4]|[E3 E4]]].
        -- apply (f_equal (@length N)) in E1.
           rewrite E3, !length_app in E1. simpl in E1. lia.
        -- destruct (@borderless_no_border pat (c :: pre) l l' Hb E1 E3)
             as [F|F]; [discriminate|].
           subst l. rewrite app_nil_r in E1.
           rewrite <- E1 in Ep.
           pose proof (strip_prefix_app pat []) as F. rewrite app_nil_r in F.
           congruence.
    + now rewrite (IH eq_refl).
Qed.

(** X7.  [extract_cdata] returns what a CDATA section wraps: the text
    between the first [<![CDATA[] and the first []]>] after it, whatever
    surrounds the section; a text without a CDATA opener is returned
    whole. *)
Theorem extract_cdata_unwraps (pre inner post : str) :
  str_contains pre (lit "<![CDATA[") = false ->
  str_contains inner (lit "]]>") = false ->
  extract_cdata (pre ++ lit "<![CDATA[" ++ inner ++ lit "]]>" ++ post) = inner
  /\ extract_cdata pre = pre.
Proof.
  unfold str_contains, extract_cdata. intros H1 H2.
  destruct (find_sub (lit "<![CDATA[") pre) eqn:E1; [discriminate|].
  destruct (find_sub (lit "]]>") inner) eqn:E2; [discriminate|].
  split; [|reflexivity].
  rewrite (@find_sub_first (lit "<![CDATA[") pre _ eq_refl E1).
  now rewrite (@find_sub_first (lit "]]>") inner post eq_refl E2).
Qed.

(* ====================================================================== *)
(** * Further properties of the parser, the fetcher and [humanize_time] *)
(* ====================================================================== *)

(** What every article appended by [parse_feed_xml] satisfies. *)
Definition well_formed (feed : feed_info) (a : Article) : Prop :=
  nonempty (title a) || nonempty (link a) = true
  /\ trimmed (title a)
  /\ (length (description a) <= 500)%nat
  /\ source_name a = name feed
  /\ source_url a = htmlUrl feed.

Lemma strip_html_trimmed (text t : str) : strip_html text = Ok t -> trimmed t.
Proof.
  unfold strip_html. intros H. bind_inv H. inversion H. apply strip_trimmed.
Qed.

Lemma collect_forall {A B} (P : B -> Prop)
  (body : nat -> A -> result (option B)) :
  (forall k a b, body k a = Ok (Some b) -> P b) ->
  forall l k out,
    collect body k l = Ok out ->
    Forall P out /\ (length out <= length l)%nat.
Proof.
  intros Hbody. induction l as [|a l IH]; intros k out H; simpl in H.
  - inversion H. split; [constructor|apply Nat.le_refl].
  - destruct (body k a) as [r|e] eqn:Er; simpl in H; [|discriminate].
    destruct (collect body (S k) l) as [rest|e] eqn:Ec; simpl in H;
      [|discriminate].
    destruct (IH _ _ Ec) as [IH1 IH2].
    inversion H as [Hout]. destruct r as [b|]; simpl.
    + split; [constructor; [exact (Hbody _ _ _ Er)|exact IH1]|lia].
    + split; [exact IH1|lia].
Qed.

Lemma parse_atom_entry_well_formed (feed : feed_info) (namespace : str)
  (k : nat) (entry : element) (a : Article) :
  parse_atom_entry feed namespace k entry = Ok (Some a) -> well_formed feed a.
Proof.
  unfold parse_atom_entry. intros H.
  destruct (strip_html (get_tag_content entry (lit "title") namespace))
    as [t|e] eqn:Et; cbn [bind] in H; [|discriminate].
  destruct (strip_html _) as [d|e] eqn:Ed in H; cbn [bind] in H; [|discriminate].
  match type of H with
  | Ok (if ?c then Some ?r else None) = _ =>
      destruct c eqn:Ek; [|discriminate];
      assert (Ha : a = r) by congruence
  end.
  subst a.
  unfold well_formed;
    cbn [title link description source_name source_url].
  split; [exact Ek|].
  split; [exact (@strip_html_trimmed _ _ Et)|].
  split; [unfold str_take; apply firstn_le_length|].
  split; reflexivity.
Qed.

Lemma parse_rss_item_well_formed (feed : feed_info) (namespace : str)
  (k : nat) (item : element) (a : Article) :
  parse_rss_item feed namespace k item = Ok (Some a) -> well_formed feed a.
Proof.
  unfold parse_rss_item. intros H.
  destruct (strip_html (get_tag_content item (lit "title") namespace))
    as [t|e] eqn:Et; cbn [bind] in H; [|discriminate].
  destruct (strip_html _) as [d|e] eqn:Ed in H; cbn [bind] in H; [|discriminate].
  match type of H with
  | Ok (if ?c then Some ?r else None) = _ =>
      destruct c eqn:Ek; [|discriminate];
      assert (Ha : a = r) by congruence
  end.
  subst a.
  unfold well_formed;
    cbn [title link description source_name source_url].
  split; [exact Ek|].
  split; [exact (@strip_html_trimmed _ _ Et)|].
  split; [unfold str_take; apply firstn_le_length|].
  split; reflexivity.
Qed.

Lemma findall_length (e : element) (tag : str) :
  (length (findall e tag) <= length (el_children e))%nat.
Proof. unfold findall. apply filter_length_le. Qed.

Lemma findall_ns_length (e : element) (tag_name namespace : str) :
  (length (findall_ns e tag_name namespace) <= length (el_children e))%nat.
Proof.
  unfold findall_ns.
  destruct (negb _ && nonempty namespace); apply findall_length.
Qed.

(** X8.  Whatever the document, the articles [parse_feed_xml] returns have
    a non-empty title or a non-empty link, a title with no whitespace at
    either end, a description of at most 500 characters, and the name and
    the site address of the feed they were read from; there are at most as
    many of them as the root element has children. *)
Theorem parsed_articles_are_well_formed (xml_content : str) (feed : feed_info) :
  match parse_feed_xml xml_content feed with
  | Ok articles =>
      Forall (well_formed feed) articles
      /\ match ET_fromstring xml_content with
         | Some root => (length articles <= length (el_children root))%nat
         | None => articles = []
         end
  | Raise _ => True
  end.
Proof.
  destruct (parse_feed_xml xml_content feed) as [articles|e] eqn:E; [|exact I].
  unfold parse_feed_xml in E.
  destruct (ET_fromstring xml_content) as [root|].
  - destruct (namespace_of (el_tag root)) as [namespace|e]; simpl in E;
      [|discriminate].
    destruct (endswith _ _ || str_contains _ _) in E.
    + destruct (collect_forall (well_formed feed)
                  (parse_atom_entry feed namespace)
                  (@parse_atom_entry_well_formed feed namespace) _ _ E)
        as [H1 H2].
      split; [exact H1|].
      etransitivity; [exact H2|apply findall_ns_length].
    + destruct (collect_forall (well_formed feed)
                  (parse_rss_item feed namespace)
                  (@parse_rss_item_well_formed feed namespace) _ _ E)
        as [H1 H2].
      split; [exact H1|].
      etransitivity; [exact H2|apply findall_ns_length].
  - inversion E. split; [constructor|reflexivity].
Qed.

(** X9.  The items of an RSS document are looked for among the children of
    the root element only.  When the root is [<rss>] and none of its
    children is an [<item>] -- the layout of RSS 2.0, whose items are
    children of [<channel>] -- the parser returns no article, whatever the
    document holds further down. *)
Theorem rss_items_are_sought_under_the_root (xml_content : str)
  (feed : feed_info) (root : element) :
  ET_fromstring xml_content = Some root ->
  el_tag root = lit "rss" ->
  findall root (lit "item") = [] ->
  parse_feed_xml xml_content feed = Ok [].
Proof.
  intros Hroot Htag Hitems. unfold parse_feed_xml. rewrite Hroot, Htag.
  change (endswith (lit "rss") (lit "feed")
          || str_contains (lit "rss") (lit "http://www.w3.org/2005/Atom"))
    with false.
  change (namespace_of (lit "rss")) with (@Ok str []).
  cbn [bind]. unfold findall_ns. cbn [nonempty].
  rewrite Hitems. reflexivity.
Qed.

Lemma count_feeds_perm (p : feed_info -> bool) (l l' : list feed_info) :
  Permutation l l' -> count_feeds p l = count_feeds p l'.
Proof.
  unfold count_feeds. intros H. f_equal.
  induction H; simpl; auto.
  - destruct (p x); simpl; auto.
  - destruct (p x), (p y); reflexivity.
  - congruence.
Qed.

(** X10.  The order in which the feeds complete changes neither of the two
    counters of [fetch_all_feeds], and it changes the articles returned
    only in their order. *)
Theorem fetch_all_feeds_any_order (completed completed' : list feed_info) :
  Permutation completed completed' ->
  Permutation (fst (fst (fetch_all_feeds completed)))
              (fst (fst (fetch_all_feeds completed')))
  /\ snd (fst (fetch_all_feeds completed))
     = snd (fst (fetch_all_feeds completed'))
  /\ snd (fetch_all_feeds completed) = snd (fetch_all_feeds completed').
Proof.
  intros H. unfold fetch_all_feeds. rewrite !fetch_all_feeds_fold. simpl.
  split; [apply Permutation_concat, Permutation_map, H|].
  split; apply count_feeds_perm, H.
Qed.

Lemma age_of_thresholds (diff fields : Z) :
  age_of diff fields
  = if diff <? us_per_hour
    then MinutesAgo (Z.quot diff (60 * us_per_second))
    else if diff <? us_per_day then HoursAgo (diff / us_per_hour)
    else if diff <? 7 * us_per_day then DaysAgo (diff / us_per_day)
    else OnDate (fields / us_per_day).
Proof.
  unfold age_of, us_per_day, us_per_hour, us_per_second.
  change (60 * 1000000) with 60000000.
  change (3600 * 1000000) with 3600000000.
  change (24 * 3600000000) with 86400000000.
  change (7 * 86400000000) with 604800000000.
  destruct (Z.ltb_spec diff 3600000000) as [A|A].
  - destruct (Z.ltb_spec (Z.quot diff 60000000) 60) as [B|B]; [reflexivity|].
    exfalso. Z.to_euclidean_division_equations. lia.
  - assert (Q : Z.quot diff 60000000 = diff / 60000000)
      by (apply Z.quot_div_nonneg; lia).
    rewrite Q.
    assert (Hh : diff / 60000000 / 60 = diff / 3600000000)
      by (Z.to_euclidean_division_equations; lia).
    assert (Hd : diff / 3600000000 / 24 = diff / 86400000000)
      by (Z.to_euclidean_division_equations; lia).
    rewrite Hh, Hd.
    destruct (Z.ltb_spec (diff / 60000000) 60) as [B|B];
      [exfalso; Z.to_euclidean_division_equations; lia|].
    destruct (Z.ltb_spec diff 86400000000) as [C|C];
      destruct (Z.ltb_spec (diff / 3600000000) 24) as [D|D];
      try reflexivity;
      try (exfalso; Z.to_euclidean_division_equations; lia).
    destruct (Z.ltb_spec diff 604800000000) as [F|F];
      destruct (Z.ltb_spec (diff / 86400000000) 7) as [G|G];
      try reflexivity;
      exfalso; Z.to_euclidean_division_equations; lia.
Qed.

(** X11.  For an age below 2^53 microseconds in absolute value (the
    current instant minus the instant of the timestamp, a naive one being
    read as UTC), [humanize_time] does not raise and classifies the
    timestamp by that age: under one hour it shows whole minutes, truncated
    toward zero; from one hour to under 24 hours, whole hours; from one day
    to under seven days, whole days; from seven days on, the date of the
    timestamp.  A timestamp that is not in the past is shown as a number of
    minutes that is zero or negative. *)
Theorem humanize_time_by_age (now_us : Z) (d : datetime) :
  exact_age (now_us - instant d) ->
  let diff := now_us - instant d in
  humanize_time now_us d
  = Ok (if diff <? us_per_hour
        then MinutesAgo (Z.quot diff (60 * us_per_second))
        else if diff <? us_per_day then HoursAgo (diff / us_per_hour)
        else if diff <? 7 * us_per_day then DaysAgo (diff / us_per_day)
        else OnDate (wall d / us_per_day))
  /\ (diff <= 0 ->
      exists n, n <= 0 /\ humanize_time now_us d = Ok (MinutesAgo n)).
Proof.
  intros _ diff. rewrite humanize_time_age, age_of_thresholds. fold diff.
  split; [reflexivity|].
  intros Hd. exists (Z.quot diff (60 * us_per_second)).
  assert (L : (diff <? us_per_hour) = true)
    by (apply Z.ltb_lt; unfold us_per_hour, us_per_second; lia).
  rewrite L. split; [|reflexivity].
  unfold us_per_second. Z.to_euclidean_division_equations. lia.
Qed.

(* ====================================================================== *)
(** * Batching and merging in the two AI stages *)
(* ====================================================================== *)

Lemma chunks_sizes {A} (size : nat) (l : list A) :
  (0 < size)%nat ->
  Forall (fun c => (1 <= length c <= size)%nat) (chunks size l).
Proof.
  intros Hs. unfold chunks, range_step. apply Forall_forall. intros c Hc.
  apply in_map_iff in Hc. destruct Hc as (i & <- & Hi).
  apply in_map_iff in Hi. destruct Hi as (k & <- & Hk).
  apply in_seq in Hk. unfold slice.
  rewrite length_firstn, length_skipn.
  pose proof (Nat.div_mod_eq (length l + size - 1) size) as E.
  pose proof (Nat.mod_upper_bound (length l + size - 1) size) as U.
  nia.
Qed.

Lemma chunks_length {A} (size : nat) (l : list A) :
  length (chunks size l) = ((length l + size - 1) / size)%nat.
Proof. unfold chunks, range_step. now rewrite !length_map, length_seq. Qed.

(** X12.  The scoring stage numbers the articles 0, 1, 2, ... in input
    order and cuts them, in that order, into batches of one to ten items
    (ten in every batch but the last): one AI call per batch, the number of
    articles divided by ten and rounded up.  The batches run in waves of
    one or two, in batch order. *)
Theorem batches_partition_the_articles (articles : list Article) :
  let indexed := scoring_indexed articles in
  let batches := chunks BATCH_SIZE indexed in
  let waves := chunks MAX_CONCURRENT_REQUESTS batches in
  List.map index indexed = List.map Z.of_nat (seq 0 (length articles))
  /\ concat batches = indexed
  /\ Forall (fun b => (1 <= length b <= 10)%nat) batches
  /\ (forall pre b post,
        batches = pre ++ b :: post -> post <> [] -> length b = 10%nat)
  /\ length batches = ((length articles + 9) / 10)%nat
  /\ concat waves = batches
  /\ Forall (fun w => (1 <= length w <= 2)%nat) waves.
Proof.
  intros indexed batches waves.
  assert (S10 : (0 < BATCH_SIZE)%nat) by (unfold BATCH_SIZE; lia).
  assert (S2 : (0 < MAX_CONCURRENT_REQUESTS)%nat)
    by (unfold MAX_CONCURRENT_REQUESTS; lia).
  split.
  { unfold indexed, scoring_indexed. rewrite map_map. simpl.
    change (fun x : Z * Article => fst x) with (@fst Z Article).
    apply map_fst_enumerate. }
  split; [exact (concat_chunks indexed S10)|].
  split; [exact (chunks_sizes indexed S10)|].
  split.
  { intros pre b post E Hpost.
    pose proof (concat_chunks indexed S10) as C. fold batches in C.
    pose proof (chunks_length BATCH_SIZE indexed) as L. fold batches in L.
    assert (Hb : nth_error batches (length pre) = Some b).
    { rewrite E, nth_error_app2, Nat.sub_diag by lia. reflexivity. }
    unfold batches, chunks, range_step in Hb.
    rewrite nth_error_map in Hb.
    destruct (nth_error _ (length pre)) as [i|] eqn:Ei in Hb;
      [|discriminate].
    rewrite nth_error_map in Ei.
    destruct (nth_error (seq _ _) (length pre)) as [k|] eqn:Ek in Ei;
      [|discriminate].
    assert (Hlen : (length pre + 2 <= length batches)%nat).
    { rewrite E, length_app. destruct post; [congruence|simpl; lia]. }
    assert (Hk : k = length pre).
    { apply nth_error_nth with (d := O) in Ek. rewrite seq_nth in Ek; [lia|].
      rewrite <- L. lia. }
    simpl in Ei, Hb. inversion Ei; subst i. inversion Hb; subst b.
    unfold slice. rewrite length_firstn, length_skipn.
    pose proof (Nat.div_mod_eq (length indexed + BATCH_SIZE - 1) BATCH_SIZE)
      as D.
    pose proof (Nat.mod_upper_bound (length indexed + BATCH_SIZE - 1)
                  BATCH_SIZE) as U.
    rewrite L in Hlen. unfold BATCH_SIZE in *. nia. }
  split.
  { unfold batches. rewrite chunks_length. unfold indexed, scoring_indexed.
    rewrite length_map, enumerate_length. unfold BATCH_SIZE.
    replace (length articles + 10 - 1)%nat with (length articles + 9)%nat
      by lia.
    reflexivity. }
  split; [exact (concat_chunks batches S2)|].
  exact (chunks_sizes batches S2).
Qed.

(** X13.  The batch results are merged by index, the last writer winning:
    the record the score mapping holds for index [i] is the one reported by
    the last batch, in batch order, whose result has an entry for [i] --
    whether or not article [i] was sent in that batch -- and the mapping
    has no entry for [i] when no batch reports it.  The summaries are
    merged in the same way. *)
Theorem merge_keeps_the_last_report (articles : list Article) (lang : str)
  (i : Z) :
  let batches := chunks BATCH_SIZE (scoring_indexed articles) in
  let scores := score_articles_with_ai articles in
  dict_get scores (KInt i) = last_report i (List.map score_batch batches)
  /\ (forall pre b post v,
        batches = pre ++ b :: post ->
        dict_get (score_batch b) (KInt i) = Some v ->
        Forall (fun later => dict_get (score_batch later) (KInt i) = None)
          post ->
        dict_get scores (KInt i) = Some v)
  /\ dict_get (summarize_articles articles lang) (KInt i)
     = last_report i
         (List.map (summarize_batch lang)
            (chunks BATCH_SIZE (summary_indexed articles))).
Proof.
  intros batches scores.
  assert (E : dict_get scores (KInt i)
              = last_report i (List.map score_batch batches)).
  { unfold scores. rewrite score_articles_as_fold. fold batches.
    rewrite fold_update_last.
    - now destruct (last_report i (List.map score_batch batches)).
    - apply Forall_forall. intros r Hr. apply in_map_iff in Hr.
      destruct Hr as (b & <- & _). apply score_batch_single. }
  split; [exact E|].
  split.
  - intros pre b post v Hsplit Hb Hpost. rewrite E, Hsplit, map_app.
    rewrite last_report_app. simpl.
    rewrite last_report_none.
    + now rewrite Hb.
    + apply Forall_forall. intros r Hr. apply in_map_iff in Hr.
      destruct Hr as (later & <- & Hin).
      rewrite Forall_forall in Hpost. auto.
  - rewrite summarize_articles_as_fold, fold_update_last.
    + match goal with
      | |- match ?x with _ => _ end = _ => now destruct x
      end.
    + apply Forall_forall. intros r Hr. apply in_map_iff in Hr.
      destruct Hr as (b & <- & _). apply summarize_batch_single.
Qed.

(* ====================================================================== *)
(** * [parse_json_response] *)
(* ====================================================================== *)

(** [json.loads]; [Raise] when the text is not a JSON document. *)
Variable json_loads : str -> result json.

(** The Markdown code fence. *)
Definition fence : str := lit "```".

(** A line feed at the head of [s], when there is one: the [\n?] of the two
    patterns below. *)
Definition drop_line_feed (s : str) : str :=
  match s with
  | 10%N :: rest => rest
  | _ => s
  end.

(** [re.sub(r'^```(?:json)?\n?', '', text)]: the fence at the very start
    of the text, with the word [json] and one line feed when they follow
    it. *)
Definition strip_opening_fence (text : str) : str :=
  match strip_prefix fence text with
  | Some rest =>
      drop_line_feed
        (match strip_prefix (lit "json") rest with
         | Some rest' => rest'
         | None => rest
         end)
  | None => text
  end.

(** [re.sub(r'\n?```$', '', text)]: the fence at the very end of the text,
    or just before a line feed that ends it, with the line feed in front of
    the fence when there is one.  The text is read from its end. *)
Definition strip_closing_fence (text : str) : str :=
  match strip_prefix fence (rev text) with
  | Some before => rev (drop_line_feed before)
  | None =>
      match rev text with
      | 10%N :: r =>
          match strip_prefix fence r with
          | Some before => rev (10%N :: drop_line_feed before)
          | None => text
          end
      | _ => text
      end
  end.

Definition parse_json_response (text : str) : result json :=
  let text := strip text in
  let text :=
    if startswith text fence
    then strip_closing_fence (strip_opening_fence text)
    else text in
  json_loads text.

Lemma lstrip_spaces (ws s : str) :
  forallb is_space ws = true -> lstrip (ws ++ s) = lstrip s.
Proof.
  induction ws as [|c ws IH]; simpl; auto.
  intros H. apply andb_prop in H. destruct H as [Hc Hws].
  rewrite Hc. auto.
Qed.

Lemma forallb_rev {A} (p : A -> bool) (l : list A) :
  forallb p l = true -> forallb p (rev l) = true.
Proof.
  rewrite !forallb_forall. intros H x Hx. apply H. now apply in_rev.
Qed.

(** Whitespace around a text that has none at either end is what [strip]
    removes. *)
Lemma strip_padded (ws1 s ws2 : str) :
  forallb is_space ws1 = true -> forallb is_space ws2 = true ->
  trimmed s -> s <> [] ->
  strip (ws1 ++ s ++ ws2) = s.
Proof.
  intros H1 H2 [T1 T2] Hs. unfold strip.
  rewrite (@lstrip_spaces ws1 _ H1).
  assert (L : lstrip (s ++ ws2) = s ++ ws2).
  { destruct s as [|c s]; [congruence|]. simpl in *. now rewrite T1. }
  rewrite L, rev_app_distr, (@lstrip_spaces (rev ws2) _ (forallb_rev _ _ H2)).
  rewrite (@lstrip_fixed (rev s) T2). apply rev_involutive.
Qed.

Lemma fenced_trimmed (tag body : str) :
  trimmed (fence ++ tag ++ 10%N :: body ++ 10%N :: fence)
  /\ fence ++ tag ++ 10%N :: body ++ 10%N :: fence <> [].
Proof.
  split; [split|discriminate].
  - reflexivity.
  - change (10%N :: body ++ 10%N :: fence)
      with ([10%N] ++ body ++ [10%N] ++ fence).
    rewrite !rev_app_distr. reflexivity.
Qed.

Lemma strip_closing_fence_app (body : str) :
  strip_closing_fence (body ++ 10%N :: fence) = body.
Proof.
  unfold strip_closing_fence.
  change (10%N :: fence) with ([10%N] ++ fence).
  rewrite !rev_app_distr.
  change (rev fence) with fence. rewrite <- app_assoc, strip_prefix_app.
  simpl. apply rev_involutive.
Qed.

(** X14.  [parse_json_response] unwraps a reply given as a Markdown code
    block: from a text that consists, whitespace at both ends apart, of the
    fence, optionally the word [json], a line feed, a body, a line feed and
    the fence, it decodes the body alone; a reply that does not begin with
    the fence is decoded as it is, trimmed. *)
Theorem fenced_reply_is_unwrapped (ws1 body ws2 text : str) :
  forallb is_space ws1 = true -> forallb is_space ws2 = true ->
  parse_json_response
    (ws1 ++ (fence ++ lit "json" ++ 10%N :: body ++ 10%N :: fence) ++ ws2)
  = json_loads body
  /\ parse_json_response
       (ws1 ++ (fence ++ 10%N :: body ++ 10%N :: fence) ++ ws2)
     = json_loads body
  /\ (startswith (strip text) fence = false ->
      parse_json_response text = json_loads (strip text)).
Proof.
  intros H1 H2. unfold parse_json_response.
  split; [|split].
  - destruct (fenced_trimmed (lit "json") body) as [T N].
    rewrite (@strip_padded ws1 _ ws2 H1 H2 T N).
    change (startswith (fence ++ lit "json" ++ 10%N :: body ++ 10%N :: fence)
              fence) with true.
    cbv iota. unfold strip_opening_fence.
    rewrite strip_prefix_app, strip_prefix_app. cbn [drop_line_feed].
    now rewrite strip_closing_fence_app.
  - destruct (fenced_trimmed [] body) as [T N].
    change (fence ++ 10%N :: body ++ 10%N :: fence)
      with (fence ++ [] ++ 10%N :: body ++ 10%N :: fence).
    rewrite (@strip_padded ws1 _ ws2 H1 H2 T N).
    change (startswith (fence ++ [] ++ 10%N :: body ++ 10%N :: fence) fence)
      with true.
    cbv iota. unfold strip_opening_fence.
    rewrite strip_prefix_app. cbn [app].
    change (strip_prefix (lit "json") (10%N :: body ++ 10%N :: fence))
      with (@None str).
    cbn [drop_line_feed].
    now rewrite strip_closing_fence_app.
  - now intros ->.
Qed.

(* ====================================================================== *)
(** * [generate_highlights] and the run of [main_async] *)
(* ====================================================================== *)

(** Whether [v[:n]] is defined: a [str] and a [list] can be sliced. *)
Definition sliceable (v : json) : bool :=
  match v with
  | JStr _ | JArr _ => true
  | _ => false
  end.

(** The exception [d[:n]] raises for a [dict] [d]: [TypeError] (a slice is
    not hashable) up to Python 3.11, [KeyError] (one of the exceptions
    [OtherError] stands for) from Python 3.12 on. *)
Variable dict_slice_error : exn.

(** The exception [v[:n]] raises for a value that cannot be sliced. *)
Definition slice_error (v : json) : exn :=
  match v with
  | JObj _ => dict_slice_error
  | _ => TypeError
  end.

Definition is_str (v : json) : bool :=
  match v with
  | JStr _ => true
  | _ => false
  end.

(** A loop that evaluates, for each element in turn, an expression that
    raises [err a] unless [ok a] holds of the element [a]. *)
Definition check_each {A} (ok : A -> bool) (err : A -> exn) (l : list A)
  : result unit :=
  for_each (fun (_ : unit) a => if ok a then Ok tt else Raise (err a)) l tt.

(** The value of [await ai_client.call(prompt)] for the prompt built from
    the articles shown and the language, or the exception raised by the
    call. *)
Variable highlights_reply : list ScoredArticle -> str -> result str.

(** The list comprehension that builds the prompt reads [a.summary[:100]]
    of each of [articles[:10]], before the [try]; the call and
    [text.strip()] are inside it. *)
Definition generate_highlights (articles : list ScoredArticle) (lang : str)
  : result str :=
  let shown := slice_to articles 10 in
  _ <- check_each (fun a => sliceable (summary a))
         (fun a => slice_error (summary a)) shown ;;
  Ok (try_except (text <- highlights_reply shown lang ;; Ok (strip text)) []).

(** [', '.join(a.keywords)], evaluated when [a.keywords] is not empty: it
    raises [TypeError] on an element that is not a [str]. *)
Definition joinable (a : ScoredArticle) : bool := forallb is_str (keywords a).

(** [generate_digest_report] with the exceptions it can raise: the [join]
    of the keywords of the three showcased articles, then of every listed
    article. *)
Definition render_report (articles : list ScoredArticle) (highlights : str)
  (total_feeds : Z) : result (list block) :=
  _ <- (if (3 <=? length articles)%nat
        then check_each joinable (fun _ => TypeError) (firstn 3 articles)
        else Ok tt) ;;
  _ <- check_each joinable (fun _ => TypeError)
         (concat (List.map snd (sorted_cats articles))) ;;
  Ok (generate_digest_report articles highlights total_feeds).

(** Whether [s.encode('utf-8')] succeeds: [s] holds no surrogate code point
    (U+D800 to U+DFFF). *)
Definition encodable (s : str) : bool :=
  forallb (fun c => negb ((55296 <=? c) && (c <=? 57343))%N) s.

(** Truthiness of a decoded value. *)
Definition truthy (v : json) : bool :=
  match v with
  | JNull => false
  | JBool b => b
  | JInt z => negb (z =? 0)
  | JFloat (FFinite m _) => negb (m =? 0)
  | JFloat _ => true
  | JStr s => nonempty s
  | JArr l => nonempty l
  | JObj items => nonempty items
  end.

(** Whether the text an f-string inserts for [v] can be encoded: a [str]
    is inserted as it is; the text of every other value holds no
    surrogate, the [repr] of a [str] inside a list or a dict escaping
    them. *)
Definition format_encodable (v : json) : bool :=
  match v with
  | JStr s => encodable s
  | _ => true
  end.

(** The texts of article [a] in a list entry: [a.title_zh or a.title], the
    title, the link, the source name, the summary and the keywords. *)
Definition entry_encodable (a : ScoredArticle) : bool :=
  format_encodable
    (if truthy (title_zh a) then title_zh a else JStr (sa_title a))
  && encodable (sa_title a) && encodable (sa_link a)
  && encodable (sa_source_name a)
  && format_encodable (summary a)
  && forallb format_encodable (keywords a).

(** A showcase entry adds the rationale, when there is one. *)
Definition rationale_encodable (a : ScoredArticle) : bool :=
  if truthy (reason a) then format_encodable (reason a) else true.

Definition articles_encodable (articles : list ScoredArticle) : bool :=
  forallb entry_encodable articles
  && (if (3 <=? length articles)%nat
      then forallb rationale_encodable (firstn 3 articles)
      else true).

(** Whether the report of [articles] and [highlights] can be encoded; what
    else the report holds are constants, dates and numbers. *)
Definition report_encodable (articles : list ScoredArticle)
  (highlights : str) : bool :=
  encodable highlights && articles_encodable articles.

(** The first and the last instant a [datetime] can hold:
    0001-01-01T00:00:00 and 9999-12-31T23:59:59.999999. *)
Definition datetime_min : Z := -62135596800000000.
Definition datetime_max : Z := 253402300799999999.

(** [datetime.now(timezone.utc) - timedelta(hours=args.hours)] raises
    [OverflowError] when the result is out of range. *)
Definition cutoff_representable (now_us hours : Z) : bool :=
  (datetime_min <=? wall (cutoff_time now_us hours))
  && (wall (cutoff_time now_us hours) <=? datetime_max).

(** The preview printed after the report is written:
    [a.summary[:80]] of [final_articles[:3]]. *)
Definition preview (final : list ScoredArticle) : result unit :=
  check_each (fun a => sliceable (summary a))
    (fun a => slice_error (summary a)) (slice_to final 3).

(** How a run of [main_async] ends: [sys.exit(code)]; an exception that
    leaves it before the report is written; or the report that
    [write_text] has encoded, with the outcome of the preview that
    follows.  Errors of the file system and of the console are not
    modelled. *)
Inductive outcome :=
| Exit (code : Z)
| Raised (e : exn)
| Written (report : list block) (after : result unit).

(** [api_key] is the value of [OPENAI_API_KEY] (empty when unset),
    [completed] the catalog in the order its feeds complete, [now_us] the
    clock when the cutoff is computed.
    [output_file.write_text(report, encoding='utf-8')] raises
    [UnicodeEncodeError], which is a [ValueError], when the report holds a
    surrogate code point. *)
Definition main_async (api_key : str) (completed : list feed_info)
  (now_us hours top_n : Z) (lang : str) : outcome :=
  if negb (nonempty (strip api_key)) then Exit 1
  else
    let '(all_articles, success_count, fail_count) :=
      fetch_all_feeds completed in
    if negb (nonempty all_articles) then Exit 1
    else if negb (cutoff_representable now_us hours) then Raised OverflowError
    else
      match recent_articles now_us hours all_articles with
      | Raise e => Raised e
      | Ok recent =>
          if negb (nonempty recent) then Exit 1
          else
            let final := curate recent top_n lang in
            match generate_highlights final lang with
            | Raise e => Raised e
            | Ok highlights =>
                match render_report final highlights
                        (Z.of_nat (length completed)) with
                | Raise e => Raised e
                | Ok report =>
                    if report_encodable final highlights
                    then Written report (preview final)
                    else Raised ValueError
                end
            end
      end.

Lemma check_each_spec {A} (ok : A -> bool) (err : A -> exn) (l : list A) :
  check_each ok err l
  = match List.find (fun a => negb (ok a)) l with
    | Some a => Raise (err a)
    | None => Ok tt
    end.
Proof.
  unfold check_each. induction l as [|a l IH]; simpl; auto.
  destruct (ok a); simpl; auto.
Qed.

Lemma find_failure {A} (ok : A -> bool) (l : list A) :
  match List.find (fun a => negb (ok a)) l with
  | Some a => forallb ok l = false
  | None => forallb ok l = true
  end.
Proof.
  induction l as [|a l IH]; simpl; auto.
  destruct (ok a); simpl; auto.
Qed.

Lemma find_first_failure {A} (ok : A -> bool) (l : list A) :
  match List.find (fun a => negb (ok a)) l with
  | Some a =>
      exists before rest,
        l = before ++ a :: rest
        /\ forallb ok before = true /\ ok a = false
  | None => forallb ok l = true
  end.
Proof.
  induction l as [|x l IH]; simpl; auto.
  destruct (ok x) eqn:E; simpl.
  - destruct (List.find _ l) as [a|]; [|exact IH].
    destruct IH as (before & rest & -> & Hb & Ha).
    exists (x :: before), rest. simpl. rewrite E. auto.
  - exists [], l. auto.
Qed.

Lemma check_each_type_error {A} (ok : A -> bool) (l : list A) :
  check_each ok (fun _ => TypeError) l
  = if forallb ok l then Ok tt else Raise TypeError.
Proof.
  rewrite check_each_spec. pose proof (find_failure ok l) as H.
  destruct (List.find _ l); now rewrite H.
Qed.

Lemma check_each_ok {A} (ok : A -> bool) (err : A -> exn) (l : list A) :
  forallb ok l = true -> check_each ok err l = Ok tt.
Proof.
  intros H. rewrite check_each_spec. pose proof (find_failure ok l) as F.
  destruct (List.find _ l); [congruence|reflexivity].
Qed.

Lemma forallb_perm {A} (p : A -> bool) (l l' : list A) :
  Permutation l l' -> forallb p l = forallb p l'.
Proof.
  induction 1; simpl; auto.
  - now rewrite IHPermutation.
  - destruct (p x), (p y); reflexivity.
  - congruence.
Qed.

Lemma forallb_firstn {A} (p : A -> bool) (n : nat) (l : list A) :
  forallb p l = true -> forallb p (firstn n l) = true.
Proof.
  rewrite !forallb_forall. intros H x Hx. apply H. eapply in_firstn, Hx.
Qed.

Lemma listed_perm (articles : list ScoredArticle) :
  Permutation (concat (List.map snd (sorted_cats articles))) articles.
Proof.
  destruct (cat_groups_spec articles) as (_ & _ & _ & Hperm).
  etransitivity; [|exact Hperm].
  apply Permutation_concat, Permutation_map, sorted_cats_perm.
Qed.

Lemma render_report_spec (articles : list ScoredArticle) (highlights : str)
  (total_feeds : Z) :
  render_report articles highlights total_feeds
  = if forallb joinable articles
    then Ok (generate_digest_report articles highlights total_feeds)
    else Raise TypeError.
Proof.
  unfold render_report. rewrite !check_each_type_error.
  rewrite (forallb_perm joinable (listed_perm articles)).
  destruct (forallb joinable articles) eqn:E.
  - rewrite (forallb_firstn joinable 3 articles E).
    now destruct (3 <=? length articles)%nat.
  - destruct (3 <=? length articles)%nat; [|reflexivity].
    now destruct (forallb joinable (firstn 3 articles)).
Qed.

(** The text of the highlights once the prompt is built. *)
Definition highlights_text (articles : list ScoredArticle) (lang : str)
  : str :=
  match highlights_reply (firstn 10 articles) lang with
  | Ok text => strip text
  | Raise _ => []
  end.

Lemma generate_highlights_spec (articles : list ScoredArticle) (lang : str) :
  generate_highlights articles lang
  = match List.find (fun a => negb (sliceable (summary a)))
            (firstn 10 articles) with
    | Some a => Raise (slice_error (summary a))
    | None => Ok (highlights_text articles lang)
    end.
Proof.
  unfold generate_highlights, highlights_text.
  change (slice_to articles 10) with (firstn 10 articles).
  rewrite check_each_spec.
  destruct (List.find _ (firstn 10 articles)); [reflexivity|].
  cbn [bind]. now destruct (highlights_reply (firstn 10 articles) lang).
Qed.

Lemma firstn_firstn_le {A} (n m : nat) (l : list A) :
  (n <= m)%nat -> firstn n (firstn m l) = firstn n l.
Proof. intros H. rewrite firstn_firstn. f_equal. lia. Qed.

Lemma preview_spec (final : list ScoredArticle) :
  forallb (fun a => sliceable (summary a)) (firstn 10 final) = true ->
  preview final = Ok tt.
Proof.
  intros H. unfold preview.
  change (slice_to final 3) with (firstn 3 final).
  apply check_each_ok.
  rewrite <- (firstn_firstn_le final (n := 3) (m := 10)) by lia.
  now apply forallb_firstn.
Qed.

(** The articles fetched, the articles the time filter keeps and the
    articles selected for the report. *)
Definition fetched_articles (completed : list feed_info) : list Article :=
  concat (List.map fetch_feed completed).

Definition kept_articles (completed : list feed_info) (now_us hours : Z)
  : list Article :=
  filter (fun a => now_us - hours * us_per_hour <? wall (pub_date a))
    (fetched_articles completed).

Definition selected_articles (completed : list feed_info)
  (now_us hours top_n : Z) (lang : str) : list ScoredArticle :=
  curate (kept_articles completed now_us hours) top_n lang.

(** What the run does with the selection, once the exit checks are
    passed. *)
Definition publish (final : list ScoredArticle) (lang : str)
  (total_feeds : Z) : outcome :=
  match List.find (fun a => negb (sliceable (summary a))) (firstn 10 final)
  with
  | Some a => Raised (slice_error (summary a))
  | None =>
      if negb (forallb joinable final) then Raised TypeError
      else if negb (report_encodable final (highlights_text final lang))
      then Raised ValueError
      else Written
             (generate_digest_report final (highlights_text final lang)
                total_feeds)
             (Ok tt)
  end.

(** The run, decision by decision. *)
Lemma main_async_spec (api_key : str) (completed : list feed_info)
  (now_us hours top_n : Z) (lang : str) :
  main_async api_key completed now_us hours top_n lang
  = if negb (nonempty (strip api_key)) then Exit 1
    else if negb (nonempty (fetched_articles completed)) then Exit 1
    else if negb (cutoff_representable now_us hours)
    then Raised OverflowError
    else if negb (nonempty (kept_articles completed now_us hours))
    then Exit 1
    else publish (selected_articles completed now_us hours top_n lang) lang
           (Z.of_nat (length completed)).
Proof.
  unfold main_async.
  destruct (negb (nonempty (strip api_key))); [reflexivity|].
  unfold fetch_all_feeds. rewrite fetch_all_feeds_fold. cbn [app].
  fold (fetched_articles completed).
  destruct (negb (nonempty (fetched_articles completed))); [reflexivity|].
  destruct (negb (cutoff_representable now_us hours)); [reflexivity|].
  rewrite recent_articles_by_fields.
  fold (kept_articles completed now_us hours).
  destruct (negb (nonempty (kept_articles completed now_us hours)));
    [reflexivity|].
  fold (selected_articles completed now_us hours top_n lang).
  unfold publish. rewrite generate_highlights_spec.
  pose proof (find_failure (fun a => sliceable (summary a))
                (firstn 10 (selected_articles completed now_us hours top_n
                              lang))) as F.
  destruct (List.find _ (firstn 10 _)); [reflexivity|].
  rewrite render_report_spec.
  destruct (forallb joinable _); [|reflexivity].
  cbn [negb]. destruct (report_encodable _ _); [|reflexivity].
  cbn [negb]. now rewrite (preview_spec _ F).
Qed.

Lemma publish_never_exits (final : list ScoredArticle) (lang : str)
  (total_feeds code : Z) :
  publish final lang total_feeds <> Exit code.
Proof.
  unfold publish.
  destruct (List.find _ _); [discriminate|].
  destruct (negb (forallb joinable final)); [discriminate|].
  destruct (negb (report_encodable _ _)); discriminate.
Qed.

Lemma nonempty_false {A} (l : list A) : nonempty l = false <-> l = [].
Proof. destruct l; simpl; split; intros H; congruence. Qed.

(** X15.  [main_async] exits, always with status 1, in exactly three
    cases: the API key is empty or blank; no feed delivered an article; or
    (the cutoff being a representable date) no article passes the time
    filter. *)
Theorem main_async_exit_conditions (api_key : str)
  (completed : list feed_info) (now_us hours top_n : Z) (lang : str) :
  (main_async api_key completed now_us hours top_n lang = Exit 1
   <-> strip api_key = []
       \/ Forall (fun feed => fetch_feed feed = []) completed
       \/ (cutoff_representable now_us hours = true
           /\ kept_articles completed now_us hours = []))
  /\ (forall code,
        main_async api_key completed now_us hours top_n lang = Exit code ->
        code = 1).
Proof.
  rewrite main_async_spec.
  assert (F : Forall (fun feed => fetch_feed feed = []) completed
              <-> fetched_articles completed = []).
  { unfold fetched_articles. rewrite concat_nil_Forall, Forall_map.
    reflexivity. }
  destruct (strip api_key) as [|c key'] eqn:Ekey; cbn [nonempty negb].
  { split; [split; auto|]. intros code H. now inversion H. }
  destruct (fetched_articles completed) as [|a fetched'] eqn:Ef;
    cbn [nonempty negb].
  { split; [split; intros _; [right; left; apply F|]; reflexivity|].
    intros code H. now inversion H. }
  destruct (cutoff_representable now_us hours) eqn:Ec; cbn [negb].
  2:{ split; [|intros code H; discriminate].
      split; [discriminate|].
      intros [H|[H|[H _]]]; [discriminate| |discriminate].
      apply F in H. discriminate. }
  destruct (kept_articles completed now_us hours) as [|r kept'] eqn:Ek;
    cbn [nonempty negb].
  { split; [split; auto|]. intros code H. now inversion H. }
  split.
  - split.
    + intros H. exfalso. exact (publish_never_exits _ _ _ H).
    + intros [H|[H|[_ H]]]; [discriminate| |discriminate].
      apply F in H. discriminate.
  - intros code H. exfalso. exact (publish_never_exits _ _ _ H).
Qed.

Lemma slice_to_length {A} (l : list A) (n : Z) :
  length (slice_to l n)
  = if 0 <=? n then Nat.min (Z.to_nat n) (length l)
    else (length l - Z.to_nat (- n))%nat.
Proof.
  unfold slice_to. destruct (0 <=? n); rewrite length_firstn; lia.
Qed.

Lemma curate_length (recent : list Article) (top_n : Z) (lang : str) :
  length (curate recent top_n lang)
  = if 0 <=? top_n then Nat.min (Z.to_nat top_n) (length recent)
    else (length recent - Z.to_nat (- top_n))%nat.
Proof.
  unfold curate, final_articles, top_articles_data.
  rewrite length_map, enumerate_length, slice_to_length, sort_desc_length.
  unfold scored_articles. now rewrite length_map, enumerate_length.
Qed.

(** Every selected article is one of the input articles, with its own
    fields. *)
Lemma curate_provenance (recent : list Article) (top_n : Z) (lang : str)
  (a : ScoredArticle) :
  In a (curate recent top_n lang) ->
  exists article,
    In article recent
    /\ sa_title a = title article /\ sa_link a = link article
    /\ sa_pub_date a = pub_date article
    /\ sa_description a = description article
    /\ sa_source_name a = source_name article
    /\ sa_source_url a = source_url article.
Proof.
  unfold curate, final_articles. intros H.
  apply in_map_iff in H. destruct H as ([i item] & <- & Hin).
  apply in_enumerate in Hin. unfold top_articles_data in Hin.
  apply in_slice_to, in_sort_desc in Hin.
  unfold scored_articles in Hin. apply in_map_iff in Hin.
  destruct Hin as ([j article] & <- & Hin). apply in_enumerate in Hin.
  exists article. cbn [snd se_article sa_title sa_link sa_pub_date
                      sa_description sa_source_name sa_source_url].
  repeat (split; [reflexivity || exact Hin|]). reflexivity.
Qed.


(** What a run that ends with [Written] went through. *)
Lemma main_async_written (api_key : str) (completed : list feed_info)
  (now_us hours top_n : Z) (lang : str) (report : list block)
  (after : result unit) :
  main_async api_key completed now_us hours top_n lang = Written report after ->
  let final := selected_articles completed now_us hours top_n lang in
  after = Ok tt
  /\ report = generate_digest_report final (highlights_text final lang)
                (Z.of_nat (length completed))
  /\ forallb (fun a => sliceable (summary a)) (firstn 10 final) = true
  /\ forallb joinable final = true
  /\ report_encodable final (highlights_text final lang) = true.
Proof.
  intros H final. rewrite main_async_spec in H. fold final in H.
  destruct (negb (nonempty (strip api_key))); [discriminate|].
  destruct (negb (nonempty (fetched_articles completed))); [discriminate|].
  destruct (negb (cutoff_representable now_us hours)); [discriminate|].
  destruct (negb (nonempty (kept_articles completed now_us hours)));
    [discriminate|].
  unfold publish in H.
  pose proof (find_failure (fun a => sliceable (summary a))
                (firstn 10 final)) as F.
  destruct (List.find _ (firstn 10 final)); [discriminate|].
  destruct (forallb joinable final); [|discriminate].
  destruct (report_encodable final (highlights_text final lang));
    [|discriminate].
  cbn [negb] in H. inversion H. auto.
Qed.

(** X16.  When a run writes a report, the report lists only articles that
    were fetched and passed the time filter, each with its own title, link,
    timestamp and source; it lists [top_n] of them, or all of them when
    fewer passed the filter -- and, for a negative [top_n], all but that
    many; and the preview printed afterwards does not raise. *)
Theorem written_report_lists_the_selection (api_key : str)
  (completed : list feed_info) (now_us hours top_n : Z) (lang : str)
  (report : list block) (after : result unit) :
  main_async api_key completed now_us hours top_n lang = Written report after ->
  let kept := kept_articles completed now_us hours in
  after = Ok tt
  /\ length (listed_of report)
     = (if 0 <=? top_n then Nat.min (Z.to_nat top_n) (length kept)
        else (length kept - Z.to_nat (- top_n))%nat)
  /\ (forall a, In a (listed_of report) ->
        exists article,
          In article (fetched_articles completed)
          /\ now_us - hours * us_per_hour < wall (pub_date article)
          /\ sa_title a = title article /\ sa_link a = link article
          /\ sa_pub_date a = pub_date article
          /\ sa_source_name a = source_name article).
Proof.
  intros H kept.
  destruct (main_async_written _ _ _ _ _ _ H) as (Ha & Hr & _ & _).
  assert (P : Permutation (listed_of report)
                (selected_articles completed now_us hours top_n lang)).
  { rewrite Hr.
    destruct (report_structure
                (selected_articles completed now_us hours top_n lang)
                (highlights_text
                   (selected_articles completed now_us hours top_n lang) lang)
                (Z.of_nat (length completed))) as (_ & -> & _).
    apply listed_perm. }
  split; [exact Ha|].
  split.
  - rewrite (Permutation_length P). unfold selected_articles.
    apply curate_length.
  - intros a Hin. apply (Permutation_in _ P) in Hin.
    unfold selected_articles in Hin. apply curate_provenance in Hin.
    destruct Hin as (article & Hk & Ht & Hl & Hp & _ & Hs & _).
    unfold kept_articles in Hk. apply filter_In in Hk.
    destruct Hk as [Hf Hc]. apply Z.ltb_lt in Hc.
    exists article. auto 10.
Qed.

(** The run of a selection that passed the exit checks. *)
Lemma main_async_publishes (api_key : str) (completed : list feed_info)
  (now_us hours top_n : Z) (lang : str) :
  strip api_key <> [] -> fetched_articles completed <> [] ->
  cutoff_representable now_us hours = true ->
  kept_articles completed now_us hours <> [] ->
  main_async api_key completed now_us hours top_n lang
  = publish (selected_articles completed now_us hours top_n lang) lang
      (Z.of_nat (length completed)).
Proof.
  intros Hkey Hf Hc Hk. rewrite main_async_spec, Hc.
  destruct (strip api_key); [congruence|].
  destruct (fetched_articles completed); [congruence|].
  destruct (kept_articles completed now_us hours); [congruence|].
  reflexivity.
Qed.

(** X17.  With the API key present and some article fetched, these are
    ways for an exception to leave [main_async] with no report written.
    The cutoff is not a representable date: [OverflowError].  Otherwise,
    some article having passed the time filter: one of the first ten
    selected articles has a summary that is neither a string nor a list,
    and the slice of the first such summary raises; or, the summaries
    being sound, a selected article has a keyword that is not a string:
    [TypeError]; or, the keywords being sound too, a text of a selected
    article holds a surrogate code point, which cannot be encoded:
    [UnicodeEncodeError], a [ValueError]. *)
Theorem uncaught_exceptions_of_a_run (api_key : str)
  (completed : list feed_info) (now_us hours top_n : Z) (lang : str) :
  let final := selected_articles completed now_us hours top_n lang in
  let run := main_async api_key completed now_us hours top_n lang in
  let sound_summary := fun a => sliceable (summary a) in
  strip api_key <> [] -> fetched_articles completed <> [] ->
  (cutoff_representable now_us hours = false -> run = Raised OverflowError)
  /\ (cutoff_representable now_us hours = true ->
      kept_articles completed now_us hours <> [] ->
      (forallb sound_summary (firstn 10 final) = false ->
       exists shown a rest,
         firstn 10 final = shown ++ a :: rest
         /\ forallb sound_summary shown = true
         /\ sound_summary a = false
         /\ run = Raised (slice_error (summary a)))
      /\ (forallb sound_summary (firstn 10 final) = true ->
          forallb joinable final = false -> run = Raised TypeError)
      /\ (forallb sound_summary (firstn 10 final) = true ->
          forallb joinable final = true ->
          articles_encodable final = false -> run = Raised ValueError)).
Proof.
  intros final run sound_summary Hkey Hf. split.
  - intros Hc. unfold run. rewrite main_async_spec, Hc.
    destruct (strip api_key); [congruence|].
    destruct (fetched_articles completed); [congruence|]. reflexivity.
  - intros Hc Hk. unfold run.
    rewrite (@main_async_publishes api_key completed now_us hours top_n lang
               Hkey Hf Hc Hk).
    fold final. unfold publish.
    pose proof (find_first_failure sound_summary (firstn 10 final)) as F.
    change (fun a => negb (sliceable (summary a)))
      with (fun a => negb (sound_summary a)).
    destruct (List.find _ (firstn 10 final)) as [a|].
    { destruct F as (shown & rest & E & Hshown & Ha).
      split; [|split].
      - intros _. exists shown, a, rest. auto.
      - intros H. rewrite E, forallb_app in H. cbn [forallb] in H.
        rewrite Ha, Bool.andb_false_r in H. discriminate.
      - intros H. rewrite E, forallb_app in H. cbn [forallb] in H.
        rewrite Ha, Bool.andb_false_r in H. discriminate. }
    split; [intros H; congruence|].
    split.
    + intros _ Hj. now rewrite Hj.
    + intros _ Hj He. rewrite Hj. cbn [negb]. unfold report_encodable.
      now rewrite He, Bool.andb_false_r.
Qed.


(* ====================================================================== *)
(** * Undated entries and the numbering of the report *)
(* ====================================================================== *)

Lemma recent_articles_one (now_us hours : Z) (a : Article) :
  now_us - hours * us_per_hour < wall (pub_date a) ->
  recent_articles now_us hours [a] = Ok [a].
Proof.
  intros H. rewrite recent_articles_by_fields. cbn [filter].
  apply Z.ltb_lt in H. now rewrite H.
Qed.

(** X21.  An entry whose date text is missing or cannot be parsed is
    stamped with the time at which it is read, in the Atom branch and in
    the RSS branch alike; the time filter then keeps it whenever that
    reading time lies inside the window.  The date text of an entry
    without any date element is empty, and the empty text parses to
    nothing. *)
Theorem undated_entries_are_stamped_on_reading (feed : feed_info)
  (namespace : str) (k : nat) (e : element) (a : Article) :
  (parse_atom_entry feed namespace k e = Ok (Some a) ->
   parse_date
     (str_or (get_tag_content e (lit "published") namespace)
             (get_tag_content e (lit "updated") namespace)) = None ->
   pub_date a = utc_now (now_reading feed k)
   /\ forall now_us hours,
        now_us - hours * us_per_hour < now_reading feed k ->
        recent_articles now_us hours [a] = Ok [a])
  /\ (parse_rss_item feed namespace k e = Ok (Some a) ->
      parse_date
        (str_or (get_tag_content e (lit "pubDate") namespace)
           (str_or (get_tag_content e (lit "dc:date") namespace)
                   (get_tag_content e (lit "date") namespace))) = None ->
      pub_date a = utc_now (now_reading feed k)
      /\ forall now_us hours,
           now_us - hours * us_per_hour < now_reading feed k ->
           recent_articles now_us hours [a] = Ok [a])
  /\ parse_date [] = None.
Proof.
  assert (F : pub_date a = utc_now (now_reading feed k) ->
              forall now_us hours,
                now_us - hours * us_per_hour < now_reading feed k ->
                recent_articles now_us hours [a] = Ok [a]).
  { intros Hp now_us hours H. apply recent_articles_one. now rewrite Hp. }
  split; [|split; [|reflexivity]].
  - unfold parse_atom_entry. intros H Hd.
    destruct (strip_html (get_tag_content e (lit "title") namespace))
      as [t|x]; cbn [bind] in H; [|discriminate].
    destruct (strip_html _) as [d|x] in H; cbn [bind] in H; [|discriminate].
    match type of H with
    | Ok (if ?c then Some ?r else None) = _ =>
        destruct c; [|discriminate];
        assert (Ha : a = r) by congruence
    end.
    assert (Hp : pub_date a = utc_now (now_reading feed k)).
    { rewrite Ha. cbn [pub_date]. unfold date_or_now. now rewrite Hd. }
    split; [exact Hp|exact (F Hp)].
  - unfold parse_rss_item. intros H Hd.
    destruct (strip_html (get_tag_content e (lit "title") namespace))
      as [t|x]; cbn [bind] in H; [|discriminate].
    destruct (strip_html _) as [d|x] in H; cbn [bind] in H; [|discriminate].
    match type of H with
    | Ok (if ?c then Some ?r else None) = _ =>
        destruct c; [|discriminate];
        assert (Ha : a = r) by congruence
    end.
    assert (Hp : pub_date a = utc_now (now_reading feed k)).
    { rewrite Ha. cbn [pub_date]. unfold date_or_now. now rewrite Hd. }
    split; [exact Hp|exact (F Hp)].
Qed.

(** The numbers printed in front of the listed articles, in the order of
    the report. *)
Fixpoint entry_numbers (report : list block) : list nat :=
  match report with
  | [] => []
  | ListEntry global_index _ _ :: rest => global_index :: entry_numbers rest
  | _ :: rest => entry_numbers rest
  end.

(** The positions printed in the showcase. *)
Fixpoint showcase_positions (report : list block) : list nat :=
  match report with
  | [] => []
  | ShowcaseEntry i _ :: rest => i :: showcase_positions rest
  | _ :: rest => showcase_positions rest
  end.

Lemma entry_numbers_app (l1 l2 : list block) :
  entry_numbers (l1 ++ l2) = entry_numbers l1 ++ entry_numbers l2.
Proof.
  induction l1 as [|b l1 IH]; simpl; auto.
  destruct b; simpl; now rewrite ?IH.
Qed.

Lemma showcase_positions_app (l1 l2 : list block) :
  showcase_positions (l1 ++ l2)
  = showcase_positions l1 ++ showcase_positions l2.
Proof.
  induction l1 as [|b l1 IH]; simpl; auto.
  destruct b; simpl; now rewrite ?IH.
Qed.

Lemma entry_numbers_list_entries (k : nat) (l : list ScoredArticle) :
  entry_numbers (list_entries k l) = seq (S k) (length l).
Proof.
  revert k. induction l as [|a l IH]; intros k; simpl; auto.
  now rewrite IH.
Qed.

Lemma showcase_positions_list_entries (k : nat) (l : list ScoredArticle) :
  showcase_positions (list_entries k l) = [].
Proof. revert k. induction l as [|a l IH]; intros k; simpl; auto. Qed.

Lemma entry_numbers_category_sections (k : nat)
  (cats : list (str * list ScoredArticle)) :
  entry_numbers (category_sections k cats)
  = seq (S k) (length (concat (List.map snd cats))).
Proof.
  revert k. induction cats as [|[c m] cats IH]; intros k; simpl; auto.
  rewrite entry_numbers_app, entry_numbers_list_entries, IH.
  rewrite length_app, seq_app. reflexivity.
Qed.

Lemma showcase_positions_category_sections (k : nat)
  (cats : list (str * list ScoredArticle)) :
  showcase_positions (category_sections k cats) = [].
Proof.
  revert k. induction cats as [|[c m] cats IH]; intros k; simpl; auto.
  now rewrite showcase_positions_app, showcase_positions_list_entries, IH.
Qed.

Lemma showcase_entries_parts (articles : list ScoredArticle) :
  entry_numbers (showcase_entries articles) = []
  /\ showcase_positions (showcase_entries articles)
     = seq 0 (Nat.min 3 (length articles)).
Proof.
  unfold showcase_entries.
  destruct articles as [|a1 [|a2 [|a3 l]]]; repeat split; reflexivity.
Qed.

(** X22.  The articles listed in the report are numbered 1, 2, 3, ...
    without a gap from the first category section to the last, up to the
    number of articles, which is the number the heading announces; and the
    showcase, when there is one, gives the medals of the positions 0, 1
    and 2, in that order. *)
Theorem report_numbers_run_through (articles : list ScoredArticle)
  (highlights : str) (total_feeds : Z) :
  let report := generate_digest_report articles highlights total_feeds in
  hd_error report = Some (Heading total_feeds (length articles))
  /\ entry_numbers report = seq 1 (length articles)
  /\ showcase_positions report
     = (if (3 <=? length articles)%nat then [0; 1; 2]%nat else []).
Proof.
  intros report. unfold report, generate_digest_report.
  destruct (showcase_entries_parts articles) as (En & Ep).
  split; [reflexivity|].
  split.
  - rewrite !entry_numbers_app, entry_numbers_category_sections.
    rewrite (Permutation_length (listed_perm articles)).
    destruct (nonempty highlights), (3 <=? length articles)%nat;
      cbn [entry_numbers app];
      now rewrite ?entry_numbers_app, ?En, ?app_nil_r.
  - rewrite !showcase_positions_app, showcase_positions_category_sections.
    destruct (3 <=? length articles)%nat eqn:E3.
    + apply Nat.leb_le in E3.
      destruct (nonempty highlights);
        cbn [showcase_positions app];
        rewrite ?showcase_positions_app, Ep, ?app_nil_r;
        now replace (Nat.min 3 (length articles)) with 3%nat by lia.
    + now destruct (nonempty highlights).
Qed.

(* ====================================================================== *)
(** * The order of the selection, and batches voided by one entry *)
(* ====================================================================== *)

Lemma StronglySorted_firstn {A} (R : A -> A -> Prop) (n : nat) (l : list A) :
  StronglySorted R l -> StronglySorted R (firstn n l).
Proof.
  intros H. revert n.
  induction H as [|a l Hs IH Hall]; intros [|n]; simpl; try constructor; auto.
  apply Forall_forall. intros x Hx. apply in_firstn in Hx.
  rewrite Forall_forall in Hall. auto.
Qed.

Lemma StronglySorted_combine {A B} (R : B -> B -> Prop) (l : list B) :
  StronglySorted R l ->
  forall l1 : list A,
    StronglySorted (fun p q => R (snd p) (snd q)) (combine l1 l).
Proof.
  induction 1 as [|b l Hs IH Hall]; intros [|a l1]; simpl; try constructor;
    auto.
  apply Forall_forall. intros [x y] Hin. apply in_combine_r in Hin.
  rewrite Forall_forall in Hall. simpl. auto.
Qed.

Lemma StronglySorted_map {A B} (R : B -> B -> Prop) (f : A -> B) (l : list A) :
  StronglySorted (fun x y => R (f x) (f y)) l -> StronglySorted R (List.map f l).
Proof.
  induction 1 as [|a l Hs IH Hall]; simpl; constructor; auto.
  apply Forall_forall. intros y Hy. apply in_map_iff in Hy.
  destruct Hy as (x & <- & Hx). rewrite Forall_forall in Hall. auto.
Qed.

(** The selection stands in descending order of total score. *)
Lemma curate_sorted (recent : list Article) (top_n : Z) (lang : str) :
  StronglySorted (descending score) (curate recent top_n lang).
Proof.
  unfold curate, final_articles. apply StronglySorted_map.
  eapply StronglySorted_R_ext_local;
    [|unfold enumerate;
      apply (@StronglySorted_combine Z scored_entry (descending total_score))].
  - intros [i x] [j y] H. exact H.
  - unfold top_articles_data, slice_to.
    destruct (0 <=? top_n); apply StronglySorted_firstn;
      exact (sort_desc_sorted total_score _).
Qed.

(** X23.  The selection handed to the renderer stands in descending order
    of total score: no article stands behind one with a smaller total.  So
    the three articles of the showcase have totals at least as high as
    every other article of the report. *)
Theorem showcase_holds_the_highest_totals (recent : list Article)
  (top_n : Z) (lang highlights : str) (total_feeds : Z) :
  let final := curate recent top_n lang in
  let report := generate_digest_report final highlights total_feeds in
  (forall l1 x l2 y l3,
     final = l1 ++ x :: l2 ++ y :: l3 -> score y <= score x)
  /\ (forall shown rest,
        final = shown ++ rest -> length shown = 3%nat ->
        showcase_of report = shown
        /\ forall a b, In a shown -> In b rest -> score b <= score a).
Proof.
  intros final report.
  assert (P : forall l1 x l2 y l3,
            final = l1 ++ x :: l2 ++ y :: l3 -> score y <= score x).
  { exact (@sorted_pairwise _ score final (curate_sorted recent top_n lang)). }
  split; [exact P|].
  intros shown rest E L. split.
  - destruct (report_structure final highlights total_feeds) as (Hs & _).
    fold report in Hs. rewrite Hs, E.
    assert (G : (3 <=? length (shown ++ rest))%nat = true).
    { apply Nat.leb_le. rewrite length_app. lia. }
    rewrite G, <- L, firstn_app, Nat.sub_diag, firstn_all. simpl.
    apply app_nil_r.
  - intros a b Ha Hb.
    apply in_split in Ha. destruct Ha as (s1 & s2 & ->).
    apply in_split in Hb. destruct Hb as (r1 & r2 & ->).
    apply (P s1 a (s2 ++ r1) b r2). rewrite E.
    rewrite <- (app_assoc s1). simpl. now rewrite <- (app_assoc s2).
Qed.

Lemma for_each_raises {A S} (body : S -> A -> result S) (l : list A) (a : A) :
  In a l -> (forall s, exists e, body s a = Raise e) ->
  forall s, exists e, for_each body l s = Raise e.
Proof.
  intros Hin Hbad. induction l as [|x l IH]; intros s; [destruct Hin|].
  simpl. destruct (body s x) as [s'|e] eqn:E; simpl.
  - destruct Hin as [->|Hin]; [|exact (IH Hin s')].
    destruct (Hbad s) as [e He]. congruence.
  - now exists e.
Qed.

(** X24.  One entry of a scoring reply that cannot be processed voids the
    whole batch: the records already read from the same reply are dropped
    and every article of the batch gets the default score.  An entry that
    is not an object is such an entry. *)
Theorem one_bad_entry_voids_the_batch (batch : list scoring_item)
  (items : list (str * json)) (entries : list json) (entry : json) :
  scoring_reply batch = Ok (JObj items) ->
  obj_lookup (lit "results") items = Some (JArr entries) ->
  In entry entries ->
  (forall results, exists e, score_entry results entry = Raise e) ->
  score_batch batch = default_scores batch
  /\ (forall item, In item batch ->
        dict_get (score_batch batch) (KInt (index item)) = Some default_score)
  /\ (forall results value,
        (forall fields, value <> JObj fields) ->
        score_entry results value = Raise AttributeError).
Proof.
  intros Hreply Hresults Hin Hbad.
  assert (E : score_batch batch = default_scores batch).
  { destruct (@for_each_raises _ _ score_entry entries entry Hin Hbad [])
      as [e He].
    apply (@score_batch_raise batch e).
    unfold score_batch_try. rewrite Hreply. cbn [bind py_in py_getitem].
    rewrite Hresults. cbn [bind]. exact He. }
  split; [exact E|].
  split.
  - intros item Hitem. rewrite E. now apply default_scores_lookup.
  - intros results value Hv. unfold score_entry.
    destruct value; try reflexivity. exfalso. now apply (Hv items0).
Qed.

End Program.

(* ====================================================================== *)
(** * The cover generator: [get_default_style], [generate_filename] *)
(* ====================================================================== *)

(** [STYLE_PRESETS], in the order of the source. *)
Definition STYLE_PRESETS : list (str * str) :=
  [(lit "tech", lit "futuristic digital art, neon accents, glowing elements, modern technology aesthetic");
   (lit "AI", lit "futuristic digital art, neural network visualization, holographic interfaces, glowing data streams");
   (lit "programming", lit "clean code aesthetic, matrix-style elements, modern tech workspace, blue tones");
   (lit "food", lit "warm food photography, rustic styling, natural lighting, appetizing presentation");
   (lit "cooking", lit "warm kitchen atmosphere, steam rising, natural lighting, cozy rustic feel");
   (lit "recipe", lit "overhead food shot, vibrant colors, clean styling, professional food photography");
   (lit "travel", lit "cinematic landscape, golden hour lighting, breathtaking vista, wanderlust aesthetic");
   (lit "nature", lit "stunning natural scenery, golden hour, peaceful atmosphere, vivid colors");
   (lit "outdoor", lit "adventure photography, dramatic sky, wide open spaces, inspiring view");
   (lit "business", lit "clean corporate aesthetic, professional blue tones, modern office, sleek design");
   (lit "finance", lit "abstract financial visualization, gold and blue tones, data flowing, professional");
   (lit "startup", lit "modern entrepreneurial vibe, city skyline, innovation aesthetic, energetic");
   (lit "fashion", lit "elegant editorial photography, soft lighting, high fashion aesthetic, luxurious");
   (lit "beauty", lit "soft glowing portrait aesthetic, pastel tones, dreamy lighting, elegant");
   (lit "health", lit "energetic vibrant colors, motion blur, fitness aesthetic, motivating atmosphere");
   (lit "fitness", lit "dynamic action shot, strong lighting, gym aesthetic, powerful composition");
   (lit "lifestyle", lit "cozy lifestyle photography, warm tones, hygge aesthetic, comfortable scene");
   (lit "education", lit "clean academic aesthetic, books and learning, warm library lighting, scholarly");
   (lit "art", lit "creative artistic composition, bold colors, gallery aesthetic, inspiring");
   (lit "design", lit "modern design aesthetic, geometric elements, clean lines, creative composition")].

(** The style returned when no keyword matches. *)
Definition default_style : str :=
  lit "professional photography, clean composition, visually striking, modern aesthetic".

(** The style stored under the keyword [AI]. *)
Definition ai_style : str :=
  lit "futuristic digital art, neural network visualization, holographic interfaces, glowing data streams".

(** [s.replace(c, by)] for a one-character [c]. *)
Definition replace_char (c : N) (replacement : str) (s : str) : str :=
  flat_map (fun x => if (x =? c)%N then replacement else [x]) s.

(** [s.split()]: the maximal runs of characters that are not whitespace;
    [word] is the run being read. *)
Fixpoint split_words (word : str) (s : str) : list str :=
  match s with
  | [] => if nonempty word then [word] else []
  | c :: s' =>
      if is_space c then
        if nonempty word then word :: split_words [] s'
        else split_words [] s'
      else split_words (word ++ [c]) s'
  end.

Definition py_split (s : str) : list str := split_words [] s.

(** [sep.join(words)] *)
Fixpoint join (sep : str) (words : list str) : str :=
  match words with
  | [] => []
  | [w] => w
  | w :: rest => w ++ sep ++ join sep rest
  end.

Section Cover.

Set Default Proof Using "Type".

(** [str.lower] *)
Variable str_lower : str -> str.

(** [str.isalnum] of one character. *)
Variable isalnum : N -> bool.

(** The loop [for keyword, style in STYLE_PRESETS.items()] with its
    [return]. *)
Fixpoint first_style (presets : list (str * str)) (topic_lower : str) : str :=
  match presets with
  | [] => default_style
  | (keyword, style) :: rest =>
      if str_contains topic_lower keyword then style
      else first_style rest topic_lower
  end.

Definition get_default_style (topic : str) : str :=
  first_style STYLE_PRESETS (str_lower topic).

(** [timestamp] is [datetime.now().strftime("%Y-%m-%d")]; the three
    replacements act on the colon, the fullwidth comma (U+FF0C) and the
    ideographic full stop (U+3002). *)
Definition generate_filename (timestamp title : str) : str :=
  let words :=
    firstn 4
      (py_split
         (replace_char 12290 []
            (replace_char 65292 (lit "-") (replace_char 58 [] title)))) in
  let short_title := str_lower (join (lit "-") words) in
  let short_title :=
    firstn 30 (filter (fun c => isalnum c || (c =? 45)%N) short_title) in
  timestamp ++ lit "-wechat-cover-" ++ short_title ++ lit ".png".

Lemma find_sub_split (pat s before rest : str) :
  find_sub pat s = Some (before, rest) -> s = before ++ pat ++ rest.
Proof.
  revert before rest. induction s as [|c s IH]; intros before rest H;
    rewrite find_sub_unfold in H;
    destruct (strip_prefix pat _) as [x|] eqn:E.
  - inversion H; subst. exact (@strip_prefix_some pat [] rest E).
  - discriminate.
  - inversion H; subst. exact (@strip_prefix_some pat (c :: s) rest E).
  - destruct (find_sub pat s) as [[b r]|]; [|discriminate].
    inversion H; subst. simpl. f_equal. now apply IH.
Qed.

Lemma str_contains_chars (s pat : str) (c : N) :
  str_contains s pat = true -> In c pat -> In c s.
Proof.
  unfold str_contains. intros H Hc.
  destruct (find_sub pat s) as [[b r]|] eqn:E; [|discriminate].
  rewrite (@find_sub_split pat s b r E).
  apply in_or_app. right. apply in_or_app. now left.
Qed.

Lemma first_style_choice (presets : list (str * str)) (topic_lower : str) :
  first_style presets topic_lower = default_style
  \/ exists keyword,
       In (keyword, first_style presets topic_lower) presets
       /\ str_contains topic_lower keyword = true.
Proof.
  induction presets as [|[keyword style] presets IH]; simpl; [now left|].
  destruct (str_contains topic_lower keyword) eqn:E.
  - right. exists keyword. auto.
  - destruct IH as [IH|(k & Hin & Hk)]; [now left|].
    right. exists k. auto.
Qed.

(** X19.  The style preset stored under [AI] is never selected: the topic
    is lowered before the keywords are searched in it, and the keyword
    [AI] is not lower case.  A topic that lowers to [ai] gets the default
    style.  ([str.lower] returns no capital [A].) *)
Theorem ai_preset_is_never_selected (topic : str) :
  (forall s, existsb (N.eqb 65) (str_lower s) = false) ->
  In (lit "AI", ai_style) STYLE_PRESETS
  /\ get_default_style topic <> ai_style
  /\ (str_lower topic = lit "ai" -> get_default_style topic = default_style).
Proof.
  intros Hlower.
  split; [right; left; reflexivity|].
  split.
  - unfold get_default_style. intros Heq.
    destruct (first_style_choice STYLE_PRESETS (str_lower topic))
      as [Hd|(keyword & Hin & Hk)].
    + rewrite Hd in Heq. apply str_eqb_eq in Heq. vm_compute in Heq.
      discriminate.
    + rewrite Heq in Hin.
      assert (T : forallb
                    (fun kv => negb (str_eqb (snd kv) ai_style)
                               || str_eqb (fst kv) (lit "AI"))
                    STYLE_PRESETS = true) by (vm_compute; reflexivity).
      rewrite forallb_forall in T. specialize (T _ Hin).
      cbn [fst snd] in T. rewrite str_eqb_refl in T. cbn [negb orb] in T.
      apply str_eqb_eq in T. subst keyword.
      assert (Hc : In 65%N (str_lower topic)).
      { apply (@str_contains_chars _ (lit "AI") 65%N Hk). now left. }
      specialize (Hlower topic).
      assert (Hex : existsb (N.eqb 65) (str_lower topic) = true).
      { apply existsb_exists. exists 65%N. split; [exact Hc|reflexivity]. }
      congruence.
  - intros H. unfold get_default_style. rewrite H. vm_compute. reflexivity.
Qed.

(** X20.  The file name [generate_filename] builds is the date, the fixed
    middle part, a short title and the extension; the short title has at
    most 30 characters, each of them alphanumeric or a hyphen, so that a
    character that is neither -- a path separator, a dot, whitespace --
    never enters the name through the title. *)
Theorem generated_name_is_plain (timestamp title : str) :
  exists short_title,
    generate_filename timestamp title
    = timestamp ++ lit "-wechat-cover-" ++ short_title ++ lit ".png"
    /\ (length short_title <= 30)%nat
    /\ (forall c, In c short_title -> isalnum c = true \/ c = 45%N)
    /\ (forall c, isalnum c = false -> c <> 45%N -> ~ In c short_title).
Proof.
  unfold generate_filename. eexists. split; [reflexivity|].
  assert (A : forall c l,
            In c (firstn 30 (filter (fun c => isalnum c || (c =? 45)%N) l)) ->
            isalnum c = true \/ c = 45%N).
  { intros c l Hin. apply in_firstn, filter_In in Hin.
    destruct Hin as [_ H]. apply Bool.orb_true_iff in H.
    destruct H as [H|H]; [now left|]. right. now apply N.eqb_eq. }
  split; [apply firstn_le_length|].
  split; [intros c; apply A|].
  intros c Hc Hn Hin. destruct (A _ _ Hin) as [H|H]; congruence.
Qed.

End Cover.

(* ====================================================================== *)
(** * Worked examples: stand-ins for the library and sample inputs *)
(* ====================================================================== *)

(** The ASCII digits, standing in for the Unicode decimal digits. *)
Definition ascii_digit (c : N) : option Z :=
  if ((48 <=? c) && (c <=? 57))%N then Some (Z.of_N c - 48) else None.

Fixpoint digits_value (s : str) (acc : Z) : option Z :=
  match s with
  | [] => Some acc
  | c :: s' =>
      match ascii_digit c with
      | Some d => digits_value s' (10 * acc + d)
      | None => None
      end
  end.

(** [int(s)] on plain decimal numerals, with an optional minus sign. *)
Definition ascii_int (s : str) : option Z :=
  match s with
  | [] => None
  | c :: s' =>
      if (c =? 45)%N then
        match s' with
        | [] => None
        | _ :: _ => option_map Z.opp (digits_value s' 0)
        end
      else digits_value s 0
  end.

(** [html.unescape] on the four named references of XML. *)
Definition named_entities : list (str * str) :=
  [(lit "&amp;", lit "&"); (lit "&lt;", lit "<"); (lit "&gt;", lit ">");
   (lit "&quot;", [34%N])].

Fixpoint match_entity (table : list (str * str)) (s : str)
  : option (str * nat) :=
  match table with
  | [] => None
  | (entity, replacement) :: rest =>
      if startswith s entity then Some (replacement, length entity)
      else match_entity rest s
  end.

Fixpoint unescape_from (skip : nat) (s : str) : str :=
  match s with
  | [] => []
  | c :: s' =>
      match skip with
      | S k => unescape_from k s'
      | O =>
          match match_entity named_entities s with
          | Some (replacement, len) =>
              replacement ++ unescape_from (len - 1) s'
          | None => c :: unescape_from 0 s'
          end
      end
  end.

Definition unescape_named (s : str) : str := unescape_from 0 s.

(** A lookup table standing in for a function of the outside world. *)
Fixpoint table_lookup {V} (table : list (str * V)) (k : str) : option V :=
  match table with
  | [] => None
  | (k', v) :: rest => if str_eqb k' k then Some v else table_lookup rest k
  end.

(** Microseconds from the epoch to [hour] o'clock on day number [day]
    (day 19723 is 2024-01-01). *)
Definition clock (day hour : Z) : Z := (day * 24 + hour) * us_per_hour.

(** [strptime] on the one timestamp of the sample feeds. *)
Definition sample_strptime (date_str fmt : str) : option datetime :=
  if str_eqb date_str (lit "2024-01-01T12:00:00+08:00")
     && str_eqb fmt (lit "%Y-%m-%dT%H:%M:%S%z")
  then Some {| wall := clock 19723 12; tzinfo := Some (8 * us_per_hour) |}
  else None.

Definition no_parsedate (date_str : str) : option datetime := None.

Definition sample_now (feed : feed_info) (k : nat) : Z := clock 19724 5.

Definition atom_ns : str := lit "http://www.w3.org/2005/Atom".

Definition atom_el (local : string) (attrs : list (string * string))
  (text : option string) (children : list element) : element :=
  Element (qualified atom_ns (lit local))
    (List.map (fun kv => (lit (fst kv), lit (snd kv))) attrs)
    (option_map lit text) children.

Definition obj (items : list (string * json)) : json :=
  JObj (List.map (fun kv => (lit (fst kv), snd kv)) items).

Definition sample_feed (host : string) : feed_info :=
  {| name := lit host; xmlUrl := lit "https://" ++ lit host ++ lit "/feed";
     htmlUrl := lit "https://" ++ lit host |}.

Definition sample_article (t d : string) (published : datetime) : Article :=
  {| title := lit t; link := lit "https://example.org/" ++ lit t;
     pub_date := published; description := lit d;
     source_name := lit "example.org";
     source_url := lit "https://example.org" |}.

Definition noon_utc : datetime :=
  {| wall := clock 19723 12; tzinfo := Some 0 |}.

Open Scope string_scope.

(** ** Scoring: out-of-range and non-integer values *)

(** A reply with a dimension above the range, one below it, a numeral in a
    string, a float index and dimension, a boolean, and a category outside
    the closed set. *)
Definition wild_reply (batch : list scoring_item) : result json :=
  Ok (obj [("results",
     JArr [obj [("index", JInt 0); ("relevance", JInt 99);
                ("quality", JInt (-3)); ("timeliness", JStr (lit "7"));
                ("category", JStr (lit "ai-ml"));
                ("keywords", JArr [JStr (lit "LLM")])];
           obj [("index", JFloat (FFinite 1 0));
                ("relevance", JFloat (FFinite 15 (-1)));
                ("quality", JBool true); ("timeliness", JInt 10);
                ("category", JStr (lit "gossip"))]])]).

(** A reply whose only entry carries a word where a number belongs. *)
Definition wordy_reply (batch : list scoring_item) : result json :=
  Ok (obj [("results",
     JArr [obj [("index", JInt 0); ("relevance", JStr (lit "high"));
                ("quality", JInt 9); ("timeliness", JInt 9)]])]).

Definition failing_summaries (lang : str) (batch : list summary_item)
  : result json := Raise OtherError.

Definition two_articles : list Article :=
  [sample_article "first" "about the first" noon_utc;
   sample_article "second" "about the second" noon_utc].

Example wild_reply_is_clamped :
  List.map (fun a => (score a, score_breakdown a, category a))
    (curate ascii_int wild_reply failing_summaries two_articles 5 (lit "zh"))
  = [(18, {| b_relevance := 10; b_quality := 1; b_timeliness := 7 |},
      lit "ai-ml");
     (18, {| b_relevance := 7; b_quality := 1; b_timeliness := 10 |},
      lit "other")].
Proof. vm_compute. reflexivity. Qed.

Example wordy_reply_defaults_the_batch :
  List.map (fun a => (score a, score_breakdown a, category a))
    (curate ascii_int wordy_reply failing_summaries two_articles 5 (lit "zh"))
  = [(15, {| b_relevance := 5; b_quality := 5; b_timeliness := 5 |},
      lit "other");
     (15, {| b_relevance := 5; b_quality := 5; b_timeliness := 5 |},
      lit "other")].
Proof. vm_compute. reflexivity. Qed.

Lemma total_score_witness :
  exists a,
    nth_error
      (curate ascii_int wild_reply failing_summaries two_articles 5 (lit "zh"))
      1 = Some a
    /\ score a = 18
    /\ (score a = b_relevance (score_breakdown a) + b_quality (score_breakdown a)
                  + b_timeliness (score_breakdown a)
        /\ 1 <= b_relevance (score_breakdown a) <= 10
        /\ 1 <= b_quality (score_breakdown a) <= 10
        /\ 1 <= b_timeliness (score_breakdown a) <= 10
        /\ 3 <= score a <= 30
        /\ score_total_of a = score a).
Proof.
  eexists. split; [vm_compute; reflexivity|].
  split; [reflexivity|].
  apply (@total_score_is_sum_of_clamped_dimensions ascii_int wild_reply
           failing_summaries two_articles 5 (lit "zh")).
  vm_compute. right. left. reflexivity.
Defined.

(** ** Scoring: a raising batch and an omitted index *)

Definition twelve_articles : list Article :=
  List.map (fun k => sample_article "post" "text" noon_utc) (seq 0 12).

(** The call for the first batch raises; the reply for the second batch
    reports index 10 and omits index 11. *)
Definition flaky_reply (batch : list scoring_item) : result json :=
  match batch with
  | item :: _ =>
      if (index item =? 0)%Z then Raise OtherError
      else Ok (obj [("results",
             JArr [obj [("index", JInt 10); ("relevance", JInt 9);
                        ("quality", JInt 8); ("timeliness", JInt 7)]])])
  | [] => Raise OtherError
  end.

(** The call for the first batch raises; the reply for the second batch
    reports index 3, an article of the first batch. *)
Definition overriding_reply (batch : list scoring_item) : result json :=
  match batch with
  | item :: _ =>
      if (index item =? 0)%Z then Raise OtherError
      else Ok (obj [("results",
             JArr [obj [("index", JInt 3); ("relevance", JInt 9);
                        ("quality", JInt 9); ("timeliness", JInt 9);
                        ("category", JStr (lit "tools"))]])])
  | [] => Raise OtherError
  end.

(** The claim as stated fails: the call for the batch of article 3 raises,
    and article 3 is consumed with the record a later batch reported for
    its index, not with the default record. *)
Lemma later_batch_overrides_the_default :
  let batches := chunks BATCH_SIZE (scoring_indexed twelve_articles) in
  let scored :=
    scored_articles twelve_articles
      (score_articles_with_ai ascii_int overriding_reply twelve_articles) in
  List.map (List.map index) batches
  = [[0; 1; 2; 3; 4; 5; 6; 7; 8; 9]; [10; 11]]
  /\ List.map (score_batch_try ascii_int overriding_reply) (firstn 1 batches)
     = [Raise OtherError]
  /\ List.map total_score scored
     = [15; 15; 15; 27; 15; 15; 15; 15; 15; 15; 15; 15]
  /\ option_map (fun e => sd_category (se_score_data e)) (nth_error scored 3)
     = Some (lit "tools").
Proof. vm_compute. repeat split; reflexivity. Qed.

Lemma consumed_score_witness :
  let scored :=
    scored_articles twelve_articles
      (score_articles_with_ai ascii_int flaky_reply twelve_articles) in
  let default_entry :=
    {| se_article := sample_article "post" "text" noon_utc;
       total_score := 15; se_score_data := default_score |} in
  List.map se_article scored = twelve_articles
  /\ List.map total_score scored
     = [15; 15; 15; 15; 15; 15; 15; 15; 15; 15; 24; 15]
  /\ nth_error scored 0 = Some default_entry
  /\ nth_error scored 11 = Some default_entry.
Proof.
  destruct (@consumed_score_is_last_report_or_default ascii_int flaky_reply
              twelve_articles)
    as (Hcover & _ & _ & Hnth & _ & Hraised).
  split; [exact Hcover|].
  split; [vm_compute; reflexivity|].
  split.
  - apply (Hraised []
             (firstn 10 (scoring_indexed twelve_articles))
             [skipn 10 (scoring_indexed twelve_articles)]
             OtherError
             {| index := 0; i_title := lit "post"; i_description := lit "text";
                i_sourceName := lit "example.org" |}
             0%nat).
    + vm_compute. reflexivity.
    + vm_compute. reflexivity.
    + vm_compute. left. reflexivity.
    + reflexivity.
    + constructor; [vm_compute; reflexivity | constructor].
    + vm_compute. reflexivity.
  - rewrite (Hnth 11%nat (sample_article "post" "text" noon_utc));
      vm_compute; reflexivity.
Defined.

(** ** Ranking *)

Definition entry_of (t : string) (r q tl : Z) : scored_entry :=
  {| se_article := sample_article t "" noon_utc;
     total_score := r + q + tl;
     se_score_data :=
       {| relevance := r; quality := q; timeliness := tl;
          sd_category := lit "other"; sd_keywords := [] |} |}.

Definition five_entries : list scored_entry :=
  [entry_of "a" 5 5 5; entry_of "b" 7 7 6; entry_of "c" 5 5 5;
   entry_of "d" 9 8 8; entry_of "e" 6 7 7].

Lemma ranking_witness :
  0 <= 3
  /\ List.map (fun e => (title (se_article e), total_score e))
       (top_articles_data five_entries 3)
     = [(lit "d", 25); (lit "b", 20); (lit "e", 20)]
  /\ Permutation (sort_desc total_score five_entries) five_entries
  /\ top_articles_data five_entries 3
     = firstn 3 (sort_desc total_score five_entries)
  /\ top_articles_data five_entries 7 = sort_desc total_score five_entries.
Proof.
  assert (H3 : 0 <= 3) by lia.
  assert (H7 : 0 <= 7) by lia.
  destruct (@ranking_is_stable_descending_top_n five_entries 3 H3)
    as (Hperm & _ & _ & _ & Htop & _).
  destruct (@ranking_is_stable_descending_top_n five_entries 7 H7)
    as (_ & _ & _ & _ & _ & Hall).
  split; [exact H3|].
  split; [vm_compute; reflexivity|].
  split; [exact Hperm|].
  split; [exact Htop|].
  apply Hall. simpl. lia.
Defined.

(** ** Summaries: the two fallbacks *)

(** A reply that parses and reports no article. *)
Definition omitting_summaries (lang : str) (batch : list summary_item)
  : result json := Ok (obj [("results", JArr [])]).

(** The claim as stated fails: when the response omits an article, its
    summary falls back to the description, not to the title. *)
Lemma omitted_summary_is_description :
  List.map (fun a => (sa_title a, title_zh a, summary a, reason a))
    (curate ascii_int wild_reply omitting_summaries two_articles 5 (lit "zh"))
  = [(lit "first", JStr (lit "first"), JStr (lit "about the first"), JStr []);
     (lit "second", JStr (lit "second"), JStr (lit "about the second"),
      JStr [])].
Proof. vm_compute. reflexivity. Qed.

(** The call for the first batch raises; the reply for the second batch
    reports index 3, an article of the first batch. *)
Definition overriding_summaries (lang : str) (batch : list summary_item)
  : result json :=
  match batch with
  | item :: _ =>
      if (s_index item =? 0)%Z then Raise OtherError
      else Ok (obj [("results",
             JArr [obj [("index", JInt 3); ("titleZh", JStr (lit "X"));
                        ("summary", JStr (lit "Y"));
                        ("reason", JStr (lit "Z"))]])])
  | [] => Raise OtherError
  end.

Definition twelve_entries : list scored_entry :=
  List.map (fun k => entry_of "post" 5 5 5) (seq 0 12).

(** The fallback of a raising batch is replaced by what a later batch
    reports for the same index: article 3 ends with the later summary,
    article 2 with the fallback. *)
Example later_summary_replaces_the_fallback :
  let final :=
    final_articles twelve_entries
      (summarize_articles overriding_summaries
         (List.map se_article twelve_entries) (lit "zh")) in
  option_map (fun a => (title_zh a, summary a, reason a)) (nth_error final 3)
  = Some (JStr (lit "X"), JStr (lit "Y"), JStr (lit "Z"))
  /\ option_map (fun a => (title_zh a, summary a, reason a))
       (nth_error final 2)
     = Some (JStr (lit "post"), JStr (lit "post"), JStr []).
Proof. vm_compute. split; reflexivity. Qed.

Lemma summary_fallbacks_witness :
  (exists fa,
      nth_error
        (final_articles five_entries
           (summarize_articles omitting_summaries
              (List.map se_article five_entries) (lit "zh"))) 1 = Some fa
      /\ sa_title fa = lit "b"
      /\ title_zh fa = JStr (sa_title fa)
      /\ summary fa = JStr (str_take 200 (sa_description fa))
      /\ reason fa = JStr [])
  /\ (exists fa,
        nth_error
          (final_articles five_entries
             (summarize_articles failing_summaries
                (List.map se_article five_entries) (lit "zh"))) 1 = Some fa
        /\ sa_title fa = lit "b"
        /\ title_zh fa = JStr (sa_title fa)
        /\ summary fa = JStr (sa_title fa)
        /\ reason fa = JStr []).
Proof.
  split.
  - destruct (@summary_fallbacks omitting_summaries five_entries (lit "zh"))
      as (_ & Homitted & _).
    destruct (Homitted 1%nat (entry_of "b" 7 7 6)) as (fa & Hfa & H);
      [reflexivity | vm_compute; reflexivity |].
    exists fa. split; [exact Hfa|]. split; [|exact H].
    vm_compute in Hfa. inversion Hfa. reflexivity.
  - destruct (@summary_fallbacks failing_summaries five_entries (lit "zh"))
      as (_ & _ & Hraised & _).
    destruct (Hraised []
                (summary_indexed (List.map se_article five_entries)) []
                OtherError 1%nat (entry_of "b" 7 7 6)) as (fa & Hfa & H).
    + vm_compute. reflexivity.
    + reflexivity.
    + vm_compute. right. left. reflexivity.
    + constructor.
    + reflexivity.
    + exists fa. split; [exact Hfa|]. split; [|exact H].
      vm_compute in Hfa. inversion Hfa. reflexivity.
Defined.

(** ** The report *)

Definition scored (t cat : string) (r q tl : Z) : ScoredArticle :=
  {| sa_title := lit t; sa_link := (lit "https://example.org/" ++ lit t)%list;
     sa_pub_date := noon_utc; sa_description := lit "";
     sa_source_name := lit "example.org";
     sa_source_url := lit "https://example.org";
     score := r + q + tl;
     score_breakdown := {| b_relevance := r; b_quality := q; b_timeliness := tl |};
     category := lit cat; keywords := [];
     title_zh := JStr (lit t); summary := JStr (lit t); reason := JStr [] |}.

Definition three_ranked : list ScoredArticle :=
  [scored "gold" "ai-ml" 9 9 9; scored "silver" "tools" 8 8 8;
   scored "bronze" "ai-ml" 7 7 7].

Definition five_ranked : list ScoredArticle :=
  (three_ranked
   ++ [scored "fourth" "tools" 6 6 6; scored "fifth" "tools" 5 5 5])%list.

(** The claim as stated fails: with exactly three articles all of them are
    in the showcase, none remains, and the category sections still list all
    three. *)
Lemma showcased_articles_are_listed_again :
  let report := generate_digest_report three_ranked (lit "") 90 in
  showcase_of report = three_ranked
  /\ skipn 3 three_ranked = []
  /\ List.map sa_title (listed_of report)
     = [lit "gold"; lit "bronze"; lit "silver"]
  /\ List.map (fun g => (fst g, List.map sa_title (snd g))) (sections_of report)
     = [(lit "ai-ml", [lit "gold"; lit "bronze"]); (lit "tools", [lit "silver"])].
Proof. vm_compute. repeat split; reflexivity. Qed.

Lemma report_witness :
  let report := generate_digest_report five_ranked (lit "lead") 90 in
  List.map sa_title (showcase_of report)
  = [lit "gold"; lit "silver"; lit "bronze"]
  /\ List.map (fun g => (fst g, List.map sa_title (snd g))) (sections_of report)
     = [(lit "tools", [lit "silver"; lit "fourth"; lit "fifth"]);
        (lit "ai-ml", [lit "gold"; lit "bronze"])]
  /\ Permutation (listed_of report) five_ranked
  /\ showcase_of (generate_digest_report (firstn 2 five_ranked) (lit "lead") 90)
     = [].
Proof.
  destruct (@report_showcase_and_category_listing five_ranked (lit "lead") 90)
    as (_ & Hperm & _).
  destruct (@report_showcase_and_category_listing (firstn 2 five_ranked)
              (lit "lead") 90) as (Hnone & _).
  split; [vm_compute; reflexivity|].
  split; [vm_compute; reflexivity|].
  split; [exact Hperm|].
  exact Hnone.
Defined.

(** ** Feeds *)

Definition quiet_doc : str :=
  lit "<feed xmlns='http://www.w3.org/2005/Atom'><title>Quiet</title></feed>".

Definition quiet_tree : element :=
  atom_el "feed" [] None [atom_el "title" [] (Some "Quiet") []].

Definition post_doc : str :=
  lit "<feed xmlns='http://www.w3.org/2005/Atom'><entry><title>Post</title><link rel='self' href='https://example.org/feed'/><link rel='alternate' href='https://example.org/post'/><published>2024-01-01T12:00:00+08:00</published></entry></feed>".

Definition self_link : element :=
  atom_el "link" [("rel", "self"); ("href", "https://example.org/feed")] None [].

Definition alternate_link : element :=
  atom_el "link" [("rel", "alternate"); ("href", "https://example.org/post")]
    None [].

Definition post_tree : element :=
  atom_el "feed" []  None
    [atom_el "entry" [] None
       [atom_el "title" [] (Some "Post") [];
        self_link; alternate_link;
        atom_el "published" [] (Some "2024-01-01T12:00:00+08:00") []]].

(** A title that holds, once the XML parser has decoded it, an escaped
    ampersand followed by a numeric reference one past the last code
    point. *)
Definition overflow_doc : str :=
  lit "<feed xmlns='http://www.w3.org/2005/Atom'><entry><title>&amp;amp;#1114112;</title></entry></feed>".

Definition overflow_tree : element :=
  atom_el "feed" [] None
    [atom_el "entry" [] None
       [atom_el "title" [] (Some "&amp;#1114112;") []]].

Definition sample_fromstring : str -> option element :=
  table_lookup
    [(quiet_doc, quiet_tree); (post_doc, post_tree);
     (overflow_doc, overflow_tree)].

(** The network: three feeds deliver a document, every other request
    fails. *)
Definition sample_http (feed : feed_info) : option str :=
  table_lookup
    [(lit "quiet.example", quiet_doc); (lit "post.example", post_doc);
     (lit "overflow.example", overflow_doc);
     (lit "garbled.example", lit "<feed><entry></feed>")]
    (name feed).

Definition sample_parse : str -> feed_info -> result (list Article) :=
  parse_feed_xml unescape_named ascii_digit sample_fromstring sample_strptime
    no_parsedate sample_now.

Definition sample_fetch_all : list feed_info -> list Article * Z * Z :=
  fetch_all_feeds unescape_named ascii_digit sample_fromstring sample_strptime
    no_parsedate sample_now sample_http.

(** The article of [post_doc]: published at 12:00 at UTC+8, which is 04:00
    UTC. *)
Definition post_article : Article :=
  {| title := lit "Post"; link := lit "https://example.org/post";
     pub_date := {| wall := clock 19723 12; tzinfo := Some (8 * us_per_hour) |};
     description := lit ""; source_name := lit "post.example";
     source_url := lit "https://post.example" |}.

Example post_doc_parses :
  sample_parse post_doc (sample_feed "post.example") = Ok [post_article].
Proof. vm_compute. reflexivity. Qed.

(** The claim as stated fails: a feed retrieved and parsed without error
    that holds no entry is counted as a failure. *)
Lemma empty_feed_counts_as_failure :
  sample_http (sample_feed "quiet.example") = Some quiet_doc
  /\ sample_parse quiet_doc (sample_feed "quiet.example") = Ok []
  /\ sample_fetch_all [sample_feed "quiet.example"] = ([], 0, 1).
Proof. vm_compute. repeat split; reflexivity. Qed.

Lemma fetch_witness :
  let feeds :=
    [sample_feed "down.example"; sample_feed "post.example";
     sample_feed "garbled.example"; sample_feed "overflow.example";
     sample_feed "quiet.example"] in
  sample_fetch_all feeds = ([post_article], 1, 4)
  /\ snd (fst (sample_fetch_all feeds)) + snd (sample_fetch_all feeds) = 5.
Proof.
  destruct (@fetch_counts_feeds_with_articles unescape_named ascii_digit
              sample_fromstring sample_strptime no_parsedate sample_now
              sample_http
              [sample_feed "down.example"; sample_feed "post.example";
               sample_feed "garbled.example"; sample_feed "overflow.example";
               sample_feed "quiet.example"]) as (Hall & Hsum & _).
  split; [|exact Hsum].
  unfold sample_fetch_all. rewrite Hall. vm_compute. reflexivity.
Defined.

(** ** The link of an Atom entry *)

(** The claim as stated fails: when the first link whose [rel] is
    ["alternate"] carries no [href], the loop moves on to the next one. *)
Lemma link_skips_alternate_without_href :
  let links :=
    [atom_el "link" [("rel", "alternate")] None []; alternate_link] in
  first_alternate_href links = []
  /\ atom_link links = lit "https://example.org/post".
Proof. vm_compute. split; reflexivity. Qed.

Lemma atom_link_witness :
  atom_link [self_link; alternate_link] = lit "https://example.org/post"
  /\ atom_link [self_link; alternate_link]
     = match List.find eligible_link [self_link; alternate_link] with
       | Some link_elem => el_get link_elem (lit "href")
       | None => []
       end.
Proof.
  destruct (@atom_link_first_eligible unescape_named ascii_digit
              sample_strptime no_parsedate sample_now
              [self_link; alternate_link]) as (Hfind & Hself & _).
  split; [|exact Hfind].
  rewrite (Hself self_link alternate_link []); reflexivity.
Defined.

(** ** An exception that leaves the parser *)

Example unescape_leaves_a_reference :
  unescape_named (lit "&amp;#1114112;") = lit "&#1114112;".
Proof. vm_compute. reflexivity. Qed.

(** C9.  [parse_feed_xml] raises [ValueError] on a well-formed Atom document
    whose title holds an escaped reference to a number that is no code
    point: [strip_html] calls [chr] on it outside any [try].  The caller,
    [fetch_feed], catches the exception and returns no article. *)
Theorem parser_raises_on_reference_beyond_unicode :
  sample_fromstring overflow_doc = Some overflow_tree
  /\ strip_html unescape_named ascii_digit (lit "&amp;#1114112;")
     = Raise ValueError
  /\ sample_parse overflow_doc (sample_feed "overflow.example")
     = Raise ValueError
  /\ sample_parse (lit "<feed><entry></feed>") (sample_feed "garbled.example")
     = Ok []
  /\ sample_fetch_all [sample_feed "overflow.example"] = ([], 0, 1).
Proof. vm_compute. repeat split; reflexivity. Qed.

(** ** Time zones *)

(** The article of [post_doc] one day later at 05:00 UTC, with a window of
    24 hours: the cutoff is 2024-01-01 05:00 UTC, the article was published
    at 04:00 UTC. *)
Definition late_now : Z := clock 19724 5.

(** C4.  The time filter keeps an article whose publish timestamp is
    strictly before the cutoff: it compares the fields of the timestamp
    (12:00) after overwriting the zone, while the timestamp denotes 04:00
    UTC. *)
Theorem filter_keeps_article_published_before_cutoff :
  sample_parse post_doc (sample_feed "post.example") = Ok [post_article]
  /\ instant (cutoff_time late_now 24) = clock 19723 5
  /\ instant (pub_date post_article) = clock 19723 4
  /\ instant (pub_date post_article) < instant (cutoff_time late_now 24)
  /\ recent_articles late_now 24 [post_article] = Ok [post_article]
  /\ published_after_cutoff late_now 24 [post_article] = [].
Proof. vm_compute. repeat split; reflexivity. Qed.



(** ** Further examples *)

Lemma category_witness :
  exists a,
    nth_error
      (curate ascii_int wild_reply failing_summaries two_articles 5 (lit "zh"))
      1 = Some a
    /\ category a = lit "other"
    /\ In (category a) VALID_CATEGORIES
    /\ (length (keywords a) <= 4)%nat.
Proof.
  eexists. split; [vm_compute; reflexivity|].
  split; [reflexivity|].
  apply (@category_in_closed_set_keywords_capped ascii_int wild_reply
           failing_summaries two_articles 5 (lit "zh")).
  vm_compute. right. left. reflexivity.
Defined.

Lemma utc_filter_witness :
  recent_articles (clock 19723 14) 2 two_articles = Ok []
  /\ recent_articles (clock 19723 14) 3 two_articles = Ok two_articles
  /\ recent_articles (clock 19723 14) 3 two_articles
     = Ok (published_after_cutoff (clock 19723 14) 3 two_articles).
Proof.
  split; [vm_compute; reflexivity|].
  split; [vm_compute; reflexivity|].
  apply (@recent_articles_utc (clock 19723 14) 3 two_articles).
  intros a [<-|[<-|[]]]; right; reflexivity.
Defined.

(** ** Text helpers *)

Lemma cdata_witness :
  str_contains (lit "see ") (lit "<![CDATA[") = false
  /\ str_contains (lit "a ]] b") (lit "]]>") = false
  /\ extract_cdata (lit "see <![CDATA[a ]] b]]> and ]]>") = lit "a ]] b".
Proof.
  split; [reflexivity|]. split; [reflexivity|].
  exact (proj1 (@extract_cdata_unwraps (lit "see ") (lit "a ]] b")
                  (lit " and ]]>") eq_refl eq_refl)).
Defined.

(** ** An RSS 2.0 document *)

Definition rss_doc : str :=
  lit "<rss version='2.0'><channel><title>News</title><item><title>Post</title><link>https://example.org/post</link></item></channel></rss>".

Definition plain_el (tag : string) (text : option string)
  (children : list element) : element :=
  Element (lit tag) [] (option_map lit text) children.

Definition rss_tree : element :=
  Element (lit "rss") [(lit "version", lit "2.0")] None
    [plain_el "channel" None
       [plain_el "title" (Some "News") [];
        plain_el "item" None
          [plain_el "title" (Some "Post") [];
           plain_el "link" (Some "https://example.org/post") []]]].

Definition rss_fromstring : str -> option element :=
  table_lookup [(rss_doc, rss_tree)].

Lemma rss_witness :
  rss_fromstring rss_doc = Some rss_tree
  /\ findall rss_tree (lit "item") = []
  /\ parse_feed_xml unescape_named ascii_digit rss_fromstring sample_strptime
       no_parsedate sample_now rss_doc (sample_feed "news.example") = Ok [].
Proof.
  assert (H : rss_fromstring rss_doc = Some rss_tree)
    by (vm_compute; reflexivity).
  split; [exact H|]. split; [reflexivity|].
  exact (@rss_items_are_sought_under_the_root unescape_named ascii_digit
           rss_fromstring sample_strptime no_parsedate sample_now rss_doc
           (sample_feed "news.example") rss_tree H eq_refl eq_refl).
Defined.

(** ** An entry without a date *)

Definition undated_entry : element :=
  atom_el "entry" [] None [atom_el "title" [] (Some "Post") []].

Lemma undated_witness :
  exists a,
    parse_atom_entry unescape_named ascii_digit sample_strptime no_parsedate
      sample_now (sample_feed "post.example") atom_ns 0 undated_entry
    = Ok (Some a)
    /\ pub_date a = utc_now (clock 19724 5)
    /\ recent_articles late_now 24 [a] = Ok [a].
Proof.
  assert (W : exists a,
            parse_atom_entry unescape_named ascii_digit sample_strptime
              no_parsedate sample_now (sample_feed "post.example") atom_ns 0
              undated_entry = Ok (Some a))
    by (vm_compute; eexists; reflexivity).
  destruct W as (a & W). exists a. split; [exact W|].
  destruct (@undated_entries_are_stamped_on_reading unescape_named
              ascii_digit sample_strptime no_parsedate sample_now
              (sample_feed "post.example") atom_ns 0 undated_entry a)
    as (H & _).
  destruct (H W) as (Hp & Hr); [vm_compute; reflexivity|].
  split; [exact Hp|]. apply Hr. vm_compute. reflexivity.
Defined.

(** ** Ages *)

Lemma age_witness :
  exact_age (clock 19730 13 - instant (pub_date post_article))
  /\ humanize_time (clock 19723 13) (pub_date post_article) = Ok (HoursAgo 9)
  /\ humanize_time (clock 19726 13) (pub_date post_article) = Ok (DaysAgo 3)
  /\ humanize_time (clock 19730 13) (pub_date post_article) = Ok (OnDate 19723)
  /\ humanize_time (clock 19723 3) (pub_date post_article)
     = Ok (MinutesAgo (-60)).
Proof.
  assert (E : forall day hour,
            (Z.abs (clock day hour - instant (pub_date post_article))
             <? 2 ^ 53)%Z = true ->
            exact_age (clock day hour - instant (pub_date post_article))).
  { intros day hour H. apply Z.ltb_lt in H. exact H. }
  split; [apply E; vm_compute; reflexivity|].
  split; [|split; [|split]];
    match goal with
    | |- humanize_time (clock ?day ?hour) _ = _ =>
        rewrite (proj1 (@humanize_time_by_age (clock day hour)
                          (pub_date post_article)
                          (E day hour eq_refl)));
        vm_compute; reflexivity
    end.
Defined.

(** ** Completion order *)

Lemma any_order_witness :
  let one := [sample_feed "quiet.example"; sample_feed "post.example"] in
  let other := [sample_feed "post.example"; sample_feed "quiet.example"] in
  Permutation one other
  /\ snd (fst (sample_fetch_all one)) = snd (fst (sample_fetch_all other))
  /\ snd (sample_fetch_all one) = snd (sample_fetch_all other).
Proof.
  intros one other.
  assert (P : Permutation one other) by apply perm_swap.
  split; [exact P|].
  exact (proj2 (@fetch_all_feeds_any_order unescape_named ascii_digit
                  sample_fromstring sample_strptime no_parsedate sample_now
                  sample_http one other P)).
Defined.

(** ** A fenced reply *)

(** [json.loads] on the empty object. *)
Definition brace_loads (s : str) : result json :=
  if str_eqb s (lit "{}") then Ok (JObj []) else Raise ValueError.

Lemma fenced_witness :
  parse_json_response brace_loads
    ([32%N] ++ (fence ++ lit "json" ++ 10%N :: lit "{}" ++ 10%N :: fence)
     ++ [10%N])%list
  = Ok (JObj []).
Proof.
  destruct (@fenced_reply_is_unwrapped brace_loads [32%N] (lit "{}") [10%N] []
              eq_refl eq_refl) as (H & _).
  rewrite H. reflexivity.
Defined.

(** ** A reply with one entry that is not an object *)

Definition half_bad_entries : list json :=
  [obj [("index", JInt 0); ("relevance", JInt 9); ("quality", JInt 9);
        ("timeliness", JInt 9); ("category", JStr (lit "tools"))];
   JStr (lit "oops")].

Definition half_bad_reply (batch : list scoring_item) : result json :=
  Ok (obj [("results", JArr half_bad_entries)]).

Lemma voided_batch_witness :
  let batch := scoring_indexed two_articles in
  score_batch ascii_int half_bad_reply batch = default_scores batch
  /\ dict_get (score_batch ascii_int half_bad_reply batch) (KInt 0)
     = Some default_score.
Proof.
  intros batch.
  destruct (@one_bad_entry_voids_the_batch ascii_int half_bad_reply batch
              [(lit "results", JArr half_bad_entries)] half_bad_entries
              (JStr (lit "oops")))
    as (E & _).
  - reflexivity.
  - reflexivity.
  - right. left. reflexivity.
  - intros results. exists AttributeError. reflexivity.
  - split; [exact E|]. rewrite E. vm_compute. reflexivity.
Defined.

(** ** Runs of [main_async] *)

Definition brief_highlights (shown : list ScoredArticle) (lang : str)
  : result str :=
  Ok (lit "  Models everywhere.  ").

(** A summary reply that carries [null] where the summary belongs. *)
Definition null_summaries (lang : str) (batch : list summary_item)
  : result json :=
  Ok (obj [("results", JArr [obj [("index", JInt 0); ("summary", JNull)]])]).

Definition sample_run (summaries : str -> list summary_item -> result json)
  (highlights : list ScoredArticle -> str -> result str) (api_key : string)
  (hours top_n : Z) : outcome :=
  main_async ascii_int wild_reply summaries unescape_named ascii_digit
    sample_fromstring sample_strptime no_parsedate sample_now sample_http
    TypeError highlights (lit api_key)
    [sample_feed "post.example"; sample_feed "quiet.example"]
    late_now hours top_n (lit "zh").

Lemma exit_witness :
  sample_run failing_summaries brief_highlights "  " 24 5 = Exit 1
  /\ sample_run failing_summaries brief_highlights "sk-1" 1 5 = Exit 1.
Proof.
  split.
  - apply (@main_async_exit_conditions ascii_int wild_reply failing_summaries
             unescape_named ascii_digit sample_fromstring sample_strptime
             no_parsedate sample_now sample_http TypeError brief_highlights).
    left. reflexivity.
  - apply (@main_async_exit_conditions ascii_int wild_reply failing_summaries
             unescape_named ascii_digit sample_fromstring sample_strptime
             no_parsedate sample_now sample_http TypeError brief_highlights).
    right. right. split; vm_compute; reflexivity.
Defined.

Lemma written_witness :
  exists report after,
    sample_run failing_summaries brief_highlights "sk-1" 24 5
    = Written report after
    /\ after = Ok tt
    /\ length (listed_of report) = 1%nat.
Proof.
  assert (W : exists report after,
            sample_run failing_summaries brief_highlights "sk-1" 24 5
            = Written report after)
    by (vm_compute; do 2 eexists; reflexivity).
  destruct W as (report & after & W). exists report, after.
  split; [exact W|].
  destruct (@written_report_lists_the_selection ascii_int wild_reply
              failing_summaries unescape_named ascii_digit sample_fromstring
              sample_strptime no_parsedate sample_now sample_http TypeError
              brief_highlights _ _ _ _ _ _ report after W) as (Ha & Hn & _).
  split; [exact Ha|]. rewrite Hn. vm_compute. reflexivity.
Defined.



(** A summary reply whose title is a lone surrogate, as the JSON escape
    [\ud83d] decodes. *)
Definition surrogate_summaries (lang : str) (batch : list summary_item)
  : result json :=
  Ok (obj [("results",
     JArr [obj [("index", JInt 0); ("titleZh", JStr [55357%N]);
                ("summary", JStr (lit "A post.")); ("reason", JStr [])]])]).

(** A [null] summary ends the run before anything is written; so does a
    title that cannot be encoded. *)
Lemma null_summary_witness :
  sample_run null_summaries brief_highlights "sk-1" 24 5 = Raised TypeError
  /\ sample_run surrogate_summaries brief_highlights "sk-1" 24 5
     = Raised ValueError.
Proof.
  split.
  - destruct (@uncaught_exceptions_of_a_run ascii_int wild_reply
                null_summaries unescape_named ascii_digit sample_fromstring
                sample_strptime no_parsedate sample_now sample_http TypeError
                brief_highlights (lit "sk-1")
                [sample_feed "post.example"; sample_feed "quiet.example"]
                late_now 24 5 (lit "zh")) as (_ & H).
    + vm_compute. discriminate.
    + vm_compute. discriminate.
    + destruct H as (Hs & _ & _).
      * vm_compute. reflexivity.
      * vm_compute. discriminate.
      * destruct Hs as (shown & a & rest & _ & _ & _ & Hrun).
        { vm_compute. reflexivity. }
        unfold sample_run. rewrite Hrun.
        destruct (summary a); reflexivity.
  - destruct (@uncaught_exceptions_of_a_run ascii_int wild_reply
                surrogate_summaries unescape_named ascii_digit
                sample_fromstring sample_strptime no_parsedate sample_now
                sample_http TypeError brief_highlights (lit "sk-1")
                [sample_feed "post.example"; sample_feed "quiet.example"]
                late_now 24 5 (lit "zh")) as (_ & H).
    + vm_compute. discriminate.
    + vm_compute. discriminate.
    + destruct H as (_ & _ & He).
      * vm_compute. reflexivity.
      * vm_compute. discriminate.
      * apply He; vm_compute; reflexivity.
Defined.

(** A numeric reference to a surrogate code point passes [chr] and leaves
    in the title a character that cannot be encoded. *)
Example surrogate_reference_cannot_be_encoded :
  strip_html unescape_named ascii_digit (lit "&amp;#55296;") = Ok [55296%N]
  /\ encodable [55296%N] = false.
Proof. vm_compute. split; reflexivity. Qed.

(** ** The cover generator *)

(** [str.lower] on ASCII letters. *)
Definition ascii_lower (s : str) : str :=
  List.map (fun c => if ((65 <=? c) && (c <=? 90))%N then (c + 32)%N else c) s.

Lemma ascii_lower_no_capital_a (s : str) :
  existsb (N.eqb 65) (ascii_lower s) = false.
Proof.
  induction s as [|c s IH]; [reflexivity|].
  cbn [ascii_lower List.map existsb]. fold (ascii_lower s). rewrite IH.
  rewrite Bool.orb_false_r.
  destruct ((65 <=? c) && (c <=? 90))%N eqn:E.
  - apply andb_prop in E. destruct E as [E1 E2].
    apply N.leb_le in E1. apply N.eqb_neq. lia.
  - apply N.eqb_neq. intros H. subst c. vm_compute in E. discriminate.
Qed.

Lemma ai_topic_witness :
  get_default_style ascii_lower (lit "AI") = default_style
  /\ get_default_style ascii_lower (lit "AI") <> ai_style.
Proof.
  destruct (@ai_preset_is_never_selected ascii_lower (lit "AI")
              ascii_lower_no_capital_a) as (_ & Hne & Hd).
  split; [apply Hd; reflexivity|exact Hne].
Defined.
